(** * QCMV3: the quiz generator's response parser, question editor and quiz store

    A shallow embedding of
    - [parseGeneratedQuiz] (services/geminiService.ts),
    - the handlers of the question editor card (QuestionEditorCard), and
    - the handlers of the quiz state store (App),
    together with the properties the specification states about them.

    JavaScript strings are sequences of UTF-16 code units; they are modelled
    as lists of code units ([N]).  The values [JSON.parse] produces are
    modelled by the inductive type [JSON]. *)

From Stdlib Require Import NArith ZArith List String Ascii Lia Bool.
From stdpp Require Import base numbers list.
Import ListNotations.

Set Default Proof Using "Type".
Set Warnings "-register-all".
Local Open Scope N_scope.
Local Open Scope nat_scope.

(** ** JavaScript values *)

(** A UTF-16 code unit, and a JavaScript string. *)
Definition char := N.
Definition jsstring := list char.

(** The code units of an ASCII literal. *)
Fixpoint str (s : string) : jsstring :=
  match s with
  | EmptyString => []
  | String a s' => N_of_ascii a :: str s'
  end.

(** A JSON number literal [(-1)^negative * digits * 10^exp10], kept exact:
    the binary64 value JavaScript works with is a function of it. *)
Record number := mkNumber { negative : bool; digits : N; exp10 : Z }.

(** Values produced by [JSON.parse].  An object keeps its members in source
    order; a repeated key is resolved at lookup (the last one wins). *)
Inductive JSON :=
| JNull
| JBool (b : bool)
| JNumber (d : number)
| JString (s : jsstring)
| JArray (items : list JSON)
| JObject (members : list (jsstring * JSON)).

(** ** The data model (types.ts) *)

(** The TypeScript interfaces declare [text] and [questionText] as strings,
    but the parser stores whatever truthy JSON value the model's answer
    holds there, so both fields carry a [JSON] value. *)
Module QuizOption.
Record t := mk { id : jsstring; text : JSON; isCorrect : bool }.
End QuizOption.

Module QuizQuestion.
Record t := mk {
  id : jsstring;
  questionText : JSON;
  options : list QuizOption.t;
  isMultipleChoice : bool
}.
End QuizQuestion.

Record QuizSettings := {
  quizName : jsstring;
  gradeLevel : jsstring;
  subject : jsstring;
  userPrompt : jsstring;
  numQuestions : Z;
  multipleChoicePercentage : Z
}.

(** ** Array helpers *)

(** [Array.prototype.findIndex]: [None] stands for [-1]. *)
Definition findIndex {A} (P : A -> bool) (l : list A) : option nat :=
  fst <$> list_find (fun x => P x = true) l.

(** [Array.prototype.find]. *)
Definition find {A} (P : A -> bool) (l : list A) : option A :=
  snd <$> list_find (fun x => P x = true) l.

(** [Array.prototype.splice] applied to a copy, for a start index in range. *)
Definition splice {A} (l : list A) (start deleteCount : nat) (items : list A)
  : list A :=
  take start l ++ items ++ drop (start + deleteCount) l.

(** [Array.prototype.filter] with a boolean callback. *)
Definition jsfilter {A} (P : A -> bool) (l : list A) : list A :=
  filter (fun x => P x = true) l.

Definition id_eqb (a b : jsstring) : bool := bool_decide (a = b).

(** ** String helpers *)

(** WhiteSpace and LineTerminator code units: what [String.prototype.trim]
    strips and what the pattern character class [\s] matches. *)
Definition isWhiteSpace (c : char) : bool :=
  match c with
  | 9 | 10 | 11 | 12 | 13 | 32 | 160 | 5760 | 8232 | 8233 | 8239 | 8287
  | 12288 | 65279 => true
  | _ => (8192 <=? c)%N && (c <=? 8202)%N
  end%N.

Fixpoint trimStart (s : jsstring) : jsstring :=
  match s with
  | c :: s' => if isWhiteSpace c then trimStart s' else s
  | [] => []
  end.

Definition trimEnd (s : jsstring) : jsstring := rev (trimStart (rev s)).

(** [String.prototype.trim]. *)
Definition trim (s : jsstring) : jsstring := trimEnd (trimStart s).

(** ** The question editor card (QuestionEditorCard) *)

Module Editor.

(** The messages the card shows with [alert]. *)
Inductive Alert :=
| AlertEmptyQuestionText   (* Le texte de la question ne peut pas etre vide. *)
| AlertEmptyOptionText     (* Le texte d'une option ne peut pas etre vide. *)
| AlertNoCorrectOption     (* Au moins une option doit etre marquee comme correcte. *)
| AlertSingleChoice        (* ... La premiere option correcte sera conservee. *)
| AlertTwoOptions.         (* Une question doit avoir au moins 2 options. *)

(** The card's local state: the two [useState] cells. *)
Record State := mkState {
  editedQuestionText : JSON;
  editedOptions : list QuizOption.t
}.

(** [!v.trim()]: [None] is the TypeError raised when [v] is not a string. *)
Definition trimsToEmpty (v : JSON) : option bool :=
  match v with
  | JString s => Some (bool_decide (trim s = []))
  | _ => None
  end.

(** [opts.some(opt => !opt.text.trim())], left to right, stopping at the
    first hit. *)
Fixpoint someOptionTextEmpty (opts : list QuizOption.t) : option bool :=
  match opts with
  | [] => Some false
  | opt :: rest =>
      match trimsToEmpty (QuizOption.text opt) with
      | None => None
      | Some true => Some true
      | Some false => someOptionTextEmpty rest
      end
  end.

Definition setText (newText : JSON) (opt : QuizOption.t) : QuizOption.t :=
  QuizOption.mk (QuizOption.id opt) newText (QuizOption.isCorrect opt).

Definition setCorrect (b : bool) (opt : QuizOption.t) : QuizOption.t :=
  QuizOption.mk (QuizOption.id opt) (QuizOption.text opt) b.

Definition hasId (optionId : jsstring) (opt : QuizOption.t) : bool :=
  id_eqb (QuizOption.id opt) optionId.

Definition handleQuestionTextChange (value : jsstring) (st : State) : State :=
  mkState (JString value) (editedOptions st).

Definition handleOptionTextChange (optionId newText : jsstring) (st : State)
  : State :=
  mkState (editedQuestionText st)
    ((fun opt => if hasId optionId opt then setText (JString newText) opt
                 else opt) <$> editedOptions st).

Definition handleOptionCorrectChange (question : QuizQuestion.t)
    (optionId : jsstring) (st : State) : State :=
  let updatedOptions := editedOptions st in
  match findIndex (hasId optionId) updatedOptions with
  | None => st
  | Some targetOptionIndex =>
      match updatedOptions !! targetOptionIndex with
      | None => st (* not reached: the index was found in this list *)
      | Some target =>
          let updatedOptions :=
            if negb (QuizQuestion.isMultipleChoice question)
               && negb (QuizOption.isCorrect target)
            then setCorrect false <$> updatedOptions
            else updatedOptions in
          match updatedOptions !! targetOptionIndex with
          | None => st (* not reached *)
          | Some target =>
              mkState (editedQuestionText st)
                (<[targetOptionIndex :=
                     setCorrect (negb (QuizOption.isCorrect target)) target]>
                   updatedOptions)
          end
      end
  end.

(** [deleteOption]: the new state and the alert shown, if any. *)
Definition deleteOption (optionId : jsstring) (st : State)
  : State * option Alert :=
  if (length (editedOptions st) <=? 2)%nat then (st, Some AlertTwoOptions)
  else (mkState (editedQuestionText st)
          (jsfilter (fun opt => negb (hasId optionId opt)) (editedOptions st)),
        None).

(** The [map] callback of [handleSaveChanges] with its captured flag
    [firstCorrectFound]. *)
Fixpoint keepFirstCorrect (firstCorrectFound : bool)
    (opts : list QuizOption.t) : list QuizOption.t :=
  match opts with
  | [] => []
  | opt :: rest =>
      if QuizOption.isCorrect opt then
        if negb firstCorrectFound then opt :: keepFirstCorrect true rest
        else setCorrect false opt :: keepFirstCorrect firstCorrectFound rest
      else opt :: keepFirstCorrect firstCorrectFound rest
  end.

(** What a call of [handleSaveChanges] does. *)
Inductive SaveOutcome :=
| SaveThrows                       (* a TypeError leaves the handler *)
| SaveRejected (a : Alert)         (* alert, nothing else *)
| SaveCommitted (warning : option Alert) (st' : State)
    (updatedQuestion : QuizQuestion.t). (* onQuestionChange is called *)

Definition withEdits (question : QuizQuestion.t) (txt : JSON)
    (opts : list QuizOption.t) : QuizQuestion.t :=
  QuizQuestion.mk (QuizQuestion.id question) txt opts
    (QuizQuestion.isMultipleChoice question).

Definition handleSaveChanges (question : QuizQuestion.t) (st : State)
  : SaveOutcome :=
  match trimsToEmpty (editedQuestionText st) with
  | None => SaveThrows
  | Some true => SaveRejected AlertEmptyQuestionText
  | Some false =>
      match someOptionTextEmpty (editedOptions st) with
      | None => SaveThrows
      | Some true => SaveRejected AlertEmptyOptionText
      | Some false =>
          let correctOptionsCount :=
            length (jsfilter QuizOption.isCorrect (editedOptions st)) in
          if (correctOptionsCount =? 0)%nat then
            SaveRejected AlertNoCorrectOption
          else if negb (QuizQuestion.isMultipleChoice question)
                  && (1 <? correctOptionsCount)%nat then
            let correctedOptions := keepFirstCorrect false (editedOptions st) in
            SaveCommitted (Some AlertSingleChoice)
              (mkState (editedQuestionText st) correctedOptions)
              (withEdits question (editedQuestionText st) correctedOptions)
          else
            SaveCommitted None st
              (withEdits question (editedQuestionText st) (editedOptions st))
      end
  end.

End Editor.

(** ** A mounted editor card and the operations a user can perform on it *)

Module Card.
Section Card.

(** [JSON.parse(JSON.stringify(v))] on the text of an option: the deep copy
    the card takes of [question.options].  Identifiers (strings) and
    correctness flags (booleans) survive the copy as they are. *)
Variable structuredCopy : JSON -> JSON.

Definition copyOptions (opts : list QuizOption.t) : list QuizOption.t :=
  (fun opt => QuizOption.mk (QuizOption.id opt)
                (structuredCopy (QuizOption.text opt))
                (QuizOption.isCorrect opt)) <$> opts.

(** The [useState] initialisers, also what the [useEffect] on [question]
    resets the card to. *)
Definition sync (question : QuizQuestion.t) : Editor.State :=
  Editor.mkState (QuizQuestion.questionText question)
    (copyOptions (QuizQuestion.options question)).

(** A card: its [question] and [isReadOnly] props and its local state. *)
Record t := mk {
  question : QuizQuestion.t;
  isReadOnly : bool;
  local : Editor.State
}.

Definition mount (q : QuizQuestion.t) (readOnly : bool) : t :=
  mk q readOnly (sync q).

Inductive Op :=
| QuestionTextChange (value : jsstring)
| OptionTextChange (optionId newText : jsstring)
| OptionCorrectChange (optionId : jsstring)
| DeleteOption (optionId : jsstring)
| SaveChanges.

(** One user action.  The inputs are read-only and the delete button is
    not rendered when [isReadOnly] holds; a blur still runs
    [handleSaveChanges], whose [onQuestionChange] the validated store
    ignores.  When the store takes the update, the card receives the
    updated question and its effect resets the local state. *)
Definition step (op : Op) (c : t) : t :=
  match op with
  | QuestionTextChange value =>
      if isReadOnly c then c
      else mk (question c) (isReadOnly c)
             (Editor.handleQuestionTextChange value (local c))
  | OptionTextChange optionId newText =>
      if isReadOnly c then c
      else mk (question c) (isReadOnly c)
             (Editor.handleOptionTextChange optionId newText (local c))
  | OptionCorrectChange optionId =>
      if isReadOnly c then c
      else mk (question c) (isReadOnly c)
             (Editor.handleOptionCorrectChange (question c) optionId (local c))
  | DeleteOption optionId =>
      if isReadOnly c then c
      else mk (question c) (isReadOnly c)
             (fst (Editor.deleteOption optionId (local c)))
  | SaveChanges =>
      match Editor.handleSaveChanges (question c) (local c) with
      | Editor.SaveThrows | Editor.SaveRejected _ => c
      | Editor.SaveCommitted _ st' updatedQuestion =>
          if isReadOnly c then mk (question c) (isReadOnly c) st'
          else mk updatedQuestion (isReadOnly c) (sync updatedQuestion)
      end
  end.

Definition run (ops : list Op) (c : t) : t :=
  fold_left (fun c op => step op c) ops c.

End Card.
End Card.

(** ** The quiz state store (App) *)

Module App.

Inductive ErrorMessage :=
| ErrNoQuestions           (* L'IA n'a pas pu generer de questions ... *)
| ErrOriginalNotFound      (* Question originale non trouvee ... *)
| ErrNoAlternative         (* L'IA n'a pas pu generer de question alternative. *)
| ErrNoMoreQuestions       (* L'IA n'a pas pu generer 10 questions ... *)
| ErrThrown (message : jsstring).

Inductive Alert :=
| AlertGenerateFirst       (* Veuillez d'abord generer un QCM initial ... *)
| AlertEmptyQuiz           (* Impossible de valider un QCM vide. *)
| AlertMissingAnswer.      (* Certaines questions n'ont pas de reponse ... *)

(** The [useState] cells of the component. *)
Record State := mkState {
  quizSettings : option QuizSettings;
  editableQuiz : list QuizQuestion.t;
  isLoading : bool;
  isAddingMoreQuestions : bool;
  error : option ErrorMessage;
  isQuizValidated : bool;
  regeneratingQuestionId : option jsstring
}.

Definition setEditableQuiz (f : list QuizQuestion.t -> list QuizQuestion.t)
    (st : State) : State :=
  mkState (quizSettings st) (f (editableQuiz st)) (isLoading st)
    (isAddingMoreQuestions st) (error st) (isQuizValidated st)
    (regeneratingQuestionId st).

Definition setQuizSettings (f : option QuizSettings -> option QuizSettings)
    (st : State) : State :=
  mkState (f (quizSettings st)) (editableQuiz st) (isLoading st)
    (isAddingMoreQuestions st) (error st) (isQuizValidated st)
    (regeneratingQuestionId st).

Definition setIsAddingMoreQuestions (b : bool) (st : State) : State :=
  mkState (quizSettings st) (editableQuiz st) (isLoading st) b (error st)
    (isQuizValidated st) (regeneratingQuestionId st).

Definition setError (e : option ErrorMessage) (st : State) : State :=
  mkState (quizSettings st) (editableQuiz st) (isLoading st)
    (isAddingMoreQuestions st) e (isQuizValidated st)
    (regeneratingQuestionId st).

Definition setIsQuizValidated (b : bool) (st : State) : State :=
  mkState (quizSettings st) (editableQuiz st) (isLoading st)
    (isAddingMoreQuestions st) (error st) b (regeneratingQuestionId st).

Definition setRegeneratingQuestionId (i : option jsstring) (st : State)
  : State :=
  mkState (quizSettings st) (editableQuiz st) (isLoading st)
    (isAddingMoreQuestions st) (error st) (isQuizValidated st) i.

Definition questionHasId (questionId : jsstring) (q : QuizQuestion.t) : bool :=
  id_eqb (QuizQuestion.id q) questionId.

Definition handleUpdateQuestion (updatedQuestion : QuizQuestion.t)
    (st : State) : State :=
  if isQuizValidated st then st
  else setEditableQuiz
         (fun prevQuiz =>
            (fun q => if questionHasId (QuizQuestion.id updatedQuestion) q
                      then updatedQuestion else q) <$> prevQuiz) st.

Definition handleDeleteQuestion (questionId : jsstring) (st : State) : State :=
  if isQuizValidated st then st
  else setEditableQuiz
         (jsfilter (fun q => negb (questionHasId questionId q))) st.

(** The state updater [handleRegenerateAlternativeQuestion] hands to
    [setEditableQuiz] once the alternative has arrived. *)
Definition insertAfter (originalQuestionId : jsstring)
    (newQuestion : QuizQuestion.t) (prevQuiz : list QuizQuestion.t)
  : list QuizQuestion.t :=
  match findIndex (questionHasId originalQuestionId) prevQuiz with
  | None => prevQuiz
  | Some originalIndex => splice prevQuiz (originalIndex + 1) 0 [newQuestion]
  end.

(** What [await generateAlternativeQuestion(...)] gives back. *)
Inductive Reply (A : Type) :=
| Resolved (value : A)
| Rejected (message : jsstring).
Arguments Resolved {A} value.
Arguments Rejected {A} message.

(** [handleRegenerateAlternativeQuestion] up to its [await]: the new state
    and the request sent to the service, if one is sent. *)
Definition regenerateRequest (originalQuestionId : jsstring) (st : State)
  : State * option (QuizQuestion.t * QuizSettings) :=
  match isQuizValidated st, quizSettings st with
  | true, _ | _, None => (st, None)
  | false, Some settings =>
      match find (questionHasId originalQuestionId) (editableQuiz st) with
      | None => (setError (Some ErrOriginalNotFound) st, None)
      | Some originalQuestion =>
          (setError None
             (setRegeneratingQuestionId (Some originalQuestionId) st),
           Some (originalQuestion, settings))
      end
  end.

(** The rest of the handler, run on the state the component has when the
    service answers. *)
Definition regenerateReply (originalQuestionId : jsstring)
    (reply : Reply (option QuizQuestion.t)) (st : State) : State :=
  setRegeneratingQuestionId None
    match reply with
    | Resolved (Some newQuestion) =>
        setEditableQuiz (insertAfter originalQuestionId newQuestion) st
    | Resolved None => setError (Some ErrNoAlternative) st
    | Rejected message => setError (Some (ErrThrown message)) st
    end.

(** [handleAddMoreQuestions] up to its [await]. *)
Definition addMoreRequest (st : State)
  : State * option Alert * option (QuizSettings * list QuizQuestion.t) :=
  match quizSettings st with
  | Some settings =>
      if isQuizValidated st || bool_decide (editableQuiz st = [])
         || isLoading st || isAddingMoreQuestions st
      then (st, if bool_decide (editableQuiz st = [])
                then Some AlertGenerateFirst else None, None)
      else (setError None (setIsAddingMoreQuestions true st), None,
            Some (settings, editableQuiz st))
  | None =>
      (st, if bool_decide (editableQuiz st = [])
           then Some AlertGenerateFirst else None, None)
  end.

Definition addToNumQuestions (n : nat) (s : QuizSettings) : QuizSettings :=
  {| quizName := quizName s; gradeLevel := gradeLevel s;
     subject := subject s; userPrompt := userPrompt s;
     numQuestions := numQuestions s + Z.of_nat n;
     multipleChoicePercentage := multipleChoicePercentage s |}.

Definition addMoreReply (reply : Reply (option (list QuizQuestion.t)))
    (st : State) : State :=
  setIsAddingMoreQuestions false
    match reply with
    | Resolved (Some ((_ :: _) as newQuestions)) =>
        setQuizSettings (fmap (addToNumQuestions (length newQuestions)))
          (setEditableQuiz (fun prevQuiz => prevQuiz ++ newQuestions) st)
    | Resolved _ => setError (Some ErrNoMoreQuestions) st
    | Rejected message => setError (Some (ErrThrown message)) st
    end.

(** [handleValidateQuiz]: the new state and the alert shown, if any. *)
Definition handleValidateQuiz (st : State) : State * option Alert :=
  match editableQuiz st with
  | [] => (st, Some AlertEmptyQuiz)
  | _ =>
      let isValid :=
        forallb (fun q => existsb QuizOption.isCorrect (QuizQuestion.options q))
          (editableQuiz st) in
      if negb isValid then (st, Some AlertMissingAnswer)
      else (setIsQuizValidated true st, None)
  end.

End App.

(** ** Regular expressions

    A backtracking matcher in continuation-passing style, after the
    ECMAScript pattern semantics, for the constructs the two patterns of
    [parseGeneratedQuiz] use.  Alternatives are tried in priority order and
    the first complete match wins. *)

Module RegExp.

Inductive pattern :=
| Eps                            (* the empty pattern *)
| Chr (c : char)                 (* a pattern character *)
| Class (p : char -> bool)       (* a character class *)
| Dot                            (* . *)
| Seq (r1 r2 : pattern)
| Opt (r : pattern)              (* r?  *)
| Star (r : pattern)             (* r*  *)
| LazyStar (r : pattern)         (* r*? *)
| Group (r : pattern)            (* ( r ), capture group 1 *)
| Bol                            (* ^ without the m flag *)
| Eol.                           (* $ without the m flag *)

(** r{n,} *)
Fixpoint AtLeast (n : nat) (r : pattern) : pattern :=
  match n with
  | O => Star r
  | S n' => Seq r (AtLeast n' r)
  end.

(** The characters of a literal, in sequence. *)
Fixpoint Lit (s : jsstring) : pattern :=
  match s with
  | [] => Eps
  | c :: s' => Seq (Chr c) (Lit s')
  end.

Record flags := { ignoreCase : bool; dotAll : bool }.

(** Canonicalize of the pattern semantics under the i flag (without u):
    a code unit below 128 maps to its upper case; one from 128 on never
    maps below 128, so against the ASCII pattern characters used here it
    can be left as it is. *)
Definition canonicalize (fl : flags) (c : char) : char :=
  if ignoreCase fl && (97 <=? c)%N && (c <=? 122)%N then (c - 32)%N else c.

Definition isLineTerminator (c : char) : bool :=
  match c with
  | 10 | 13 | 8232 | 8233 => true
  | _ => false
  end%N.

(** The matcher's state: the index reached, the input from there on, and
    what group 1 captured. *)
Record mstate := mkM { pos : nat; rest : jsstring; cap1 : option jsstring }.

Definition cont := mstate -> option mstate.

Definition step1 (ok : char -> bool) (k : cont) : cont := fun st =>
  match rest st with
  | c :: s' => if ok c then k (mkM (S (pos st)) s' (cap1 st)) else None
  | [] => None
  end.

(** One more iteration is taken only if it consumed input. *)
Definition progress (st : mstate) (k : cont) : cont := fun st' =>
  if (pos st <? pos st')%nat then k st' else None.

Definition orElse (a b : option mstate) : option mstate :=
  match a with Some x => Some x | None => b end.

(** r* : iterate first, leave the loop on backtracking. *)
Fixpoint greedyLoop (body : cont -> cont) (k : cont) (n : nat) : cont :=
  fun st =>
  match n with
  | O => k st
  | S n' => orElse (body (progress st (greedyLoop body k n')) st) (k st)
  end.

(** r*? : leave the loop first, iterate on backtracking. *)
Fixpoint lazyLoop (body : cont -> cont) (k : cont) (n : nat) : cont :=
  fun st =>
  match n with
  | O => k st
  | S n' => orElse (k st) (body (progress st (lazyLoop body k n')) st)
  end.

(** [matcher fl r k st]: match [r] at [st], then [k].  An iteration of a
    loop consumes at least one code unit, so the length of the remaining
    input bounds the number of iterations. *)
Fixpoint matcher (fl : flags) (r : pattern) {struct r} : cont -> cont :=
  match r with
  | Eps => fun k => k
  | Chr c =>
      step1 (fun x => bool_decide (canonicalize fl x = canonicalize fl c))
  | Class p => step1 p
  | Dot => step1 (fun x => dotAll fl || negb (isLineTerminator x))
  | Seq r1 r2 => fun k => matcher fl r1 (matcher fl r2 k)
  | Opt r' => fun k st =>
      orElse (matcher fl r' (progress st k) st) (k st)
  | Star r' => fun k st =>
      greedyLoop (matcher fl r') k (length (rest st)) st
  | LazyStar r' => fun k st =>
      lazyLoop (matcher fl r') k (length (rest st)) st
  | Group r' => fun k st =>
      matcher fl r'
        (fun st' =>
           k (mkM (pos st') (rest st')
                (Some (take (pos st' - pos st) (rest st))))) st
  | Bol => fun k st => if (pos st =? 0)%nat then k st else None
  | Eol => fun k st => match rest st with [] => k st | _ => None end
  end.

(** A match of [r] starting exactly at index [i], the input from [i] on
    being [s]. *)
Definition matchAt (fl : flags) (r : pattern) (i : nat) (s : jsstring)
  : option mstate :=
  matcher fl r Some (mkM i s None).

(** [RegExp.prototype.exec] for a pattern without the g flag: the first
    index, from [i] on, at which the pattern matches. *)
Fixpoint execFrom (fl : flags) (r : pattern) (i : nat) (s : jsstring)
  : option mstate :=
  match matchAt fl r i s with
  | Some m => Some m
  | None =>
      match s with
      | [] => None
      | _ :: s' => execFrom fl r (S i) s'
      end
  end.

(** [String.prototype.match] with a pattern without the g flag; of the
    match array only element 1 is used. *)
Definition matchGroup1 (fl : flags) (r : pattern) (s : jsstring)
  : option (option jsstring) :=
  cap1 <$> execFrom fl r 0 s.

(** A replacement template: literal code units and [$1]. *)
Inductive piece := Literal (c : char) | Dollar1.

Definition substitute (template : list piece) (m : mstate) : jsstring :=
  concat ((fun p => match p with
                    | Literal c => [c]
                    | Dollar1 => default [] (cap1 m)
                    end) <$> template).

(** [String.prototype.replace] with a pattern with the g flag: the matches
    are looked for from left to right, each search starting where the
    previous match ended (one further after an empty match).  [skip]
    counts the code units of the current match still to be passed. *)
Fixpoint replaceFrom (fl : flags) (r : pattern) (template : list piece)
    (skip i : nat) (s : jsstring) : jsstring :=
  match skip with
  | S skip' =>
      match s with
      | [] => []
      | _ :: s' => replaceFrom fl r template skip' (S i) s'
      end
  | O =>
      match matchAt fl r i s with
      | Some m =>
          substitute template m ++
          match s with
          | [] => []
          | c :: s' =>
              if (pos m =? i)%nat
              then c :: replaceFrom fl r template 0 (S i) s'
              else replaceFrom fl r template (pos m - i - 1) (S i) s'
          end
      | None =>
          match s with
          | [] => []
          | c :: s' => c :: replaceFrom fl r template 0 (S i) s'
          end
      end
  end.

Definition replaceAll (fl : flags) (r : pattern) (template : list piece)
    (s : jsstring) : jsstring :=
  replaceFrom fl r template 0 0 s.

End RegExp.

(** ** JSON.parse *)

Module JSONParser.

Inductive result (A : Type) :=
| Ok (v : A) (rest : jsstring)
| SyntaxError
| OutOfFuel.
Arguments Ok {A} v rest.
Arguments SyntaxError {A}.
Arguments OutOfFuel {A}.

(** JSON white space: tab, line feed, carriage return, space. *)
Definition isJSONWhiteSpace (c : char) : bool :=
  match c with 9 | 10 | 13 | 32 => true | _ => false end%N.

Fixpoint skipWs (s : jsstring) : jsstring :=
  match s with
  | c :: s' => if isJSONWhiteSpace c then skipWs s' else s
  | [] => []
  end.

Definition isDigit (c : char) : bool := (48 <=? c)%N && (c <=? 57)%N.

Definition hexValue (c : char) : option N :=
  if isDigit c then Some (c - 48)%N
  else if (97 <=? c)%N && (c <=? 102)%N then Some (c - 87)%N
  else if (65 <=? c)%N && (c <=? 70)%N then Some (c - 55)%N
  else None.

(** The four hexadecimal digits of a [\u] escape. *)
Definition hex4 (a b c d : char) : option char :=
  match hexValue a, hexValue b, hexValue c, hexValue d with
  | Some x, Some y, Some z, Some w => Some (((x * 16 + y) * 16 + z) * 16 + w)%N
  | _, _, _, _ => None
  end.

Definition simpleEscape (c : char) : option char :=
  match c with
  | 34 => Some 34     (* quotation mark *)
  | 92 => Some 92     (* reverse solidus *)
  | 47 => Some 47     (* solidus *)
  | 98 => Some 8      (* b: backspace *)
  | 102 => Some 12    (* f: form feed *)
  | 110 => Some 10    (* n: line feed *)
  | 114 => Some 13    (* r: carriage return *)
  | 116 => Some 9     (* t: tab *)
  | _ => None
  end%N.

(** One more code unit in front of what was read. *)
Definition push {A} (c : A) (r : result (list A)) : result (list A) :=
  match r with
  | Ok v rest => Ok (c :: v) rest
  | SyntaxError => SyntaxError
  | OutOfFuel => OutOfFuel
  end.

(** The characters of a string after its opening quote, up to and
    including the closing quote. *)
Fixpoint stringBody (s : jsstring) : result jsstring :=
  match s with
  | [] => SyntaxError
  | c :: s' =>
      if (c =? 34)%N then Ok [] s'
      else if (c =? 92)%N then
        match s' with
        | [] => SyntaxError
        | e :: s'' =>
            if (e =? 117)%N then
              match s'' with
              | a :: b :: c :: d :: s3 =>
                  match hex4 a b c d with
                  | Some u => push u (stringBody s3)
                  | None => SyntaxError
                  end
              | _ => SyntaxError
              end
            else
              match simpleEscape e with
              | Some u => push u (stringBody s'')
              | None => SyntaxError
              end
        end
      else if (c <? 32)%N then SyntaxError
      else push c (stringBody s')
  end.

(** A run of decimal digits: its value on top of [acc], how many there
    were, and what follows. *)
Fixpoint digitRun (acc : N) (s : jsstring) : N * nat * jsstring :=
  match s with
  | c :: s' =>
      if isDigit c then
        let '(v, n, r) := digitRun (acc * 10 + (c - 48))%N s' in (v, S n, r)
      else (acc, O, s)
  | [] => (acc, O, [])
  end.

(** The integer part of a number: a lone zero, or digits that do not
    start with zero. *)
Definition integerPart (s : jsstring) : result N :=
  match s with
  | c :: t =>
      if (c =? 48)%N then Ok 0%N t
      else if isDigit c then let '(v, _, r) := digitRun 0 s in Ok v r
      else SyntaxError
  | [] => SyntaxError
  end.

(** The optional fraction of a number, after the integer part [int]. *)
Definition fraction (int : N) (s : jsstring) : result (N * Z) :=
  match s with
  | c :: s' =>
      if (c =? 46)%N then
        match digitRun int s' with
        | (_, O, _) => SyntaxError
        | (v, n, r) => Ok (v, (- Z.of_nat n)%Z) r
        end
      else Ok (int, 0%Z) s
  | [] => Ok (int, 0%Z) s
  end.

(** The sign of an exponent, when there is one. *)
Definition exponentSign (s : jsstring) : Z * jsstring :=
  match s with
  | c :: t =>
      if (c =? 45)%N then ((-1)%Z, t)
      else if (c =? 43)%N then (1%Z, t)
      else (1%Z, s)
  | [] => (1%Z, s)
  end.

(** The optional exponent of a number. *)
Definition exponent (s : jsstring) : result Z :=
  match s with
  | c :: s' =>
      if (c =? 101)%N || (c =? 69)%N then
        let '(sign, s'') := exponentSign s' in
        match digitRun 0 s'' with
        | (_, O, _) => SyntaxError
        | (v, _, r) => Ok (sign * Z.of_N v)%Z r
        end
      else Ok 0%Z s
  | [] => Ok 0%Z s
  end.

(** A number: an optional minus sign, an integer part, an optional
    fraction and an optional exponent. *)
Definition numberLiteral (s : jsstring) : result number :=
  let '(sign, s1) :=
    match s with
    | c :: t => if (c =? 45)%N then (true, t) else (false, s)
    | [] => (false, s)
    end in
  match integerPart s1 with
  | Ok i s2 =>
      match fraction i s2 with
      | Ok (m, e1) s3 =>
          match exponent s3 with
          | Ok e2 s4 => Ok (mkNumber sign m (e1 + e2)) s4
          | SyntaxError => SyntaxError
          | OutOfFuel => OutOfFuel
          end
      | SyntaxError => SyntaxError
      | OutOfFuel => OutOfFuel
      end
  | SyntaxError => SyntaxError
  | OutOfFuel => OutOfFuel
  end.

(** A keyword ([null], [true], [false]) at the head of the input. *)
Fixpoint keyword (w s : jsstring) : option jsstring :=
  match w, s with
  | [], _ => Some s
  | a :: w', b :: s' => if (a =? b)%N then keyword w' s' else None
  | _ :: _, [] => None
  end.

Definition literal (w : jsstring) (v : JSON) (s : jsstring) : result JSON :=
  match keyword w s with
  | Some r => Ok v r
  | None => SyntaxError
  end.

Definition wrap {A} (f : A -> JSON) (r : result A) : result JSON :=
  match r with
  | Ok v rest => Ok (f v) rest
  | SyntaxError => SyntaxError
  | OutOfFuel => OutOfFuel
  end.

(** Is [c] the next code unit after white space? *)
Definition nextIs (c : char) (s : jsstring) : option jsstring :=
  match skipWs s with
  | d :: s' => if (d =? c)%N then Some s' else None
  | [] => None
  end.

(** Values, the elements of an array after its first bracket, and the
    members of an object after its first brace, by recursive descent. *)
Fixpoint value (fuel : nat) (s : jsstring) : result JSON :=
  match fuel with
  | O => OutOfFuel
  | S fuel' =>
      match skipWs s with
      | [] => SyntaxError
      | c :: s1 =>
          if (c =? 91)%N then
            match nextIs 93%N s1 with
            | Some s2 => Ok (JArray []) s2
            | None => elements fuel' s1 []
            end
          else if (c =? 123)%N then
            match nextIs 125%N s1 with
            | Some s2 => Ok (JObject []) s2
            | None => members fuel' s1 []
            end
          else if (c =? 34)%N then wrap JString (stringBody s1)
          else if (c =? 110)%N then literal (str "null") JNull (c :: s1)
          else if (c =? 116)%N then literal (str "true") (JBool true) (c :: s1)
          else if (c =? 102)%N then literal (str "false") (JBool false) (c :: s1)
          else if isDigit c || (c =? 45)%N then
            wrap JNumber (numberLiteral (c :: s1))
          else SyntaxError
      end
  end
with elements (fuel : nat) (s : jsstring) (acc : list JSON) : result JSON :=
  match fuel with
  | O => OutOfFuel
  | S fuel' =>
      match value fuel' s with
      | Ok v r =>
          match nextIs 44%N r with
          | Some r' => elements fuel' r' (v :: acc)
          | None =>
              match nextIs 93%N r with
              | Some r' => Ok (JArray (rev (v :: acc))) r'
              | None => SyntaxError
              end
          end
      | SyntaxError => SyntaxError
      | OutOfFuel => OutOfFuel
      end
  end
with members (fuel : nat) (s : jsstring) (acc : list (jsstring * JSON))
  : result JSON :=
  match fuel with
  | O => OutOfFuel
  | S fuel' =>
      match nextIs 34%N s with
      | Some s1 =>
          match stringBody s1 with
          | Ok key s2 =>
              match nextIs 58%N s2 with
              | Some s3 =>
                  match value fuel' s3 with
                  | Ok v r =>
                      match nextIs 44%N r with
                      | Some r' => members fuel' r' ((key, v) :: acc)
                      | None =>
                          match nextIs 125%N r with
                          | Some r' =>
                              Ok (JObject (rev ((key, v) :: acc))) r'
                          | None => SyntaxError
                          end
                      end
                  | SyntaxError => SyntaxError
                  | OutOfFuel => OutOfFuel
                  end
              | None => SyntaxError
              end
          | SyntaxError => SyntaxError
          | OutOfFuel => OutOfFuel
          end
      | None => SyntaxError
      end
  end.

(** The whole text must be one value between optional white space. *)
Definition parseWith (fuel : nat) (text : jsstring) : result JSON :=
  match value fuel text with
  | Ok v r => match skipWs r with [] => Ok v [] | _ => SyntaxError end
  | e => e
  end.

(** [JSON.parse(text)]: [None] is the SyntaxError it throws. *)
Definition parse (text : jsstring) : option JSON :=
  match parseWith (2 * length text + 2) text with
  | Ok v _ => Some v
  | _ => None
  end.

End JSONParser.

(** ** The response parser (services/geminiService.ts) *)

Module Gemini.

(** [crypto.randomUUID()] draws from a source of identifiers: [uuids] is
    the sequence the page will obtain and [drawn] how many were taken. *)
Record Entropy := mkEntropy { drawn : nat; uuids : nat -> jsstring }.

(** Computations that draw identifiers and may throw a TypeError
    ([None]). *)
Definition Eff (A : Type) : Type := Entropy -> option A * Entropy.

Definition ret {A} (a : A) : Eff A := fun e => (Some a, e).
Definition throw {A} : Eff A := fun e => (None, e).
Definition bind {A B} (c : Eff A) (f : A -> Eff B) : Eff B := fun e =>
  match c e with
  | (Some a, e') => f a e'
  | (None, e') => (None, e')
  end.

Notation "x <- c1 ;; c2" := (bind c1 (fun x => c2))
  (at level 100, c1 at next level, right associativity).

Definition randomUUID : Eff jsstring := fun e =>
  (Some (uuids e (drawn e)), mkEntropy (S (drawn e)) (uuids e)).

(** [Array.prototype.map] with a callback that receives the index. *)
Fixpoint mapIndexed {A B} (f : A -> nat -> Eff B) (index : nat) (l : list A)
  : Eff (list B) :=
  match l with
  | [] => ret []
  | a :: l' =>
      b <- f a index ;;
      bs <- mapIndexed f (S index) l' ;;
      ret (b :: bs)
  end.

(** The fence pattern, flags i and s: a code fence around the whole
    text, group 1 being what it encloses. *)
Definition backticks : jsstring := str "```".
Definition whiteSpaces : RegExp.pattern :=
  RegExp.Star (RegExp.Class isWhiteSpace).
Definition optionalNewline : RegExp.pattern := RegExp.Opt (RegExp.Chr 10%N).

Definition fenceTail : RegExp.pattern :=
  RegExp.Seq optionalNewline
    (RegExp.Seq whiteSpaces (RegExp.Seq (RegExp.Lit backticks) RegExp.Eol)).

Definition fenceRegex : RegExp.pattern :=
  RegExp.Seq RegExp.Bol
    (RegExp.Seq (RegExp.Lit backticks)
       (RegExp.Seq (RegExp.Opt (RegExp.Lit (str "json")))
          (RegExp.Seq whiteSpaces
             (RegExp.Seq optionalNewline
                (RegExp.Seq (RegExp.Group (RegExp.LazyStar RegExp.Dot))
                   fenceTail))))).

Definition fenceFlags : RegExp.flags :=
  {| RegExp.ignoreCase := true; RegExp.dotAll := true |}.

(** The first four statements of [parseGeneratedQuiz]: trim, and take
    what the fence encloses when there is a fence around something. *)
Definition stripFence (jsonString : jsstring) : jsstring :=
  let cleanJsonString := trim jsonString in
  match RegExp.matchGroup1 fenceFlags fenceRegex cleanJsonString with
  | Some (Some (c :: g)) => trim (c :: g)
  | _ => cleanJsonString
  end.

(** The LaTeX pattern (flag g): a backslash and two or more ASCII
    letters, the letters being group 1. *)
Definition isAsciiLetter (c : char) : bool :=
  ((97 <=? c)%N && (c <=? 122)%N) || ((65 <=? c)%N && (c <=? 90)%N).

Definition latexRegex : RegExp.pattern :=
  RegExp.Seq (RegExp.Chr 92%N)
    (RegExp.Group (RegExp.AtLeast 2 (RegExp.Class isAsciiLetter))).

Definition latexFlags : RegExp.flags :=
  {| RegExp.ignoreCase := false; RegExp.dotAll := false |}.

(** The replacement: two backslashes, then group 1. *)
Definition latexReplacement : list RegExp.piece :=
  [RegExp.Literal 92%N; RegExp.Literal 92%N; RegExp.Dollar1].

Definition escapeLatex (cleanJsonString : jsstring) : jsstring :=
  RegExp.replaceAll latexFlags latexRegex latexReplacement cleanJsonString.

(** ToBoolean of a number: zero, also by underflow (at most 2^-1075 in
    magnitude), is falsy. *)
Definition numberIsZero (d : number) : bool :=
  (digits d =? 0)%N
  || ((exp10 d <? 0)%Z
      && (digits d * 2 ^ 1075 <=? 10 ^ Z.to_N (- exp10 d))%N).

(** ToBoolean of a property value; [None] is [undefined]. *)
Definition truthy (v : option JSON) : bool :=
  match v with
  | None | Some JNull => false
  | Some (JBool b) => b
  | Some (JNumber d) => negb (numberIsZero d)
  | Some (JString s) => negb (bool_decide (s = []))
  | Some (JArray _) | Some (JObject _) => true
  end.

(** The value of the last member named [name]. *)
Fixpoint lookupMember (name : jsstring) (members : list (jsstring * JSON))
  : option JSON :=
  match members with
  | [] => None
  | (key, v) :: members' =>
      match lookupMember name members' with
      | Some v' => Some v'
      | None => if id_eqb key name then Some v else None
      end
  end.

(** [v.name] for one of the property names the parser reads: a TypeError
    on [null], the member of an object, and [undefined] otherwise (no
    prototype defines these names). *)
Definition getProp (v : JSON) (name : jsstring) : Eff (option JSON) :=
  match v with
  | JNull => throw
  | JObject members => ret (lookupMember name members)
  | _ => ret None
  end.

(** [v || fallback] *)
Definition logicalOr (v : option JSON) (fallback : jsstring) : JSON :=
  match v with
  | Some x => if truthy v then x else JString fallback
  | None => JString fallback
  end.

Fixpoint uintCodes (d : Decimal.uint) : jsstring :=
  match d with
  | Decimal.Nil => []
  | Decimal.D0 d' => 48%N :: uintCodes d'
  | Decimal.D1 d' => 49%N :: uintCodes d'
  | Decimal.D2 d' => 50%N :: uintCodes d'
  | Decimal.D3 d' => 51%N :: uintCodes d'
  | Decimal.D4 d' => 52%N :: uintCodes d'
  | Decimal.D5 d' => 53%N :: uintCodes d'
  | Decimal.D6 d' => 54%N :: uintCodes d'
  | Decimal.D7 d' => 55%N :: uintCodes d'
  | Decimal.D8 d' => 56%N :: uintCodes d'
  | Decimal.D9 d' => 57%N :: uintCodes d'
  end.

(** An array index as the template literal prints it. *)
Definition indexToString (n : nat) : jsstring := uintCodes (Nat.to_uint n).

Definition defaultQuestionText (index : nat) : jsstring :=
  str "Question " ++ indexToString (index + 1) ++ str " sans texte".

Definition defaultOptionText : jsstring := str "Option vide".

(** The callback mapped over [q.options]. *)
Definition toOption (opt : JSON) (index : nat) : Eff QuizOption.t :=
  id <- randomUUID ;;
  text <- getProp opt (str "text") ;;
  isCorrect <- getProp opt (str "isCorrect") ;;
  ret (QuizOption.mk id (logicalOr text defaultOptionText) (truthy isCorrect)).

(** The callback mapped over the parsed array. *)
Definition toQuestion (q : JSON) (index : nat) : Eff QuizQuestion.t :=
  id <- randomUUID ;;
  questionText <- getProp q (str "questionText") ;;
  qOptions <- getProp q (str "options") ;;
  options <- match qOptions with
             | Some (JArray opts) => mapIndexed toOption 0 opts
             | _ => ret []
             end ;;
  isMultipleChoice <- getProp q (str "isMultipleChoice") ;;
  ret (QuizQuestion.mk id (logicalOr questionText (defaultQuestionText index))
         options (truthy isMultipleChoice)).

(** The text handed to [JSON.parse]. *)
Definition preprocess (jsonString : jsstring) : jsstring :=
  escapeLatex (stripFence jsonString).

(** [parseGeneratedQuiz]: [None] is [null].  Whatever is thrown in the
    [try] block, by [JSON.parse] or by a callback, ends in the [catch]
    clause, which returns [null]. *)
Definition parseGeneratedQuiz (jsonString : jsstring)
  : Entropy -> option (list QuizQuestion.t) * Entropy := fun e =>
  let processedJsonString := preprocess jsonString in
  match JSONParser.parse processedJsonString with
  | Some (JArray parsed) => mapIndexed toQuestion 0 parsed e
  | Some _ => (None, e)
  | None => (None, e)
  end.

(** The three exported generators, from the response text of the service
    on: what they do with a response that arrived. *)
Definition generateQuiz (responseText : jsstring)
  : Entropy -> option (list QuizQuestion.t) * Entropy :=
  parseGeneratedQuiz responseText.

Definition generateAlternativeQuestion (responseText : jsstring)
  : Entropy -> option QuizQuestion.t * Entropy := fun e =>
  match parseGeneratedQuiz responseText e with
  | (Some (q :: _), e') => (Some q, e')
  | (_, e') => (None, e')
  end.

Definition generateMoreQuestions (responseText : jsstring)
  : Entropy -> option (list QuizQuestion.t) * Entropy :=
  parseGeneratedQuiz responseText.

(** A code fence around [s]: [opening] is the first line. *)
Definition fenced (opening s : jsstring) : jsstring :=
  opening ++ [10%N] ++ s ++ [10%N] ++ backticks.

End Gemini.

(** ** Notions used to state the properties *)

(** How many options are marked correct. *)
Definition correctCount (opts : list QuizOption.t) : nat :=
  length (jsfilter QuizOption.isCorrect opts).

Definition optionIds (opts : list QuizOption.t) : list jsstring :=
  QuizOption.id <$> opts.

(** The options a deletion keeps. *)
Definition keptBy (optionId : jsstring) (opts : list QuizOption.t)
  : list QuizOption.t :=
  filter (fun opt => QuizOption.id opt <> optionId) opts.

(** The invariant of a card whose options carry distinct identifiers. *)
Definition cardInv (c : Card.t) : Prop :=
  2 <= length (QuizQuestion.options (Card.question c)) /\
  2 <= length (Editor.editedOptions (Card.local c)) /\
  NoDup (optionIds (Editor.editedOptions (Card.local c))).

(** ** Concrete quizzes *)

Module Examples.

Definition paris (correct : bool) : QuizOption.t :=
  QuizOption.mk (str "a") (JString (str "Paris")) correct.
Definition rome (correct : bool) : QuizOption.t :=
  QuizOption.mk (str "b") (JString (str "Rome")) correct.
Definition oslo (correct : bool) : QuizOption.t :=
  QuizOption.mk (str "c") (JString (str "Oslo")) correct.
(** An option that shares the identifier of [rome]. *)
Definition bern (correct : bool) : QuizOption.t :=
  QuizOption.mk (str "b") (JString (str "Bern")) correct.

Definition capital : JSON := JString (str "Capital of France?").

(** A single-answer question, and an edit that marks two options. *)
Definition single : QuizQuestion.t :=
  QuizQuestion.mk (str "q1") capital [paris true; rome false] false.
Definition singleEdited : Editor.State :=
  Editor.mkState capital [paris true; rome true].

(** A multi-answer question with a single option marked correct. *)
Definition multi : QuizQuestion.t :=
  QuizQuestion.mk (str "q2") capital [paris true; rome false] true.
Definition multiEdited : Editor.State :=
  Editor.mkState capital [paris true; rome false].

(** Three options, two of them under the same identifier. *)
Definition twins : QuizQuestion.t :=
  QuizQuestion.mk (str "q3") capital [paris true; rome false; bern false]
    false.

(** Three options with distinct identifiers. *)
Definition triple : QuizQuestion.t :=
  QuizQuestion.mk (str "q4") capital [paris true; rome false; oslo false]
    false.

Definition store : App.State :=
  App.mkState None [single; multi] false false None false None.

(** A string between quotation marks. *)
Definition quoted (s : string) : jsstring := [34%N] ++ str s ++ [34%N].

(** A response with one question that has two options:
    [[{"questionText":"Q","options":[{"text":"A","isCorrect":true},{"text":"B"}]}]] *)
Definition twoOptionsText : jsstring :=
  str "[{" ++ quoted "questionText" ++ str ":" ++ quoted "Q" ++ str ","
  ++ quoted "options" ++ str ":[{" ++ quoted "text" ++ str ":" ++ quoted "A"
  ++ str "," ++ quoted "isCorrect" ++ str ":true},{" ++ quoted "text"
  ++ str ":" ++ quoted "B" ++ str "}]}]".

(** The quiz read from that response with the identifiers below. *)
Definition twoOptionsQuiz : list QuizQuestion.t :=
  [QuizQuestion.mk (str "uuid-0") (JString (str "Q"))
     [QuizOption.mk (str "uuid-1") (JString (str "A")) true;
      QuizOption.mk (str "uuid-2") (JString (str "B")) false] false].

(** A source of identifiers: uuid-0, uuid-1, ... *)
Definition entropy : Gemini.Entropy :=
  Gemini.mkEntropy 0 (fun n => str "uuid-" ++ Gemini.indexToString n).

(** A response that is already fenced: three backticks, a line break,
    an empty array, a line break, three backticks. *)
Definition fencedEmptyArray : jsstring :=
  Gemini.fenced (str "```") (str "[]").

End Examples.

(** ** Loops over a character class, without the iteration bound

    What [r*] and [r*?] come to when [r] matches one code unit of a class:
    the continuation is tried after every run of class members the input
    starts with, from the longest run down, or from the empty run up. *)

Fixpoint longestFirst (p : char -> bool) (k : RegExp.cont) (i : nat)
    (s : jsstring) (cap : option jsstring) : option RegExp.mstate :=
  match s with
  | c :: s' =>
      if p c
      then RegExp.orElse (longestFirst p k (S i) s' cap) (k (RegExp.mkM i s cap))
      else k (RegExp.mkM i s cap)
  | [] => k (RegExp.mkM i s cap)
  end.

Fixpoint shortestFirst (p : char -> bool) (k : RegExp.cont) (i : nat)
    (s : jsstring) (cap : option jsstring) : option RegExp.mstate :=
  match s with
  | c :: s' =>
      RegExp.orElse (k (RegExp.mkM i s cap))
        (if p c then shortestFirst p k (S i) s' cap else None)
  | [] => k (RegExp.mkM i s cap)
  end.

(** The number of leading code units of [s] in the class [p]. *)
Fixpoint runLength (p : char -> bool) (s : jsstring) : nat :=
  match s with
  | c :: s' => if p c then S (runLength p s') else 0
  | [] => 0
  end.

(** ** The LaTeX heuristic in the specification's words

    A backslash immediately followed by two or more ASCII letters is
    replaced by a doubled backslash (the letters follow as they are); every
    other code unit is left unchanged. *)

Definition startsWithTwoLetters (s : jsstring) : bool :=
  match s with
  | a :: b :: _ => Gemini.isAsciiLetter a && Gemini.isAsciiLetter b
  | _ => false
  end.

Fixpoint doubleBackslashes (s : jsstring) : jsstring :=
  match s with
  | [] => []
  | c :: s' =>
      if (c =? 92)%N && startsWithTwoLetters s'
      then 92%N :: 92%N :: doubleBackslashes s'
      else c :: doubleBackslashes s'
  end.

(** ** What the parser builds from a JSON value *)

(** The property [name] of a value other than [null]; [None] is
    [undefined]. *)
Definition field (v : JSON) (name : jsstring) : option JSON :=
  match v with
  | JObject members => Gemini.lookupMember name members
  | _ => None
  end.

Definition isNull (v : JSON) : bool :=
  match v with JNull => true | _ => false end.

(** The number of entries of the [options] array of an element, none when
    [options] is missing or not an array. *)
Definition optionCount (j : JSON) : nat :=
  match field j (str "options") with
  | Some (JArray opts) => length opts
  | _ => 0
  end.

(** An element the callbacks cannot read: [null], or an element whose
    [options] array holds a [null]. *)
Definition unreadable (j : JSON) : bool :=
  isNull j ||
  match field j (str "options") with
  | Some (JArray opts) => existsb isNull opts
  | _ => false
  end.

(** [v] is [x || fallback]: [x] when it is truthy, the fallback string
    otherwise. *)
Definition orDefault (x : option JSON) (fallback : jsstring) (v : JSON) : Prop :=
  (forall y, x = Some y -> Gemini.truthy x = true -> v = y) /\
  (Gemini.truthy x = false -> v = JString fallback).

(** The option built from the entry [jo] of an [options] array. *)
Definition optionOf (jo : JSON) (o : QuizOption.t) : Prop :=
  orDefault (field jo (str "text")) (str "Option vide") (QuizOption.text o) /\
  QuizOption.isCorrect o = Gemini.truthy (field jo (str "isCorrect")).

(** The question built from the element [j] at [index] of the array. *)
Definition questionOf (index : nat) (j : JSON) (q : QuizQuestion.t) : Prop :=
  orDefault (field j (str "questionText"))
    (str "Question " ++ Gemini.indexToString (index + 1) ++ str " sans texte")
    (QuizQuestion.questionText q) /\
  QuizQuestion.isMultipleChoice q
    = Gemini.truthy (field j (str "isMultipleChoice")) /\
  match field j (str "options") with
  | Some (JArray opts) => Forall2 optionOf opts (QuizQuestion.options q)
  | _ => QuizQuestion.options q = []
  end.

(** ** Notions used to state the fence property *)

(** [String.prototype.startsWith]. *)
Fixpoint startsWith (w s : jsstring) : bool :=
  match w, s with
  | [], _ => true
  | a :: w', b :: s' => (a =? b)%N && startsWith w' s'
  | _ :: _, [] => false
  end.

(** Only white space. *)
Definition blank (s : jsstring) : Prop :=
  Forall (fun c => isWhiteSpace c = true) s.

(** What the fence pattern requires after group 1: white space, the
    closing fence, the end of the text. *)
Definition closesFence (s : jsstring) : bool :=
  bool_decide (trimStart s = Gemini.backticks).


(** * Further code of the repository *)

(** ** Notions used to state further properties of the store and editor *)

(** The texts of the options, in order. *)
Definition optionTexts (opts : list QuizOption.t) : list JSON :=
  QuizOption.text <$> opts.

(** The correctness flags of the options, in order. *)
Definition optionFlags (opts : list QuizOption.t) : list bool :=
  QuizOption.isCorrect <$> opts.

(** The invariant of a single-answer card that starts with at most one
    option marked correct. *)
Definition radioInv (c : Card.t) : Prop :=
  QuizQuestion.isMultipleChoice (Card.question c) = false /\
  correctCount (QuizQuestion.options (Card.question c)) <= 1 /\
  correctCount (Editor.editedOptions (Card.local c)) <= 1.

(** ** Notions used to state further properties of the parser *)

(** The identifiers of a question: its own, then those of its options. *)
Definition questionIds (q : QuizQuestion.t) : list jsstring :=
  QuizQuestion.id q :: optionIds (QuizQuestion.options q).

(** All identifiers of a quiz, in the order of the list. *)
Definition quizIds (qs : list QuizQuestion.t) : list jsstring :=
  concat (questionIds <$> qs).

(** The next [n] identifiers the source hands out. *)
Definition nextIds (e : Gemini.Entropy) (n : nat) : list jsstring :=
  Gemini.uuids e <$> seq (Gemini.drawn e) n.

(** The source after [n] more draws. *)
Definition afterDraws (e : Gemini.Entropy) (n : nat) : Gemini.Entropy :=
  Gemini.mkEntropy (Gemini.drawn e + n) (Gemini.uuids e).

(** ** Responses with a LaTeX command in a question text *)

(** A code unit a JSON string holds as it is: no control code, no
    quotation mark, no backslash. *)
Definition isPlain (c : char) : bool :=
  (32 <=? c)%N && negb (c =? 34)%N && negb (c =? 92)%N.

Definition plain (s : jsstring) : Prop := Forall (fun c => isPlain c = true) s.

(** The start and the end of a response with one question and its text:
    an opening bracket and brace, the key, a colon, the opening quotation
    mark; then the closing quotation mark, brace and bracket. *)
Definition responseOpening : jsstring :=
  str "[{" ++ Examples.quoted "questionText" ++ str ":" ++ [34%N].

Definition responseClosing : jsstring := [34%N] ++ str "}]".

(** The response whose only question has the string literal [body] as its
    text. *)
Definition questionTextResponse (body : jsstring) : jsstring :=
  responseOpening ++ body ++ responseClosing.

(** The question the parser builds from such a response when it reads the
    text [text]. *)
Definition textOnlyQuestion (e : Gemini.Entropy) (text : jsstring)
  : QuizQuestion.t :=
  QuizQuestion.mk (Gemini.uuids e (Gemini.drawn e)) (JString text) [] false.

(** What was read, with [p] in front. *)
Definition pushAll {A} (p : list A) (r : JSONParser.result (list A))
  : JSONParser.result (list A) :=
  match r with
  | JSONParser.Ok v rest => JSONParser.Ok (p ++ v) rest
  | JSONParser.SyntaxError => JSONParser.SyntaxError
  | JSONParser.OutOfFuel => JSONParser.OutOfFuel
  end.


(** ** The paged display of the quiz (components/QuizDisplay.tsx)

    The page shown and the page size are numbers; the positions they are
    turned into and the quiz length are integers far below 2^53, on which
    the arithmetic of the component is exact, so they are modelled in [Z]. *)

Module QuizDisplay.

(** [Array.prototype.slice]: a negative bound counts from the end, and both
    bounds are clamped to the array. *)
Definition slice {A} (l : list A) (start stop : Z) : list A :=
  let len := Z.of_nat (length l) in
  let k := if (start <? 0)%Z then Z.max (len + start) 0 else Z.min start len in
  let final := if (stop <? 0)%Z then Z.max (len + stop) 0 else Z.min stop len in
  take (Z.to_nat (final - k)) (drop (Z.to_nat k) l).

(** [Math.ceil(n / p)] for an array length [n] and a page size [p]: the
    least integer not below the quotient. *)
Definition ceilDiv (n p : Z) : Z := (- ((- n) / p))%Z.

(** The [useState] cells of the component.  The page size starts at
    [INITIAL_QUESTIONS_PER_PAGE], a constant defined outside the component;
    the properties below take it as any positive number. *)
Record State := mkState { currentPage : Z; questionsPerPage : Z }.

Definition totalPages (quiz : list QuizQuestion.t) (st : State) : Z :=
  ceilDiv (Z.of_nat (length quiz)) (questionsPerPage st).

Definition indexOfLastQuestion (st : State) : Z :=
  (currentPage st * questionsPerPage st)%Z.

Definition indexOfFirstQuestion (st : State) : Z :=
  (indexOfLastQuestion st - questionsPerPage st)%Z.

Definition currentQuestions (quiz : list QuizQuestion.t) (st : State)
  : list QuizQuestion.t :=
  slice quiz (indexOfFirstQuestion st) (indexOfLastQuestion st).

(** The number shown beside the question at [index] of the page. *)
Definition questionNumber (st : State) (index : nat) : Z :=
  (indexOfFirstQuestion st + Z.of_nat index + 1)%Z.

Definition handleNextPage (quiz : list QuizQuestion.t) (st : State) : State :=
  if (currentPage st <? totalPages quiz st)%Z
  then mkState (currentPage st + 1) (questionsPerPage st)
  else st.

Definition handlePrevPage (st : State) : State :=
  if (1 <? currentPage st)%Z
  then mkState (currentPage st - 1) (questionsPerPage st)
  else st.

(** [value] is the number the chosen entry of the selector stands for. *)
Definition handleQuestionsPerPageChange (value : Z) (st : State) : State :=
  mkState (currentPage st) value.

(** The effect that depends on the page size: it runs after a render in
    which the page size differs from the one before. *)
Definition pageSizeEffect (before after : State) : State :=
  if (questionsPerPage before =? questionsPerPage after)%Z then after
  else mkState 1 (questionsPerPage after).

(** What the user can do with the controls under a quiz. *)
Inductive Event := NextPage | PrevPage | PerPage (value : Z).

Definition step (quiz : list QuizQuestion.t) (st : State) (ev : Event)
  : State :=
  match ev with
  | NextPage => handleNextPage quiz st
  | PrevPage => handlePrevPage st
  | PerPage value =>
      pageSizeEffect st (handleQuestionsPerPageChange value st)
  end.

Definition run (quiz : list QuizQuestion.t) (evs : list Event) (st : State)
  : State :=
  fold_left (step quiz) evs st.

(** The page sizes chosen are positive (the selector offers 5, 10, 20 and
    50). *)
Definition positiveSizes (evs : list Event) : Prop :=
  Forall (fun ev => match ev with
                    | PerPage value => (0 < value)%Z
                    | _ => True
                    end) evs.

(** The pages of a quiz, first to last. *)
Definition pages (quiz : list QuizQuestion.t) (perPage : Z)
  : list (list QuizQuestion.t) :=
  (fun n => currentQuestions quiz (mkState (Z.of_nat n) perPage))
    <$> seq 1 (Z.to_nat (totalPages quiz (mkState 1 perPage))).

End QuizDisplay.

(** The page shown is one of the pages. *)
Definition pageInv (quiz : list QuizQuestion.t) (st : QuizDisplay.State) : Prop :=
  (0 < QuizDisplay.questionsPerPage st)%Z /\
  (1 <= QuizDisplay.currentPage st <= QuizDisplay.totalPages quiz st)%Z.

(** ** The file selection of the form (QuizForm)

    Of a [File] the handlers read the name and the size in bytes. *)

Module QuizForm.

Record File := mkFile { name : jsstring; size : Z }.

Definition MAX_FILES : nat := 5.
Definition MAX_FILE_SIZE_MB : Z := 5.

Inductive Alert :=
| AlertTooManyFiles                      (* Vous ne pouvez telecharger qu'un maximum de 5 fichiers. *)
| AlertFileTooLarge (fileName : jsstring). (* Le fichier ... depasse la taille maximale autorisee de 5MB. *)

(** The variables of [handleFileChange] its loop updates, and the alerts
    raised so far. *)
Record Loop := mkLoop {
  validFiles : list File;
  alertShown : bool;
  alerts : list Alert
}.

Definition alertOnce (a : Alert) (l : Loop) : Loop :=
  if alertShown l then l
  else mkLoop (validFiles l) true (alerts l ++ [a]).

(** The body of the loop over the files chosen. *)
Definition visit (selectedFiles : list File) (l : Loop) (file : File) : Loop :=
  if (MAX_FILES <=? length selectedFiles + length (validFiles l))%nat
  then alertOnce AlertTooManyFiles l
  else if (MAX_FILE_SIZE_MB * 1024 * 1024 <? size file)%Z
  then alertOnce (AlertFileTooLarge (name file)) l
  else mkLoop (validFiles l ++ [file]) (alertShown l) (alerts l).

(** [handleFileChange]: the files selected afterwards and the alerts
    raised.  [files] is [event.target.files].  The state updater runs on
    the selection the handler has read, no other update being queued
    between the two. *)
Definition handleFileChange (files : option (list File))
    (selectedFiles : list File) : list File * list Alert :=
  match files with
  | Some newFiles =>
      let l := fold_left (visit selectedFiles) newFiles (mkLoop [] false []) in
      (take MAX_FILES (selectedFiles ++ validFiles l), alerts l)
  | None => (selectedFiles, [])
  end.

Definition handleRemoveFile (fileName : jsstring) (prevFiles : list File)
  : list File :=
  jsfilter (fun file => negb (id_eqb (name file) fileName)) prevFiles.

(** What the user can do with the file list. *)
Inductive Event :=
| Choose (files : option (list File))
| Remove (fileName : jsstring).

Definition step (selectedFiles : list File) (ev : Event) : list File :=
  match ev with
  | Choose files => fst (handleFileChange files selectedFiles)
  | Remove fileName => handleRemoveFile fileName selectedFiles
  end.

Definition run (evs : list Event) (selectedFiles : list File) : list File :=
  fold_left step evs selectedFiles.

(** A file within the size limit. *)
Definition withinLimit (file : File) : bool :=
  (size file <=? 5 * 1024 * 1024)%Z.

End QuizForm.

(** At most one alert, and the flag tells whether it was raised. *)
Definition alertInv (l : QuizForm.Loop) : Prop :=
  (QuizForm.alertShown l = false /\ QuizForm.alerts l = []) \/
  (QuizForm.alertShown l = true /\ length (QuizForm.alerts l) = 1).

(** What a selection within the limits looks like. *)
Definition selectionInv (selectedFiles : list QuizForm.File) : Prop :=
  length selectedFiles <= QuizForm.MAX_FILES /\
  Forall (fun file => QuizForm.withinLimit file = true) selectedFiles.

(** ** Generating a quiz (App.handleGenerateQuiz)

    The grounding chunks the handler also stores are shown under the quiz
    and take no part in what follows; that cell is left out. *)

Module Generate.
Import App.

Definition setIsLoading (b : bool) (st : State) : State :=
  mkState (quizSettings st) (editableQuiz st) b (isAddingMoreQuestions st)
    (error st) (isQuizValidated st) (regeneratingQuestionId st).

(** [handleGenerateQuiz] up to its [await]. *)
Definition generateRequest (settings : QuizSettings) (st : State) : State :=
  setIsAddingMoreQuestions false
    (setRegeneratingQuestionId None
       (setIsQuizValidated false
          (setQuizSettings (fun _ => Some settings)
             (setEditableQuiz (fun _ => [])
                (setError None (setIsLoading true st)))))).

(** The rest of the handler, run on the state the component has when the
    service answers with the questions, with [null], or by throwing.
    [ErrThrown message] stands for the text shown then: the message
    thrown, or the default text when that message is empty. *)
Definition generateReply (reply : Reply (option (list QuizQuestion.t)))
    (st : State) : State :=
  setIsLoading false
    match reply with
    | Resolved (Some ((_ :: _) as generatedQuestions)) =>
        setEditableQuiz (fun _ => generatedQuestions) st
    | Resolved _ => setError (Some ErrNoQuestions) st
    | Rejected message => setError (Some (ErrThrown message)) st
    end.

Definition handleGenerateQuiz (settings : QuizSettings)
    (reply : Reply (option (list QuizQuestion.t))) (st : State) : State :=
  generateReply reply (generateRequest settings st).

End Generate.

(** ** The name of the downloaded file (App.handleDownloadTxt) *)

Module Download.

(** The pattern [\s+] with the g flag. *)
Definition whiteSpaceRuns : RegExp.pattern :=
  RegExp.Seq (RegExp.Class isWhiteSpace) (RegExp.Star (RegExp.Class isWhiteSpace)).

Definition noFlags : RegExp.flags :=
  {| RegExp.ignoreCase := false; RegExp.dotAll := false |}.

Definition underscore : list RegExp.piece := [RegExp.Literal 95%N].

(** [quizSettings?.quizName?.replace(...) || 'QCM_genere'] *)
Definition fileName (quizSettings : option QuizSettings) : jsstring :=
  match quizSettings with
  | Some settings =>
      match RegExp.replaceAll noFlags whiteSpaceRuns underscore
              (quizName settings) with
      | [] => str "QCM_genere"
      | replaced => replaced
      end
  | None => str "QCM_genere"
  end.

(** [handleDownloadTxt]: the [download] attribute of the link it clicks,
    or [None] when it raises its alert and downloads nothing.  The text
    put in the file is not modelled. *)
Definition handleDownloadTxt (st : App.State) : option jsstring :=
  if negb (App.isQuizValidated st) then None
  else Some (fileName (App.quizSettings st) ++ str ".txt").

(** A string in which each maximal run of white space is replaced by one
    underscore; [inRun] tells that the code unit before was white space. *)
Fixpoint underscored (inRun : bool) (s : jsstring) : jsstring :=
  match s with
  | [] => []
  | c :: s' =>
      if isWhiteSpace c
      then (if inRun then underscored true s' else 95%N :: underscored true s')
      else c :: underscored false s'
  end.

Definition spaceless (s : jsstring) : Prop :=
  Forall (fun c => isWhiteSpace c = false) s.

End Download.

(** ** What is sent to the model (services/geminiService.ts) *)

Module Content.

Inductive OriginalType := txt | pdf | image | unknown.

Record ProcessedFile := mkProcessedFile {
  name : jsstring;
  type : jsstring;
  originalType : OriginalType;
  content : jsstring
}.

Inductive Part :=
| Text (text : jsstring)
| InlineData (mimeType data : jsstring).

(** The two shapes of the result: the parts, or the prompt on its own. *)
Inductive Contents :=
| Parts (parts : list Part)
| Prompt (text : jsstring).

Definition isImage (t : OriginalType) : bool :=
  match t with image => true | _ => false end.

Definition nonEmpty (s : jsstring) : bool :=
  match s with [] => false | _ => true end.

(** The body of the loop of [buildContentParts], on the pair of
    [contentParts] and [hasImageFiles]. *)
Definition addImage (acc : list Part * bool) (file : ProcessedFile)
  : list Part * bool :=
  if isImage (originalType file) && nonEmpty (content file)
  then (fst acc ++ [InlineData (type file) (content file)], true)
  else acc.

Definition buildContentParts (basePrompt : jsstring)
    (processedFiles : option (list ProcessedFile)) : Contents :=
  let acc :=
    match processedFiles with
    | Some files => fold_left addImage files ([Text basePrompt], false)
    | None => ([Text basePrompt], false)
    end in
  if snd acc then Parts (fst acc) else Prompt basePrompt.

(** The images that are sent. *)
Definition sentImages (files : list ProcessedFile) : list Part :=
  (fun file => InlineData (type file) (content file))
    <$> jsfilter (fun file => isImage (originalType file)
                               && nonEmpty (content file)) files.

End Content.

(** ** Further examples *)

Module MoreExamples.

Definition five : Z := 5.

Definition quizOfThree : list QuizQuestion.t :=
  [Examples.single; Examples.multi; Examples.triple].

Definition notes : QuizForm.File := QuizForm.mkFile (str "notes.txt") 1200.
Definition scan : QuizForm.File := QuizForm.mkFile (str "scan.pdf") 6000000.

Definition settings : QuizSettings :=
  {| quizName := str "Les  fractions"; gradeLevel := str "6e";
     subject := str "Maths"; userPrompt := str "fractions";
     numQuestions := 10; multipleChoicePercentage := 30 |}.

Definition validated : App.State :=
  App.mkState (Some settings) [Examples.multi] false false None true None.

Definition photo : Content.ProcessedFile :=
  Content.mkProcessedFile (str "photo.png") (str "image/png") Content.image
    (str "iVBORw0KGgo=").

Definition lesson : Content.ProcessedFile :=
  Content.mkProcessedFile (str "cours.txt") (str "text/plain") Content.txt
    (str "Les fractions").

Definition slides : QuizForm.File := QuizForm.mkFile (str "slides.pdf") 3000.

(** A source of identifiers that never repeats one: a, aa, aaa, ... *)
Definition unary : Gemini.Entropy :=
  Gemini.mkEntropy 0 (fun n => replicate (S n) 97%N).

(** A quiz read from a response, and the questions read from a second
    response with the source the first one left. *)
Definition firstParse : option (list QuizQuestion.t) * Gemini.Entropy :=
  Gemini.generateQuiz Examples.twoOptionsText unary.
Definition firstQuiz : list QuizQuestion.t := default [] (fst firstParse).
Definition laterParse : option (list QuizQuestion.t) * Gemini.Entropy :=
  Gemini.generateMoreQuestions Examples.twoOptionsText (snd firstParse).
Definition laterQuestions : list QuizQuestion.t :=
  default [] (fst laterParse).

Definition generated : App.State :=
  App.mkState (Some settings) firstQuiz false false None false None.

(** Another version of the first question of the example store. *)
Definition renamed : QuizQuestion.t :=
  QuizQuestion.mk (str "q1") Examples.capital [] true.

(** What a save of [Examples.singleEdited] leaves in the editor and hands
    to the store. *)
Definition singleSaved : Editor.State :=
  Editor.mkState Examples.capital [Examples.paris true; Examples.rome false].
Definition singleCommitted : QuizQuestion.t :=
  QuizQuestion.mk (str "q1") Examples.capital
    [Examples.paris true; Examples.rome false] false.

(** An editor in which the second option is not marked. *)
Definition unmarked : Editor.State :=
  Editor.mkState Examples.capital [Examples.paris true; Examples.rome false].

(** Page 2 of a display with two questions per page. *)
Definition secondPage : QuizDisplay.State := QuizDisplay.mkState 2 2.

End MoreExamples.
(** * Properties *)

(** ** The quiz state store *)

Section StoreFacts.
Import App.

Lemma findIndex_Some {A} (P : A -> bool) (l : list A) (i : nat) :
  findIndex P l = Some i <->
  exists x, l !! i = Some x /\ P x = true /\
            forall j y, l !! j = Some y -> j < i -> P y = false.
Proof.
  unfold findIndex. split.
  - destruct (list_find _ l) as [[j x]|] eqn:E; [|discriminate].
    intros [= <-]. apply list_find_Some in E as (Hx & HP & Hmin).
    exists x. repeat split; auto.
    intros k y Hy Hk. specialize (Hmin k y Hy Hk).
    now destruct (P y).
  - intros (x & Hx & HP & Hmin).
    assert (list_find (fun x => P x = true) l = Some (i, x)) as ->; [|done].
    apply list_find_Some. repeat split; auto.
    intros k y Hy Hk. rewrite (Hmin k y Hy Hk). discriminate.
Qed.

Lemma findIndex_None {A} (P : A -> bool) (l : list A) :
  findIndex P l = None <-> forall x, x ∈ l -> P x = false.
Proof.
  unfold findIndex. split.
  - destruct (list_find _ l) as [[j x]|] eqn:E; [discriminate|].
    intros _ x Hx. apply list_find_None in E.
    rewrite Forall_forall in E. specialize (E x Hx). now destruct (P x).
  - intros H.
    assert (list_find (fun x => P x = true) l = None) as ->; [|done].
    apply list_find_None, Forall_forall. intros x Hx.
    rewrite (H x Hx). discriminate.
Qed.

Lemma questionHasId_true qid q :
  questionHasId qid q = true <-> QuizQuestion.id q = qid.
Proof. unfold questionHasId, id_eqb. apply bool_decide_eq_true. Qed.

Lemma questionHasId_false qid q :
  questionHasId qid q = false <-> QuizQuestion.id q <> qid.
Proof. unfold questionHasId, id_eqb. apply bool_decide_eq_false. Qed.

Lemma splice_insert_lookup {A} (l : list A) (n : nat) (x : A) :
  n <= length l ->
  length (splice l n 0 [x]) = S (length l) /\
  splice l n 0 [x] !! n = Some x /\
  (forall j, j < n -> splice l n 0 [x] !! j = l !! j) /\
  (forall j, n <= j -> splice l n 0 [x] !! S j = l !! j).
Proof.
  intros Hn. unfold splice. rewrite Nat.add_0_r.
  assert (Hlen : length (take n l) = n) by (rewrite length_take; lia).
  repeat split.
  - rewrite !length_app, Hlen, length_drop. simpl. lia.
  - rewrite lookup_app_r by lia. rewrite Hlen, Nat.sub_diag. done.
  - intros j Hj. rewrite lookup_app_l by lia. now apply lookup_take_lt.
  - intros j Hj. rewrite lookup_app_r by lia. rewrite Hlen.
    replace (S j - n) with (S (j - n)) by lia. simpl.
    rewrite lookup_drop. f_equal. lia.
Qed.

End StoreFacts.

(** C8. The update operation of the store keeps the length of the quiz
    list; in a validated quiz it changes nothing at all; otherwise, index
    by index, a question whose id is the updated question's id is replaced
    by the updated question and any other question stays where and what it
    was.  No other cell of the state is touched. *)
Theorem handleUpdateQuestion_frame
    (updatedQuestion : QuizQuestion.t) (st : App.State) :
  let st' := App.handleUpdateQuestion updatedQuestion st in
  length (App.editableQuiz st') = length (App.editableQuiz st) /\
  (App.isQuizValidated st = true -> st' = st) /\
  (App.isQuizValidated st = false ->
   forall i q, App.editableQuiz st !! i = Some q ->
     (QuizQuestion.id q = QuizQuestion.id updatedQuestion ->
      App.editableQuiz st' !! i = Some updatedQuestion) /\
     (QuizQuestion.id q <> QuizQuestion.id updatedQuestion ->
      App.editableQuiz st' !! i = Some q)) /\
  App.quizSettings st' = App.quizSettings st /\
  App.isQuizValidated st' = App.isQuizValidated st /\
  App.error st' = App.error st.
Proof.
  unfold App.handleUpdateQuestion.
  destruct (App.isQuizValidated st) eqn:Hv; simpl.
  - repeat split; auto; discriminate.
  - rewrite length_fmap. split; [done|]. split; [discriminate|].
    split; [|done]. intros _ i q Hq. rewrite list_lookup_fmap, Hq. simpl.
    split; intros Hid.
    + apply questionHasId_true in Hid. now rewrite Hid.
    + apply questionHasId_false in Hid. now rewrite Hid.
Qed.

(** C7. The insert-after operation run when a regenerated alternative
    arrives.  If the regenerated question [q] -- the first question of the
    list carrying the requested id -- sits at index [i], the new question
    lands at index [i+1], [q] stays at [i], the questions before [i] keep
    their index and those after [i] move one index further.  If no question
    carries the id any more, the list is left as it is. *)
Theorem regenerate_inserts_after
    (originalQuestionId : jsstring) (newQuestion : QuizQuestion.t)
    (st : App.State) :
  let st' := App.regenerateReply originalQuestionId
               (App.Resolved (Some newQuestion)) st in
  (forall i q,
     App.editableQuiz st !! i = Some q ->
     QuizQuestion.id q = originalQuestionId ->
     (forall j q', j < i -> App.editableQuiz st !! j = Some q' ->
                   QuizQuestion.id q' <> originalQuestionId) ->
     App.editableQuiz st' !! (i + 1) = Some newQuestion /\
     App.editableQuiz st' !! i = Some q /\
     (forall j, j < i -> App.editableQuiz st' !! j = App.editableQuiz st !! j) /\
     (forall j, i < j ->
        App.editableQuiz st' !! (j + 1) = App.editableQuiz st !! j) /\
     length (App.editableQuiz st') = length (App.editableQuiz st) + 1) /\
  ((forall q, q ∈ App.editableQuiz st ->
              QuizQuestion.id q <> originalQuestionId) ->
   App.editableQuiz st' = App.editableQuiz st).
Proof.
  simpl. unfold App.insertAfter. split.
  - intros i q Hq Hid Hfirst.
    assert (Hfind : findIndex (App.questionHasId originalQuestionId)
                      (App.editableQuiz st) = Some i).
    { apply findIndex_Some. exists q. repeat split; auto.
      - now apply questionHasId_true.
      - intros j y Hy Hj. apply questionHasId_false. eauto. }
    rewrite Hfind.
    assert (Hlt : i < length (App.editableQuiz st)) by (eapply lookup_lt_Some; eauto).
    destruct (splice_insert_lookup (App.editableQuiz st) (i + 1) newQuestion)
      as (Hlen & Hnew & Hbefore & Hafter); [lia|].
    repeat split.
    + exact Hnew.
    + rewrite Hbefore by lia. exact Hq.
    + intros j Hj. apply Hbefore. lia.
    + intros j Hj. replace (j + 1) with (S j) by lia. apply Hafter. lia.
    + lia.
  - intros Habsent.
    assert (Hfind : findIndex (App.questionHasId originalQuestionId)
                      (App.editableQuiz st) = None).
    { apply findIndex_None. intros q Hq. apply questionHasId_false. auto. }
    now rewrite Hfind.
Qed.

(** C10. Validation succeeds (no alert, the flag is set) exactly when the
    quiz list is not empty and every question has an option marked
    correct.  A failed validation leaves the whole state as it was.  A
    successful one sets the validated flag and keeps the list, and in the
    state it produces update, delete, regeneration and batch addition do
    nothing: the state stays the same and no request is sent. *)
Theorem handleValidateQuiz_spec (st : App.State) :
  let st' := fst (App.handleValidateQuiz st) in
  let alert := snd (App.handleValidateQuiz st) in
  (alert = None <->
   App.editableQuiz st <> [] /\
   forall q, q ∈ App.editableQuiz st ->
     exists opt, opt ∈ QuizQuestion.options q /\ QuizOption.isCorrect opt = true) /\
  (alert <> None -> st' = st) /\
  (alert = None ->
   App.isQuizValidated st' = true /\
   App.editableQuiz st' = App.editableQuiz st /\
   (forall u, App.handleUpdateQuestion u st' = st') /\
   (forall qid, App.handleDeleteQuestion qid st' = st') /\
   (forall qid, App.regenerateRequest qid st' = (st', None)) /\
   fst (fst (App.addMoreRequest st')) = st' /\
   snd (App.addMoreRequest st') = None).
Proof.
  unfold App.handleValidateQuiz.
  destruct (App.editableQuiz st) as [|q0 qs] eqn:Hquiz.
  { cbn. split; [split; [discriminate | intros [H _]; now contradiction H]|].
    split; [done | discriminate]. }
  cbv beta iota zeta.
  remember (q0 :: qs) as quiz eqn:Hcons.
  assert (Hne : quiz <> []) by (subst; discriminate).
  destruct (forallb _ quiz) eqn:Hall; cbn [negb fst snd].
  - split; [split; [intros _; split; [done|] | done] |].
    + intros q Hq. rewrite forallb_forall in Hall.
      apply list_elem_of_In in Hq. specialize (Hall q Hq).
      apply existsb_exists in Hall as (opt & Hopt & Hc).
      exists opt. split; auto. now apply list_elem_of_In.
    + split; [done|]. intros _.
      unfold App.handleUpdateQuestion, App.handleDeleteQuestion,
        App.regenerateRequest, App.addMoreRequest. cbn.
      repeat split; now destruct (App.quizSettings st).
  - split; [split; [discriminate|] |].
    + intros [_ H]. exfalso.
      assert (forallb (fun q => existsb QuizOption.isCorrect (QuizQuestion.options q))
                quiz = true); [|congruence].
      apply forallb_forall. intros q Hq. apply list_elem_of_In in Hq.
      destruct (H q Hq) as (opt & Hopt & Hc).
      apply existsb_exists. exists opt. split; auto. now apply list_elem_of_In.
    + split; [done | discriminate].
Qed.

(** ** The question editor *)

Section EditorFacts.
Import Editor.


Lemma correctCount_cons opt opts :
  correctCount (opt :: opts) =
  (if QuizOption.isCorrect opt then 1 else 0) + correctCount opts.
Proof.
  unfold correctCount, jsfilter.
  destruct (QuizOption.isCorrect opt) eqn:E.
  - now rewrite filter_cons_True.
  - rewrite filter_cons_False; [done | congruence].
Qed.

Lemma correctCount_app l1 l2 :
  correctCount (l1 ++ l2) = correctCount l1 + correctCount l2.
Proof.
  induction l1 as [|o l1 IH]; [done|].
  simpl. rewrite !correctCount_cons, IH. lia.
Qed.

Lemma correctCount_zero l :
  correctCount l = 0 <-> Forall (fun o => QuizOption.isCorrect o = false) l.
Proof.
  induction l as [|o l IH]; [split; constructor|].
  rewrite correctCount_cons, Forall_cons.
  destruct (QuizOption.isCorrect o); split.
  - discriminate.
  - intros [? _]. discriminate.
  - intros H. split; [done | now apply IH].
  - intros [_ H]. now apply IH.
Qed.

Lemma setCorrect_false_id o :
  QuizOption.isCorrect o = false -> setCorrect false o = o.
Proof. destruct o as [i t c]. simpl. now intros ->. Qed.

Lemma fmap_setCorrect_false_id l :
  Forall (fun o => QuizOption.isCorrect o = false) l ->
  setCorrect false <$> l = l.
Proof.
  induction 1 as [|o l Ho _ IH]; [done|].
  rewrite fmap_cons, IH. now rewrite setCorrect_false_id.
Qed.

Lemma correctCount_cleared l : correctCount (setCorrect false <$> l) = 0.
Proof.
  induction l as [|o l IH]; [done|].
  now rewrite fmap_cons, correctCount_cons.
Qed.

(** Once the flag is set, the callback clears every option. *)
Lemma keepFirstCorrect_found l :
  keepFirstCorrect true l = setCorrect false <$> l.
Proof.
  induction l as [|o l IH]; [done|].
  simpl. rewrite IH. destruct (QuizOption.isCorrect o) eqn:E; [done|].
  now rewrite setCorrect_false_id.
Qed.

(** The options up to the first correct one. *)
Lemma first_correct_split l :
  correctCount l <> 0 ->
  exists l1 o l2,
    l = l1 ++ o :: l2 /\
    Forall (fun o => QuizOption.isCorrect o = false) l1 /\
    QuizOption.isCorrect o = true.
Proof.
  induction l as [|o l IH]; [done|].
  rewrite correctCount_cons.
  destruct (QuizOption.isCorrect o) eqn:E.
  - intros _. exists [], o, l. auto.
  - intros H. destruct IH as (l1 & o' & l2 & -> & Hl1 & Ho'); [lia|].
    exists (o :: l1), o', l2. auto.
Qed.

Lemma keepFirstCorrect_split l1 o l2 :
  Forall (fun o => QuizOption.isCorrect o = false) l1 ->
  QuizOption.isCorrect o = true ->
  keepFirstCorrect false (l1 ++ o :: l2) = l1 ++ o :: (setCorrect false <$> l2).
Proof.
  intros Hl1 Ho. induction Hl1 as [|x l1 Hx _ IH]; simpl.
  - now rewrite Ho, keepFirstCorrect_found.
  - now rewrite Hx, IH.
Qed.

(** The shape of what [handleSaveChanges] commits. *)
Lemma handleSaveChanges_committed question st warning st' updated :
  handleSaveChanges question st = SaveCommitted warning st' updated ->
  correctCount (editedOptions st) <> 0 /\
  QuizQuestion.id updated = QuizQuestion.id question /\
  QuizQuestion.isMultipleChoice updated = QuizQuestion.isMultipleChoice question /\
  QuizQuestion.options updated = editedOptions st' /\
  editedQuestionText st' = editedQuestionText st /\
  ((QuizQuestion.isMultipleChoice question = false /\
    1 < correctCount (editedOptions st) /\
    editedOptions st' = keepFirstCorrect false (editedOptions st)) \/
   ((QuizQuestion.isMultipleChoice question = true \/
     correctCount (editedOptions st) = 1) /\
    st' = st)).
Proof.
  unfold handleSaveChanges. fold (correctCount (editedOptions st)).
  destruct (trimsToEmpty _) as [[]|]; try discriminate.
  destruct (someOptionTextEmpty _) as [[]|]; try discriminate.
  destruct (Nat.eqb_spec (correctCount (editedOptions st)) 0); [discriminate|].
  destruct (QuizQuestion.isMultipleChoice question) eqn:Hm; simpl.
  - intros [= <- <- <-]. simpl. repeat split; auto.
  - destruct (Nat.ltb_spec 1 (correctCount (editedOptions st))).
    + intros [= <- <- <-]. simpl. repeat split; auto.
    + intros [= <- <- <-]. simpl. repeat split; auto.
      right. split; [right; lia | done].
Qed.

End EditorFacts.

(** C3. For a single-answer question, a save with no option marked correct
    commits nothing, and whatever [handleSaveChanges] commits has exactly
    one correct option: the committed options are the edited ones in which
    only the first option marked correct, in list order, is still marked
    correct. *)
Theorem single_answer_commit_one_correct
    (question : QuizQuestion.t) (st : Editor.State) :
  QuizQuestion.isMultipleChoice question = false ->
  (correctCount (Editor.editedOptions st) = 0 ->
   forall warning st' updated,
     Editor.handleSaveChanges question st
       <> Editor.SaveCommitted warning st' updated) /\
  (forall warning st' updated,
     Editor.handleSaveChanges question st
       = Editor.SaveCommitted warning st' updated ->
     length (jsfilter QuizOption.isCorrect (QuizQuestion.options updated)) = 1 /\
     exists before first after,
       Editor.editedOptions st = before ++ first :: after /\
       Forall (fun o => QuizOption.isCorrect o = false) before /\
       QuizOption.isCorrect first = true /\
       QuizQuestion.options updated
         = before ++ first :: (Editor.setCorrect false <$> after)).
Proof.
  intros Hsingle. split.
  - intros Hzero warning st' updated Hsave.
    apply handleSaveChanges_committed in Hsave as (Hnz & _). contradiction.
  - intros warning st' updated Hsave.
    apply handleSaveChanges_committed in Hsave
      as (Hnz & _ & _ & Hopts & _ & Hcase).
    destruct (first_correct_split _ Hnz) as (l1 & o & l2 & Hsplit & Hl1 & Ho).
    assert (Hshape : QuizQuestion.options updated
                     = l1 ++ o :: (Editor.setCorrect false <$> l2)).
    { rewrite Hopts.
      destruct Hcase as [(_ & _ & ->) | ([Hm | Hone] & ->)].
      - rewrite Hsplit. now apply keepFirstCorrect_split.
      - congruence.
      - rewrite Hsplit in Hone |- *.
        rewrite correctCount_app, correctCount_cons, Ho in Hone.
        rewrite fmap_setCorrect_false_id; [done|].
        apply correctCount_zero. lia. }
    split.
    + fold (correctCount (QuizQuestion.options updated)). rewrite Hshape.
      rewrite correctCount_app, correctCount_cons, Ho, correctCount_cleared.
      apply correctCount_zero in Hl1. lia.
    + exists l1, o, l2. auto.
Qed.

(** C4 (as the code has it). Whatever [handleSaveChanges] commits for a
    multi-answer question has at least one option marked correct, and its
    options are the edited ones, unchanged. *)
Theorem multi_answer_commit_some_correct
    (question : QuizQuestion.t) (st : Editor.State)
    (warning : option Editor.Alert) (st' : Editor.State)
    (updated : QuizQuestion.t) :
  QuizQuestion.isMultipleChoice question = true ->
  Editor.handleSaveChanges question st
    = Editor.SaveCommitted warning st' updated ->
  1 <= length (jsfilter QuizOption.isCorrect (QuizQuestion.options updated)) /\
  QuizQuestion.options updated = Editor.editedOptions st.
Proof.
  intros Hmulti Hsave.
  apply handleSaveChanges_committed in Hsave
    as (Hnz & _ & _ & Hopts & _ & Hcase).
  destruct Hcase as [(Hm & _) | (_ & ->)]; [congruence|].
  rewrite Hopts. split; [|done]. unfold correctCount in Hnz. lia.
Qed.

Section CardFacts.
Import Editor.
Variable structuredCopy : JSON -> JSON.


Lemma optionIds_length opts : length (optionIds opts) = length opts.
Proof. apply length_fmap. Qed.

Lemma optionIds_fmap (f : QuizOption.t -> QuizOption.t) opts :
  (forall o, QuizOption.id (f o) = QuizOption.id o) ->
  optionIds (f <$> opts) = optionIds opts.
Proof.
  intros Hf. unfold optionIds. rewrite <- list_fmap_compose.
  apply list_fmap_ext. intros i o _. apply Hf.
Qed.

Lemma optionIds_copy opts :
  optionIds (Card.copyOptions structuredCopy opts) = optionIds opts.
Proof. now apply optionIds_fmap. Qed.

Lemma optionIds_insert opts i target b :
  opts !! i = Some target ->
  optionIds (<[i := setCorrect b target]> opts) = optionIds opts.
Proof.
  intros H. unfold optionIds. rewrite list_fmap_insert. simpl.
  apply list_insert_id. now rewrite list_lookup_fmap, H.
Qed.

Lemma optionIds_keepFirstCorrect found opts :
  optionIds (keepFirstCorrect found opts) = optionIds opts.
Proof.
  revert found. induction opts as [|o opts IH]; intros found; [done|].
  simpl. destruct (QuizOption.isCorrect o), found; simpl;
    unfold optionIds in *; rewrite ?fmap_cons, IH; done.
Qed.

Lemma optionIds_correctChange question optionId st :
  optionIds (editedOptions (handleOptionCorrectChange question optionId st))
  = optionIds (editedOptions st).
Proof.
  unfold handleOptionCorrectChange.
  destruct (findIndex _ _) as [i|]; [|done].
  destruct (editedOptions st !! i) as [target|] eqn:Ht; [|done].
  destruct (negb _ && negb _).
  - destruct ((setCorrect false <$> editedOptions st) !! i) as [t'|] eqn:Ht';
      [|done].
    simpl. rewrite (optionIds_insert _ _ _ _ Ht'). now apply optionIds_fmap.
  - rewrite Ht. simpl. now apply optionIds_insert.
Qed.


Lemma jsfilter_keptBy optionId opts :
  jsfilter (fun opt => negb (hasId optionId opt)) opts = keptBy optionId opts.
Proof.
  unfold jsfilter, keptBy. apply list_filter_iff. intros o.
  rewrite negb_true_iff. unfold hasId, id_eqb. apply bool_decide_eq_false.
Qed.

Lemma keptBy_absent optionId opts :
  optionId ∉ optionIds opts -> keptBy optionId opts = opts.
Proof.
  induction opts as [|o opts IH]; [done|].
  unfold optionIds. rewrite fmap_cons, not_elem_of_cons. intros [Hne Hin].
  unfold keptBy. rewrite filter_cons_True by congruence.
  f_equal. now apply IH.
Qed.

Lemma keptBy_ids_subset optionId opts x :
  x ∈ optionIds (keptBy optionId opts) -> x ∈ optionIds opts.
Proof.
  unfold optionIds, keptBy. rewrite !list_elem_of_fmap.
  intros (o & -> & Ho). apply list_elem_of_filter in Ho as [_ Ho]. eauto.
Qed.

Lemma keptBy_NoDup optionId opts :
  NoDup (optionIds opts) -> NoDup (optionIds (keptBy optionId opts)).
Proof.
  induction opts as [|o opts IH]; [done|].
  unfold optionIds at 1. rewrite fmap_cons, NoDup_cons. intros [Hnotin Hnd].
  unfold keptBy. destruct (decide (QuizOption.id o = optionId)) as [Heq|Hne].
  - rewrite filter_cons_False by tauto. now apply IH.
  - rewrite filter_cons_True by done. unfold optionIds.
    rewrite fmap_cons, NoDup_cons. split; [|now apply IH].
    intros Hin. apply Hnotin. eapply keptBy_ids_subset, Hin.
Qed.

(** With distinct identifiers a deletion removes at most one option. *)
Lemma keptBy_length optionId opts :
  NoDup (optionIds opts) -> length opts <= S (length (keptBy optionId opts)).
Proof.
  induction opts as [|o opts IH]; [simpl; lia|].
  unfold optionIds at 1. rewrite fmap_cons, NoDup_cons. intros [Hnotin Hnd].
  unfold keptBy. destruct (decide (QuizOption.id o = optionId)) as [Heq|Hne].
  - rewrite filter_cons_False by tauto. fold (keptBy optionId opts).
    rewrite keptBy_absent by (rewrite <- Heq; exact Hnotin). done.
  - rewrite filter_cons_True by done. simpl.
    specialize (IH Hnd). unfold keptBy in IH. lia.
Qed.


Lemma cardInv_mount q readOnly :
  2 <= length (QuizQuestion.options q) ->
  NoDup (optionIds (QuizQuestion.options q)) ->
  cardInv (Card.mount structuredCopy q readOnly).
Proof.
  intros Hlen Hnd. unfold cardInv, Card.mount, Card.sync. simpl.
  rewrite <- (optionIds_length (Card.copyOptions _ _)), optionIds_copy,
    optionIds_length. auto.
Qed.

Lemma cardInv_of_ids c opts :
  cardInv c ->
  optionIds opts = optionIds (editedOptions (Card.local c)) ->
  2 <= length opts /\ NoDup (optionIds opts).
Proof.
  intros (_ & Hlen & Hnd) Hids. rewrite Hids. split; [|done].
  rewrite <- (optionIds_length opts), Hids, optionIds_length. done.
Qed.

Lemma cardInv_step op c :
  cardInv c -> cardInv (Card.step structuredCopy op c).
Proof.
  intros Hinv. pose proof Hinv as (Hq & Hlen & Hnd).
  destruct op as [value | optionId newText | optionId | optionId |];
    unfold Card.step.
  - destruct (Card.isReadOnly c); [done|]. done.
  - destruct (Card.isReadOnly c); [done|].
    split; [done|]. simpl. apply (cardInv_of_ids c); [done|].
    apply optionIds_fmap. intros o. now destruct (hasId optionId o).
  - destruct (Card.isReadOnly c); [done|].
    split; [done|]. simpl. apply (cardInv_of_ids c); [done|].
    apply optionIds_correctChange.
  - destruct (Card.isReadOnly c); [done|].
    split; [done|]. simpl. unfold deleteOption.
    destruct (Nat.leb_spec (length (editedOptions (Card.local c))) 2);
      simpl; [done|].
    rewrite jsfilter_keptBy. split; [|now apply keptBy_NoDup].
    pose proof (keptBy_length optionId _ Hnd). lia.
  - destruct (handleSaveChanges _ _) as [| |warning st' updated] eqn:Hsave;
      [done|done|].
    apply handleSaveChanges_committed in Hsave
      as (_ & _ & _ & Hopts & _ & Hcase).
    assert (Hids : optionIds (editedOptions st')
                   = optionIds (editedOptions (Card.local c))).
    { destruct Hcase as [(_ & _ & ->) | (_ & ->)]; [|done].
      apply optionIds_keepFirstCorrect. }
    destruct (cardInv_of_ids c _ Hinv Hids) as [Hlen' Hnd'].
    destruct (Card.isReadOnly c).
    + split; [done|]. simpl. done.
    + unfold cardInv, Card.sync. simpl. rewrite Hopts.
      split; [done|].
      rewrite <- (optionIds_length (Card.copyOptions _ _)), optionIds_copy,
        optionIds_length. done.
Qed.

Lemma cardInv_run ops c :
  cardInv c -> cardInv (Card.run structuredCopy ops c).
Proof.
  unfold Card.run. revert c.
  induction ops as [|op ops IH]; intros c Hinv; [done|].
  simpl. apply IH. now apply cardInv_step.
Qed.

End CardFacts.

(** C5 (as the code has it).  [deleteOption] leaves a list of two or fewer
    options unchanged and otherwise removes exactly the options with the
    given id, keeping the order of the others.  A question whose options
    carry pairwise distinct ids and number at least two keeps at least two
    options, in the store and in the editor, through every sequence of
    editing operations. *)
Theorem deleteOption_keeps_two_options :
  (forall optionId st,
     (length (Editor.editedOptions st) <= 2 ->
      fst (Editor.deleteOption optionId st) = st) /\
     (2 < length (Editor.editedOptions st) ->
      Editor.editedOptions (fst (Editor.deleteOption optionId st))
        = filter (fun opt => QuizOption.id opt <> optionId)
            (Editor.editedOptions st) /\
      Editor.editedQuestionText (fst (Editor.deleteOption optionId st))
        = Editor.editedQuestionText st)) /\
  (forall structuredCopy q readOnly ops,
     2 <= length (QuizQuestion.options q) ->
     NoDup (QuizOption.id <$> QuizQuestion.options q) ->
     let c := Card.run structuredCopy ops (Card.mount structuredCopy q readOnly) in
     2 <= length (QuizQuestion.options (Card.question c)) /\
     2 <= length (Editor.editedOptions (Card.local c))).
Proof.
  split.
  - intros optionId st. unfold Editor.deleteOption.
    destruct (Nat.leb_spec (length (Editor.editedOptions st)) 2); simpl.
    + split; [done | lia].
    + split; [lia|]. intros _. split; [|done]. apply jsfilter_keptBy.
  - intros structuredCopy q readOnly ops Hlen Hnd c.
    destruct (cardInv_run structuredCopy ops
                (Card.mount structuredCopy q readOnly)) as (H1 & H2 & _);
      [now apply cardInv_mount | done].
Qed.


(** Witness of C3: two options marked, the second mark is dropped. *)
Lemma single_answer_commit_one_correct_witness :
  QuizQuestion.isMultipleChoice Examples.single = false /\
  Editor.handleSaveChanges Examples.single Examples.singleEdited
    = Editor.SaveCommitted (Some Editor.AlertSingleChoice)
        (Editor.mkState Examples.capital
           [Examples.paris true; Examples.rome false])
        (QuizQuestion.mk (str "q1") Examples.capital
           [Examples.paris true; Examples.rome false] false) /\
  length (jsfilter QuizOption.isCorrect
            [Examples.paris true; Examples.rome false]) = 1.
Proof.
  split; [reflexivity|]. split; [reflexivity|].
  exact (proj1 (proj2 (single_answer_commit_one_correct
                         Examples.single Examples.singleEdited eq_refl)
                  _ _ _ eq_refl)).
Defined.

(** C4 fails on the code: a multi-answer question is committed with a
    single option marked correct. *)
Lemma multi_answer_commit_single_correct :
  QuizQuestion.isMultipleChoice Examples.multi = true /\
  Editor.handleSaveChanges Examples.multi Examples.multiEdited
    = Editor.SaveCommitted None Examples.multiEdited Examples.multi /\
  length (jsfilter QuizOption.isCorrect
            (QuizQuestion.options Examples.multi)) = 1.
Proof. repeat split. Qed.

(** Witness of C4 as amended. *)
Lemma multi_answer_commit_some_correct_witness :
  1 <= length (jsfilter QuizOption.isCorrect
                 (QuizQuestion.options Examples.multi)) /\
  QuizQuestion.options Examples.multi
    = Editor.editedOptions Examples.multiEdited.
Proof.
  exact (multi_answer_commit_some_correct Examples.multi Examples.multiEdited
           None Examples.multiEdited Examples.multi eq_refl eq_refl).
Defined.

(** C5 fails on the code: with two options under one identifier, one
    deletion takes a three-option question down to one option, in the
    editor and, after a save, in the store. *)
Lemma deleteOption_below_two :
  length (QuizQuestion.options Examples.twins) = 3 /\
  length (Editor.editedOptions
            (fst (Editor.deleteOption (str "b")
                    (Card.sync (fun v => v) Examples.twins)))) = 1 /\
  length (QuizQuestion.options
            (Card.question
               (Card.run (fun v => v)
                  [Card.DeleteOption (str "b"); Card.SaveChanges]
                  (Card.mount (fun v => v) Examples.twins false)))) = 1.
Proof. repeat split. Qed.

(** Witness of C5 as amended: two deletions, the second one refused. *)
Lemma deleteOption_keeps_two_options_witness :
  2 <= length (QuizQuestion.options Examples.triple) /\
  NoDup (QuizOption.id <$> QuizQuestion.options Examples.triple) /\
  2 <= length (QuizQuestion.options
                 (Card.question
                    (Card.run (fun v => v)
                       [Card.DeleteOption (str "b");
                        Card.DeleteOption (str "c"); Card.SaveChanges]
                       (Card.mount (fun v => v) Examples.triple false)))).
Proof.
  assert (Hlen : 2 <= length (QuizQuestion.options Examples.triple))
    by (simpl; lia).
  assert (Hnd : NoDup (QuizOption.id <$> QuizQuestion.options Examples.triple)).
  { apply (bool_decide_unpack _). vm_compute. exact I. }
  split; [exact Hlen|]. split; [exact Hnd|].
  exact (proj1 (proj2 deleteOption_keeps_two_options (fun v => v)
                  Examples.triple false
                  [Card.DeleteOption (str "b"); Card.DeleteOption (str "c");
                   Card.SaveChanges] Hlen Hnd)).
Defined.

(** Witness of C7: the alternative to the first question of a two-question
    quiz lands between the two. *)
Lemma regenerate_inserts_after_witness :
  App.editableQuiz
    (App.regenerateReply (str "q1") (App.Resolved (Some Examples.triple))
       Examples.store) !! 1 = Some Examples.triple.
Proof.
  refine (proj1 (proj1 (regenerate_inserts_after (str "q1") Examples.triple
                          Examples.store) 0 Examples.single eq_refl eq_refl _)).
  intros j q' Hj. lia.
Defined.

(** Witness of C8: updating the second question of the store. *)
Lemma handleUpdateQuestion_frame_witness :
  App.editableQuiz
    (App.handleUpdateQuestion
       (QuizQuestion.mk (str "q2") Examples.capital [] true) Examples.store)
    !! 0 = Some Examples.single.
Proof.
  refine (proj2 (proj1 (proj2 (proj2 (handleUpdateQuestion_frame
            (QuizQuestion.mk (str "q2") Examples.capital [] true)
            Examples.store))) eq_refl 0 Examples.single eq_refl) _).
  vm_compute. discriminate.
Defined.

(** Witness of C10: the example store validates. *)
Lemma handleValidateQuiz_spec_witness :
  App.isQuizValidated (fst (App.handleValidateQuiz Examples.store)) = true.
Proof.
  exact (proj1 (proj2 (proj2 (handleValidateQuiz_spec Examples.store)) eq_refl)).
Defined.

(** ** Regular expressions *)

Section RegExpFacts.
Import RegExp.

(** A loop over one code unit of a class does not depend on its bound,
    once the bound is at least the length of the remaining input: the
    bound the matcher starts from never cuts a loop short. *)
Lemma greedyLoop_class (p : char -> bool) (k : cont) (n i : nat)
    (s : jsstring) (cap : option jsstring) :
  length s <= n ->
  greedyLoop (step1 p) k n (mkM i s cap) = longestFirst p k i s cap.
Proof.
  revert i s. induction n as [|n IH]; intros i s Hlen.
  - destruct s; [done | simpl in Hlen; lia].
  - destruct s as [|c s]; [done|].
    cbn [greedyLoop longestFirst]. unfold step1 at 1. cbn [rest pos cap1].
    destruct (p c); [|done].
    unfold progress at 1. cbn [pos].
    rewrite (proj2 (Nat.ltb_lt i (S i))) by lia.
    rewrite IH by (simpl in Hlen; lia). done.
Qed.

Lemma lazyLoop_class (p : char -> bool) (k : cont) (n i : nat)
    (s : jsstring) (cap : option jsstring) :
  length s <= n ->
  lazyLoop (step1 p) k n (mkM i s cap) = shortestFirst p k i s cap.
Proof.
  revert i s. induction n as [|n IH]; intros i s Hlen.
  - destruct s; [done | simpl in Hlen; lia].
  - destruct s as [|c s].
    + cbn [lazyLoop shortestFirst]. unfold step1. cbn [rest].
      now destruct (k _).
    + cbn [lazyLoop shortestFirst]. unfold step1 at 1. cbn [rest pos cap1].
      destruct (p c); [|done].
      unfold progress at 1. cbn [pos].
      rewrite (proj2 (Nat.ltb_lt i (S i))) by lia.
      rewrite IH by (simpl in Hlen; lia). done.
Qed.

(** A continuation that cannot fail is reached after the longest run. *)
Lemma longestFirst_total (p : char -> bool) (k : cont) i s cap :
  (forall st, k st <> None) ->
  longestFirst p k i s cap
  = k (mkM (i + runLength p s) (drop (runLength p s) s) cap).
Proof.
  intros Hk. revert i. induction s as [|c s IH]; intros i.
  - simpl. now rewrite Nat.add_0_r.
  - simpl. destruct (p c); simpl.
    + rewrite IH. replace (S i + runLength p s) with (i + S (runLength p s)) by lia.
      destruct (k _) eqn:E; [done|]. now apply Hk in E.
    + now rewrite Nat.add_0_r.
Qed.

(** The matcher, construct by construct. *)
Lemma matcher_Seq fl r1 r2 k st :
  matcher fl (Seq r1 r2) k st = matcher fl r1 (matcher fl r2 k) st.
Proof. reflexivity. Qed.

Lemma matcher_Opt fl r k st :
  matcher fl (Opt r) k st = orElse (matcher fl r (progress st k) st) (k st).
Proof. reflexivity. Qed.

Lemma matcher_Star_Class fl p k i s cap :
  matcher fl (Star (Class p)) k (mkM i s cap) = longestFirst p k i s cap.
Proof. cbn [matcher rest]. now apply greedyLoop_class. Qed.

Lemma matcher_LazyStar_Dot fl k i s cap :
  matcher fl (LazyStar Dot) k (mkM i s cap)
  = shortestFirst (fun x => dotAll fl || negb (isLineTerminator x)) k i s cap.
Proof. cbn [matcher rest]. now apply lazyLoop_class. Qed.

Lemma matcher_Bol fl k i s cap :
  matcher fl Bol k (mkM i s cap)
  = if (i =? 0)%nat then k (mkM i s cap) else None.
Proof. reflexivity. Qed.

Lemma matcher_Eol fl k i s cap :
  matcher fl Eol k (mkM i s cap)
  = match s with [] => k (mkM i s cap) | _ => None end.
Proof. reflexivity. Qed.

Lemma matcher_Group fl r k st :
  matcher fl (Group r) k st
  = matcher fl r
      (fun st' => k (mkM (pos st') (rest st')
                       (Some (take (pos st' - pos st) (rest st))))) st.
Proof. reflexivity. Qed.

(** The continuation is reached after the longest run first. *)
Lemma longestFirst_first p k i s cap m :
  k (mkM (i + runLength p s) (drop (runLength p s) s) cap) = Some m ->
  longestFirst p k i s cap = Some m.
Proof.
  revert i. induction s as [|c s IH]; intros i; simpl.
  - now rewrite Nat.add_0_r.
  - destruct (p c); simpl.
    + replace (i + S (runLength p s)) with (S i + runLength p s) by lia.
      intros H. now rewrite (IH _ H).
    + now rewrite Nat.add_0_r.
Qed.

(** With a class that holds everything, the continuation is reached
    after the shortest prefix it accepts. *)
Lemma shortestFirst_first p k i s cap n m :
  (forall c, p c = true) ->
  n <= length s ->
  (forall j, j < n -> k (mkM (i + j) (drop j s) cap) = None) ->
  k (mkM (i + n) (drop n s) cap) = Some m ->
  shortestFirst p k i s cap = Some m.
Proof.
  intros Hp. revert i s. induction n as [|n IH]; intros i s Hn Hnone Hsome.
  - rewrite Nat.add_0_r in Hsome. rewrite drop_0 in Hsome.
    destruct s; simpl; now rewrite Hsome.
  - destruct s as [|c s]; [simpl in Hn; lia|].
    simpl. pose proof (Hnone 0 ltac:(lia)) as H0.
    rewrite Nat.add_0_r, drop_0 in H0. rewrite H0, Hp. simpl.
    apply IH.
    + simpl in Hn. lia.
    + intros j Hj. specialize (Hnone (S j) ltac:(lia)).
      now replace (S i + j) with (i + S j) by lia.
    + now replace (S i + n) with (i + S n) by lia.
Qed.

Lemma runLength_take p s : Forall (fun c => p c = true) (take (runLength p s) s).
Proof.
  induction s as [|c s IH]; simpl; [constructor|].
  destruct (p c) eqn:E; simpl; [|constructor]. now constructor.
Qed.

End RegExpFacts.

(** ** The LaTeX heuristic *)

Section LatexFacts.
Import RegExp Gemini.

Lemma letter_not_backslash c : isAsciiLetter c = true -> (c =? 92)%N = false.
Proof.
  unfold isAsciiLetter. rewrite orb_true_iff, !andb_true_iff, !N.leb_le.
  intros H. apply N.eqb_neq. lia.
Qed.

(** Where and how the LaTeX pattern matches. *)
Lemma matchAt_latex i s :
  matchAt latexFlags latexRegex i s =
  match s with
  | c :: s' =>
      if (c =? 92)%N && startsWithTwoLetters s'
      then let n := 2 + runLength isAsciiLetter (drop 2 s') in
           Some (mkM (S i + n) (drop n s') (Some (take n s')))
      else None
  | [] => None
  end.
Proof.
  unfold matchAt, latexRegex. cbn [matcher AtLeast].
  destruct s as [|c s']; [done|].
  unfold step1 at 1. cbn [rest pos cap1]. unfold canonicalize. cbn [ignoreCase latexFlags andb].
  destruct (N.eqb_spec c 92) as [->|Hc].
  2:{ rewrite bool_decide_eq_false_2 by done. done. }
  rewrite bool_decide_eq_true_2 by done. cbn [andb].
  destruct s' as [|a s'']; [done|].
  unfold step1 at 1. cbn [rest pos cap1].
  destruct s'' as [|b t].
  { simpl. now destruct (isAsciiLetter a). }
  cbn [startsWithTwoLetters].
  destruct (isAsciiLetter a); [|done].
  unfold step1 at 1. cbn [rest pos cap1].
  destruct (isAsciiLetter b); [|done].
  cbn [andb rest pos cap1].
  rewrite greedyLoop_class by done.
  rewrite longestFirst_total by done.
  cbn [pos rest]. change (drop 2 (a :: b :: t)) with t.
  set (r := runLength isAsciiLetter t).
  change (drop (2 + r) (a :: b :: t)) with (drop r t).
  replace (S (S (S i)) + r - S i) with (2 + r) by lia.
  replace (S (S (S i)) + r) with (S i + (2 + r)) by lia.
  done.
Qed.

Lemma doubleBackslashes_letters s n :
  Forall (fun c => isAsciiLetter c = true) (take n s) ->
  doubleBackslashes s = take n s ++ doubleBackslashes (drop n s).
Proof.
  revert s. induction n as [|n IH]; intros s H; [done|].
  destruct s as [|c s]; [done|].
  simpl in H. apply Forall_cons in H as [Hc H].
  simpl. rewrite (letter_not_backslash c Hc). simpl.
  f_equal. now apply IH.
Qed.

Lemma replaceFrom_latex s :
  forall skip i,
    Forall (fun c => isAsciiLetter c = true) (take skip s) ->
    replaceFrom latexFlags latexRegex latexReplacement skip i s
    = doubleBackslashes (drop skip s).
Proof.
  induction s as [|c s IH]; intros skip i Hskip.
  - destruct skip; [|done]. cbn [replaceFrom]. rewrite matchAt_latex. done.
  - destruct skip as [|skip].
    + cbn [replaceFrom drop]. rewrite matchAt_latex.
      cbn [doubleBackslashes].
      destruct ((c =? 92)%N && startsWithTwoLetters s) eqn:E.
      * cbv zeta. cbn [pos].
        rewrite (proj2 (Nat.eqb_neq _ i)) by lia.
        unfold substitute, latexReplacement. cbn [fmap list_fmap concat cap1 default].
        cbn [app]. f_equal. f_equal.
        set (n := 2 + runLength isAsciiLetter (drop 2 s)).
        assert (Hrun : Forall (fun c => isAsciiLetter c = true) (take n s)).
        { apply andb_prop in E as [_ E].
          destruct s as [|a [|b t]]; try discriminate.
          apply andb_prop in E as [Ha Hb]. subst n. cbn [drop plus take].
          repeat constructor; auto. apply runLength_take. }
        replace (S i + n - i - 1) with n by lia.
        rewrite IH by exact Hrun.
        symmetry. rewrite app_nil_r. now apply doubleBackslashes_letters.
      * f_equal. now rewrite IH.
    + cbn [replaceFrom drop]. simpl in Hskip.
      apply Forall_cons in Hskip as [_ Hskip]. now apply IH.
Qed.

End LatexFacts.

(** C2. The LaTeX heuristic, run on any string, doubles each backslash
    that is immediately followed by two or more ASCII letters and leaves
    every other code unit as it is: the global replacement with the
    pattern computes what the specification words say. *)
Theorem escapeLatex_doubles_backslashes (s : jsstring) :
  Gemini.escapeLatex s = doubleBackslashes s.
Proof.
  unfold Gemini.escapeLatex, RegExp.replaceAll.
  now rewrite replaceFrom_latex.
Qed.

(** ** The response parser *)

Section ParserFacts.
Import Gemini.

Lemma mapIndexed_Some {A B} (f : A -> nat -> Eff B) l :
  forall i e bs e',
    mapIndexed f i l e = (Some bs, e') ->
    length bs = length l /\
    forall k a b, l !! k = Some a -> bs !! k = Some b ->
      exists e1 e2, f a (i + k) e1 = (Some b, e2).
Proof.
  induction l as [|a l IH]; intros i e bs e'.
  - cbn. intros [= <- <-]. split; [done|]. intros k a b H. done.
  - cbn [mapIndexed]. unfold bind at 1.
    destruct (f a i e) as [[b|] e1] eqn:Hf; [|discriminate].
    unfold bind at 1.
    destruct (mapIndexed f (S i) l e1) as [[bs'|] e2] eqn:Hm; [|discriminate].
    unfold ret. intros [= <- <-].
    destruct (IH _ _ _ _ Hm) as [Hlen Hall].
    split; [simpl; now rewrite Hlen|].
    intros [|k] a' b'; simpl.
    + intros [= <-] [= <-]. exists e, e1. now rewrite Nat.add_0_r.
    + intros Ha Hb. destruct (Hall k a' b' Ha Hb) as (x & y & Hxy).
      exists x, y. now replace (i + S k) with (S i + k) by lia.
Qed.

Lemma mapIndexed_None {A B} (f : A -> nat -> Eff B) l :
  forall i e e',
    mapIndexed f i l e = (None, e') ->
    exists k a e1 e2, l !! k = Some a /\ f a (i + k) e1 = (None, e2).
Proof.
  induction l as [|a l IH]; intros i e e'.
  - cbn. discriminate.
  - cbn [mapIndexed]. unfold bind at 1.
    destruct (f a i e) as [[b|] e1] eqn:Hf.
    + unfold bind at 1.
      destruct (mapIndexed f (S i) l e1) as [[bs'|] e2] eqn:Hm;
        [discriminate|].
      intros _. destruct (IH _ _ _ Hm) as (k & a' & x & y & Ha & Hxy).
      exists (S k), a', x, y. split; [done|].
      now replace (i + S k) with (S i + k) by lia.
    + intros _. exists 0, a, e, e1. now rewrite Nat.add_0_r.
Qed.

Lemma logicalOr_orDefault x fallback : orDefault x fallback (logicalOr x fallback).
Proof.
  unfold orDefault, logicalOr. destruct x as [y|].
  - split.
    + intros ? [= <-] ->. done.
    + now intros ->.
  - split; [discriminate | done].
Qed.

Lemma getProp_field v name e :
  getProp v name e = if isNull v then (None, e) else (Some (field v name), e).
Proof. now destruct v. Qed.

(** The callback on an entry of an [options] array. *)
Lemma toOption_result jo index e :
  (isNull jo = true /\ exists e', toOption jo index e = (None, e')) \/
  (isNull jo = false /\
   exists o e', toOption jo index e = (Some o, e') /\ optionOf jo o).
Proof.
  unfold toOption, bind, randomUUID. rewrite getProp_field.
  destruct (isNull jo) eqn:Hnull.
  - left. eauto.
  - right. split; [done|]. rewrite getProp_field, Hnull. unfold ret.
    eexists _, _. split; [reflexivity|]. split; simpl; [|done].
    apply logicalOr_orDefault.
Qed.

Lemma mapOptions_result opts e :
  (existsb isNull opts = true /\
   exists e', mapIndexed toOption 0 opts e = (None, e')) \/
  (existsb isNull opts = false /\
   exists os e', mapIndexed toOption 0 opts e = (Some os, e') /\
                 Forall2 optionOf opts os).
Proof.
  destruct (mapIndexed toOption 0 opts e) as [[os|] e'] eqn:Hm.
  - right.
    destruct (mapIndexed_Some _ _ _ _ _ _ Hm) as [Hlen Hall].
    assert (Hok : forall k jo, opts !! k = Some jo -> isNull jo = false).
    { intros k jo Hjo.
      destruct (os !! k) as [o|] eqn:Ho.
      2:{ apply lookup_ge_None in Ho. apply lookup_lt_Some in Hjo. lia. }
      destruct (Hall k jo o Hjo Ho) as (e1 & e2 & Hf).
      destruct (toOption_result jo (0 + k) e1)
        as [(_ & e3 & H) | (H & _)]; [congruence | done]. }
    split.
    + destruct (existsb isNull opts) eqn:Hex; [|done].
      apply existsb_exists in Hex as (jo & Hin & Hnull).
      apply list_elem_of_In, list_elem_of_lookup in Hin as [k Hk].
      rewrite (Hok k jo Hk) in Hnull. discriminate.
    + exists os, e'. split; [done|].
      apply Forall2_same_length_lookup. split; [done|].
      intros k jo o Hjo Ho.
      destruct (Hall k jo o Hjo Ho) as (e1 & e2 & Hf).
      destruct (toOption_result jo (0 + k) e1)
        as [(_ & e3 & H) | (_ & o' & e3 & H & Hof)]; [congruence|].
      congruence.
  - left. split; [|eauto].
    destruct (mapIndexed_None _ _ _ _ _ Hm) as (k & jo & e1 & e2 & Hjo & Hf).
    destruct (toOption_result jo (0 + k) e1)
      as [(Hnull & _) | (_ & o' & e3 & H & _)]; [|congruence].
    apply existsb_exists. exists jo. split; [|done].
    apply list_elem_of_In, list_elem_of_lookup. eauto.
Qed.

(** The callback on an element of the parsed array. *)
Lemma toQuestion_unfold j index e :
  toQuestion j index e =
  let e1 := mkEntropy (S (drawn e)) (uuids e) in
  if isNull j then (None, e1)
  else
    match
      match field j (str "options") with
      | Some (JArray opts) => mapIndexed toOption 0 opts e1
      | _ => (Some [], e1)
      end
    with
    | (Some os, e') =>
        (Some (QuizQuestion.mk (uuids e (drawn e))
                 (logicalOr (field j (str "questionText"))
                    (defaultQuestionText index))
                 os (truthy (field j (str "isMultipleChoice")))), e')
    | (None, e') => (None, e')
    end.
Proof.
  unfold toQuestion, bind, randomUUID, ret. rewrite !getProp_field.
  cbv zeta. destruct (isNull j) eqn:Hnull; [done|].
  rewrite getProp_field, Hnull.
  destruct (field j (str "options")) as [[| | | |opts|]|];
    rewrite ?getProp_field, ?Hnull; try done.
  destruct (mapIndexed toOption 0 opts _) as [[os|] e']; [|done].
  now rewrite getProp_field, Hnull.
Qed.

Lemma toQuestion_result j index e :
  (unreadable j = true /\ exists e', toQuestion j index e = (None, e')) \/
  (unreadable j = false /\
   exists q e', toQuestion j index e = (Some q, e') /\
                questionOf index j q /\
                length (QuizQuestion.options q) = optionCount j).
Proof.
  rewrite toQuestion_unfold. cbv zeta. unfold unreadable, optionCount.
  destruct (isNull j) eqn:Hnull; [left; eauto|]. cbn [orb].
  set (e1 := mkEntropy _ _).
  destruct (field j (str "options")) as [[| | | |opts|]|] eqn:Hopts;
    try (right; split; [done|]; eexists _, _; split; [reflexivity|];
         split; [|done]; split; [apply logicalOr_orDefault|];
         split; [done|]; now rewrite Hopts).
  destruct (mapOptions_result opts e1)
    as [(Hex & e' & Hm) | (Hex & os & e' & Hm & Hall)]; rewrite Hm, Hex.
  - left. eauto.
  - right. split; [done|].
    eexists _, _. split; [reflexivity|].
    split; [|simpl; symmetry; eapply Forall2_length, Hall].
    split; [apply logicalOr_orDefault|]. split; [done|]. now rewrite Hopts.
Qed.

(** What [parseGeneratedQuiz] returns, by the outcome of [JSON.parse]. *)
Lemma parseGeneratedQuiz_cases jsonString e :
  match JSONParser.parse (preprocess jsonString) with
  | Some (JArray items) =>
      (existsb unreadable items = true /\
       fst (parseGeneratedQuiz jsonString e) = None) \/
      (existsb unreadable items = false /\
       exists qs, fst (parseGeneratedQuiz jsonString e) = Some qs /\
         length qs = length items /\
         forall i j q, items !! i = Some j -> qs !! i = Some q ->
           questionOf i j q /\
           length (QuizQuestion.options q) = optionCount j)
  | _ => fst (parseGeneratedQuiz jsonString e) = None
  end.
Proof.
  unfold parseGeneratedQuiz.
  destruct (JSONParser.parse _) as [[| | | |items|]|]; try done.
  destruct (mapIndexed toQuestion 0 items e) as [[qs|] e'] eqn:Hm.
  - right.
    destruct (mapIndexed_Some _ _ _ _ _ _ Hm) as [Hlen Hall].
    assert (Hq : forall i j q, items !! i = Some j -> qs !! i = Some q ->
              unreadable j = false /\ questionOf i j q /\
              length (QuizQuestion.options q) = optionCount j).
    { intros i j q Hj Hq. destruct (Hall i j q Hj Hq) as (e1 & e2 & Hf).
      destruct (toQuestion_result j (0 + i) e1)
        as [(_ & e3 & H) | (Hr & q' & e3 & H & Hof)]; [congruence|].
      assert (q' = q) as -> by congruence. done. }
    split.
    + destruct (existsb unreadable items) eqn:Hex; [|done].
      apply existsb_exists in Hex as (j & Hin & Hbad).
      apply list_elem_of_In, list_elem_of_lookup in Hin as [i Hi].
      destruct (qs !! i) as [q|] eqn:Hqi.
      2:{ apply lookup_ge_None in Hqi. apply lookup_lt_Some in Hi. lia. }
      destruct (Hq i j q Hi Hqi) as (Hr & _). congruence.
    + exists qs. split; [done|]. split; [done|].
      intros i j q Hj Hqi. now destruct (Hq i j q Hj Hqi) as (_ & ? & ?).
  - left. split; [|done].
    destruct (mapIndexed_None _ _ _ _ _ Hm) as (k & j & e1 & e2 & Hj & Hf).
    destruct (toQuestion_result j (0 + k) e1)
      as [(Hbad & _) | (_ & q' & e3 & H & _)]; [|congruence].
    apply existsb_exists. exists j. split; [|done].
    apply list_elem_of_In, list_elem_of_lookup. eauto.
Qed.

End ParserFacts.

(** C1 fails on the code: a response whose only question has two options
    is parsed into a question with two options. *)
Lemma parsed_question_with_two_options :
  option_map (List.map (fun q => length (QuizQuestion.options q)))
    (fst (Gemini.parseGeneratedQuiz Examples.twoOptionsText Examples.entropy))
  = Some [2].
Proof. vm_compute. reflexivity. Qed.

(** C1 (as the code has it).  Every question in a list returned by
    [parseGeneratedQuiz] -- hence by [generateQuiz] and
    [generateMoreQuestions], which return that list, and by
    [generateAlternativeQuestion], which returns its first element -- has
    as many options as the [options] array of the JSON element it was built
    from has entries, and none when [options] is missing or not an
    array. *)
Theorem parsed_question_option_count (jsonString : jsstring)
    (e : Gemini.Entropy) :
  (forall qs,
     fst (Gemini.parseGeneratedQuiz jsonString e) = Some qs ->
     exists items,
       JSONParser.parse (Gemini.preprocess jsonString) = Some (JArray items) /\
       length qs = length items /\
       forall i j q, items !! i = Some j -> qs !! i = Some q ->
         length (QuizQuestion.options q) = optionCount j) /\
  (forall q,
     fst (Gemini.generateAlternativeQuestion jsonString e) = Some q ->
     exists j items,
       JSONParser.parse (Gemini.preprocess jsonString)
         = Some (JArray (j :: items)) /\
       length (QuizQuestion.options q) = optionCount j).
Proof.
  pose proof (parseGeneratedQuiz_cases jsonString e) as Hcases.
  split.
  - intros qs Hqs.
    destruct (JSONParser.parse _) as [[| | | |items|]|]; try congruence.
    destruct Hcases as [(_ & H) | (_ & qs' & H & Hlen & Hall)]; [congruence|].
    assert (qs' = qs) as -> by congruence.
    exists items. split; [done|]. split; [done|].
    intros i j q Hj Hq. now destruct (Hall i j q Hj Hq).
  - intros q. unfold Gemini.generateAlternativeQuestion.
    destruct (Gemini.parseGeneratedQuiz jsonString e) as [[[|q0 qs]|] e'];
      simpl; try discriminate.
    intros [= ->]. simpl in Hcases.
    destruct (JSONParser.parse _) as [[| | | |items|]|]; try congruence.
    destruct Hcases as [(_ & H) | (_ & qs' & H & Hlen & Hall)]; [congruence|].
    injection H as <-.
    destruct items as [|j items]; [discriminate|].
    exists j, items. split; [done|].
    now destruct (Hall 0 j q eq_refl eq_refl).
Qed.

(** Witness of C1 as amended: the two-option response. *)
Lemma parsed_question_option_count_witness :
  exists items,
    JSONParser.parse (Gemini.preprocess Examples.twoOptionsText)
      = Some (JArray items) /\
    length Examples.twoOptionsQuiz = length items /\
    forall i j q,
      items !! i = Some j ->
      Examples.twoOptionsQuiz !! i = Some q ->
      length (QuizQuestion.options q) = optionCount j.
Proof.
  refine (proj1 (parsed_question_option_count Examples.twoOptionsText
                   Examples.entropy) Examples.twoOptionsQuiz _).
  vm_compute. reflexivity.
Defined.

(** C9 fails on the code: [[null]] is valid JSON and an array, and the
    parser returns [null] for it. *)
Lemma parse_null_element :
  JSONParser.parse (Gemini.preprocess (str "[null]")) = Some (JArray [JNull]) /\
  fst (Gemini.parseGeneratedQuiz (str "[null]") Examples.entropy) = None.
Proof. split; vm_compute; reflexivity. Qed.

(** C9 (as the code has it).  [parseGeneratedQuiz] is a function of its
    string (and of the identifiers it draws).  It returns [null] exactly
    when the pre-processed string is not valid JSON, or its value is not an
    array, or an element of the array is [null] or has a [null] in its
    [options] array.  A list it returns has one question per element of the
    array, in order: text and option texts are the truthy values found or
    the defaults, the options are empty when [options] is not an array, and
    the flags are the truth values of what was found. *)
Theorem parseGeneratedQuiz_spec (jsonString : jsstring) (e : Gemini.Entropy) :
  let result := fst (Gemini.parseGeneratedQuiz jsonString e) in
  let parsed := JSONParser.parse (Gemini.preprocess jsonString) in
  (result = None <->
   parsed = None \/
   (exists v, parsed = Some v /\ forall items, v <> JArray items) \/
   (exists items j, parsed = Some (JArray items) /\ j ∈ items /\
                    unreadable j = true)) /\
  (forall qs, result = Some qs ->
     exists items,
       parsed = Some (JArray items) /\
       length qs = length items /\
       forall i j q, items !! i = Some j -> qs !! i = Some q ->
         questionOf i j q).
Proof.
  cbv zeta.
  pose proof (parseGeneratedQuiz_cases jsonString e) as Hcases.
  destruct (JSONParser.parse _) as [v|].
  2:{ split; [split; auto | congruence]. }
  assert (Hother : (forall items, v <> JArray items) ->
            fst (Gemini.parseGeneratedQuiz jsonString e) = None).
  { intros Hv. destruct v; try done. now contradiction (Hv items). }
  destruct v as [| | | |items|];
    try (rewrite Hother by discriminate;
         split; [split; [intros _; right; left; eauto | done] | discriminate]).
  clear Hother.
  destruct Hcases as [(Hex & ->) | (Hex & qs & -> & Hlen & Hall)].
  - split; [|discriminate]. split; [|done]. intros _. right. right.
    apply existsb_exists in Hex as (j & Hin & Hbad).
    exists items, j. split; [done|]. split; [|done]. now apply list_elem_of_In.
  - split.
    + split; [discriminate|].
      intros [H | [(v & [= <-] & Hv) | (items' & j & [= <-] & Hin & Hbad)]].
      * discriminate.
      * now contradiction (Hv items).
      * exfalso. apply list_elem_of_In in Hin.
        assert (existsb unreadable items = true); [|congruence].
        apply existsb_exists. eauto.
    + intros qs' [= <-]. exists items. split; [done|]. split; [done|].
      intros i j q Hj Hq. now destruct (Hall i j q Hj Hq).
Qed.

(** Witness of C9 as amended: the two-option response gives one question. *)
Lemma parseGeneratedQuiz_spec_witness :
  exists items,
    JSONParser.parse (Gemini.preprocess Examples.twoOptionsText)
      = Some (JArray items) /\
    length Examples.twoOptionsQuiz = length items /\
    forall i j q,
      items !! i = Some j ->
      Examples.twoOptionsQuiz !! i = Some q ->
      questionOf i j q.
Proof.
  refine (proj2 (parseGeneratedQuiz_spec Examples.twoOptionsText
                   Examples.entropy) Examples.twoOptionsQuiz _).
  vm_compute. reflexivity.
Defined.

(** ** Trimming *)

Section TrimFacts.

Lemma trimStart_blank w s : blank w -> trimStart (w ++ s) = trimStart s.
Proof. induction 1 as [|c w Hc _ IH]; [done|]. simpl. now rewrite Hc. Qed.

Lemma trimStart_blank_nil w : blank w -> trimStart w = [].
Proof. intros H. rewrite <- (app_nil_r w). now rewrite trimStart_blank. Qed.

Lemma trimStart_head c s : isWhiteSpace c = false -> trimStart (c :: s) = c :: s.
Proof. simpl. now intros ->. Qed.

(** [trimStart] removes a blank prefix and stops at a non-blank code
    unit. *)
Lemma trimStart_split s :
  exists w, blank w /\ s = w ++ trimStart s /\
    (trimStart s = [] \/
     exists c r, trimStart s = c :: r /\ isWhiteSpace c = false).
Proof.
  induction s as [|c s (w & Hw & Hs & Hhead)].
  - exists []. repeat split; auto. constructor.
  - simpl. destruct (isWhiteSpace c) eqn:Hc.
    + exists (c :: w). split; [now constructor|]. split; [|done].
      simpl. now f_equal.
    + exists []. split; [constructor|]. split; [done|]. right. eauto.
Qed.

Lemma trimStart_idem s : trimStart (trimStart s) = trimStart s.
Proof.
  destruct (trimStart_split s) as (_ & _ & _ & [-> | (c & r & -> & Hc)]);
    [done | now apply trimStart_head].
Qed.

Lemma trimStart_app s t :
  trimStart s <> [] -> trimStart (s ++ t) = trimStart s ++ t.
Proof.
  destruct (trimStart_split s) as (w & Hw & Hs & [-> | (c & r & Hr & Hc)]);
    [done|].
  intros _. rewrite Hs at 1. rewrite <- app_assoc, trimStart_blank by done.
  rewrite Hr. simpl. now rewrite Hc.
Qed.

Lemma blank_rev w : blank w -> blank (rev w).
Proof. apply Forall_rev. Qed.

Lemma trimEnd_split s :
  exists w, blank w /\ s = trimEnd s ++ w /\
    (trimEnd s = [] \/
     exists r c, trimEnd s = r ++ [c] /\ isWhiteSpace c = false).
Proof.
  unfold trimEnd.
  destruct (trimStart_split (rev s)) as (w & Hw & Hs & Hhead).
  exists (rev w). split; [now apply blank_rev|]. split.
  - rewrite <- rev_app_distr, <- Hs. now rewrite rev_involutive.
  - destruct Hhead as [-> | (c & r & -> & Hc)]; [now left|].
    right. exists (rev r), c. done.
Qed.

Lemma trimEnd_snoc s c :
  isWhiteSpace c = false -> trimEnd (s ++ [c]) = s ++ [c].
Proof.
  intros Hc. unfold trimEnd. rewrite rev_app_distr. simpl. rewrite Hc.
  simpl. now rewrite rev_involutive.
Qed.

Lemma trimEnd_cons c s :
  isWhiteSpace c = false -> trimEnd (c :: s) = c :: trimEnd s.
Proof.
  intros Hc. unfold trimEnd. simpl.
  destruct (trimStart_split (rev s)) as (w & Hw & Hs & Hhead).
  destruct Hhead as [Hnil | (d & r & Hr & Hd)].
  - rewrite Hnil. rewrite Hs, Hnil, app_nil_r.
    rewrite trimStart_blank by done. simpl. now rewrite Hc.
  - rewrite trimStart_app by (rewrite Hr; discriminate).
    now rewrite rev_app_distr.
Qed.

(** The shape of a string around its trimmed part. *)
Lemma trim_split s :
  exists w0 w1, blank w0 /\ blank w1 /\ s = w0 ++ trim s ++ w1 /\
    (trim s = [] \/
     (exists c r, trim s = c :: r /\ isWhiteSpace c = false) /\
     (exists r d, trim s = r ++ [d] /\ isWhiteSpace d = false)).
Proof.
  unfold trim.
  destruct (trimStart_split s) as (w0 & Hw0 & Hs & Hhead).
  destruct (trimEnd_split (trimStart s)) as (w1 & Hw1 & Hs1 & Hlast).
  exists w0, w1. split; [done|]. split; [done|].
  split; [now rewrite <- Hs1|].
  destruct Hhead as [-> | (c & r & Hr & Hc)]; [now left|].
  right. rewrite Hr in *. rewrite trimEnd_cons in * by done.
  split; [eauto|]. destruct Hlast as [? | ?]; [discriminate | done].
Qed.

Lemma trim_idem s : trim (trim s) = trim s.
Proof.
  destruct (trim_split s)
    as (_ & _ & _ & _ & _ & [H | [(c & r & Hr & Hc) (r' & d & Hd & Hdw)]]).
  - now rewrite H.
  - unfold trim at 1. rewrite Hr at 1. rewrite trimStart_head by done.
    rewrite <- Hr, Hd. now apply trimEnd_snoc.
Qed.

(** A string between two non-blank code units is its own trimmed
    form. *)
Lemma trim_fixed c s d :
  isWhiteSpace c = false -> isWhiteSpace d = false ->
  trim (c :: s ++ [d]) = c :: s ++ [d].
Proof.
  intros Hc Hd. unfold trim. rewrite trimStart_head by done.
  now rewrite app_comm_cons, trimEnd_snoc.
Qed.

Lemma runLength_drop s : drop (runLength isWhiteSpace s) s = trimStart s.
Proof.
  induction s as [|c s IH]; [done|]. simpl.
  now destruct (isWhiteSpace c).
Qed.

Lemma trimStart_length s : length (trimStart s) <= length s.
Proof.
  destruct (trimStart_split s) as (w & _ & Hs & _).
  rewrite Hs at 2. rewrite length_app. lia.
Qed.

Lemma trimStart_snoc s d :
  isWhiteSpace d = false -> trimStart (s ++ [d]) <> [].
Proof.
  intros Hd.
  destruct (trimStart_split s) as (w & Hw & Hs & [Hnil | (c & r & Hr & Hc)]).
  - rewrite Hs, Hnil, app_nil_r, trimStart_blank by done.
    simpl. now rewrite Hd.
  - rewrite trimStart_app by (rewrite Hr; discriminate).
    rewrite Hr. discriminate.
Qed.

End TrimFacts.

(** ** The fence pattern *)

Section FenceFacts.
Import RegExp Gemini.

(** Under the i flag a code unit matches a pattern character that is not
    a letter only if it is that character. *)
Lemma canonical_eq_nonletter (a c : char) :
  (c < 65)%N \/ (90 < c < 97)%N ->
  bool_decide (canonicalize fenceFlags a = canonicalize fenceFlags c)
  = (a =? c)%N.
Proof.
  intros Hc. unfold canonicalize. cbn [ignoreCase fenceFlags andb].
  destruct (97 <=? c)%N eqn:E1; [apply N.leb_le in E1; lia|].
  cbn [andb].
  destruct (N.eqb_spec a c) as [->|Hne].
  - rewrite E1. cbn [andb]. now apply bool_decide_eq_true_2.
  - apply bool_decide_eq_false_2.
    destruct (97 <=? a)%N eqn:E2; [|done]. cbn [andb].
    destruct (a <=? 122)%N eqn:E3; [|done].
    apply N.leb_le in E2, E3. lia.
Qed.

Lemma matcher_Chr_nonletter (c : char) k i x cap :
  (c < 65)%N \/ (90 < c < 97)%N ->
  matcher fenceFlags (Chr c) k (mkM i x cap) =
  match x with
  | a :: x' => if (a =? c)%N then k (mkM (S i) x' cap) else None
  | [] => None
  end.
Proof.
  intros Hc. cbn [matcher]. unfold step1. cbn [rest pos cap1].
  destruct x as [|a x']; [done|]. now rewrite canonical_eq_nonletter.
Qed.

Lemma matcher_backticks k i x cap :
  matcher fenceFlags (Lit backticks) k (mkM i x cap) =
  if startsWith backticks x then k (mkM (i + 3) (drop 3 x) cap) else None.
Proof.
  change (Lit backticks)
    with (Seq (Chr 96%N) (Seq (Chr 96%N) (Seq (Chr 96%N) Eps))).
  rewrite matcher_Seq, matcher_Chr_nonletter by lia.
  destruct x as [|a x]; [done|]. cbn [startsWith backticks str].
  change (N_of_ascii "`") with 96%N. rewrite (N.eqb_sym 96%N a).
  destruct (a =? 96)%N; [|done].
  rewrite matcher_Seq, matcher_Chr_nonletter by lia.
  destruct x as [|b x]; [done|]. rewrite (N.eqb_sym 96%N b).
  destruct (b =? 96)%N; [|done].
  rewrite matcher_Seq, matcher_Chr_nonletter by lia.
  destruct x as [|c x]; [done|]. rewrite (N.eqb_sym 96%N c).
  destruct (c =? 96)%N; [|done].
  cbn [andb drop matcher]. now replace (i + 3) with (S (S (S i))) by lia.
Qed.

(** The end of the pattern: the closing fence and the end of the text. *)
Lemma startsWith_prefix w x :
  startsWith w x = true <-> exists r, x = w ++ r.
Proof.
  revert x. induction w as [|a w IH]; intros x.
  - split; [intros _; now exists x | done].
  - destruct x as [|b x]; simpl.
    + split; [discriminate | intros (r & [=])].
    + rewrite andb_true_iff, IH, N.eqb_eq. split.
      * intros (-> & r & ->). eauto.
      * intros (r & [= -> ->]). eauto.
Qed.

Lemma matcher_closing i x cap :
  matcher fenceFlags (Seq (Lit backticks) Eol) Some (mkM i x cap) =
  if bool_decide (x = backticks) then Some (mkM (i + 3) [] cap) else None.
Proof.
  rewrite matcher_Seq, matcher_backticks.
  destruct (startsWith backticks x) eqn:Hx.
  - apply startsWith_prefix in Hx as (r & ->).
    change (drop 3 (backticks ++ r)) with r. rewrite matcher_Eol.
    destruct r as [|d r].
    + now rewrite bool_decide_eq_true_2.
    + now rewrite bool_decide_eq_false_2.
  - rewrite bool_decide_eq_false_2; [done|]. intros ->. discriminate.
Qed.

(** White space, then the closing fence and the end of the text. *)
Lemma longestFirst_closing i x cap :
  longestFirst isWhiteSpace
    (matcher fenceFlags (Seq (Lit backticks) Eol) Some) i x cap =
  if closesFence x then Some (mkM (i + length x) [] cap) else None.
Proof.
  unfold closesFence. revert i. induction x as [|c x IH]; intros i.
  - cbn [longestFirst]. now rewrite matcher_closing.
  - cbn [longestFirst trimStart]. destruct (isWhiteSpace c) eqn:Hc.
    + rewrite IH. simpl length.
      replace (S i + length x) with (i + S (length x)) by lia.
      destruct (bool_decide _); [done|].
      rewrite matcher_closing. rewrite bool_decide_eq_false_2; [done|].
      intros [= -> _]. discriminate.
    + clear IH. rewrite matcher_closing.
      case_bool_decide as E; [|done]. now rewrite E.
Qed.

Lemma matcher_fenceTail i x cap :
  matcher fenceFlags fenceTail Some (mkM i x cap) =
  if closesFence x then Some (mkM (i + length x) [] cap) else None.
Proof.
  unfold fenceTail, optionalNewline, whiteSpaces.
  rewrite matcher_Seq, matcher_Opt, matcher_Chr_nonletter by lia.
  rewrite matcher_Seq, matcher_Star_Class, longestFirst_closing.
  destruct x as [|a x]; [done|].
  destruct (N.eqb_spec a 10%N) as [->|Ha]; [|done].
  unfold progress. cbn [pos].
  rewrite (proj2 (Nat.ltb_lt i (S i))) by lia.
  rewrite matcher_Seq, matcher_Star_Class, longestFirst_closing.
  unfold closesFence. cbn [trimStart].
  change (isWhiteSpace 10%N) with true. cbv iota.
  simpl length. replace (S i + length x) with (i + S (length x)) by lia.
  now destruct (bool_decide _).
Qed.

Lemma closesFence_blank w : blank w -> closesFence (w ++ backticks) = true.
Proof.
  intros Hw. unfold closesFence. rewrite trimStart_blank by done.
  now apply bool_decide_eq_true_2.
Qed.

Lemma closesFence_not r d w :
  isWhiteSpace d = false -> closesFence ((r ++ [d]) ++ w ++ backticks) = false.
Proof.
  intros Hd. unfold closesFence. apply bool_decide_eq_false_2.
  rewrite trimStart_app by now apply trimStart_snoc.
  intros H. apply (f_equal length) in H. rewrite !length_app in H.
  pose proof (trimStart_snoc r d Hd) as Hne.
  destruct (trimStart (r ++ [d])); [done|]. simpl in H. lia.
Qed.

(** Group 1 and the end of the pattern, on a text that ends with white
    space and the closing fence: group 1 stops where that white space
    starts. *)
Lemma matcher_group_tail j t w cap0 :
  blank w ->
  (t = [] \/ exists r d, t = r ++ [d] /\ isWhiteSpace d = false) ->
  exists m,
    matcher fenceFlags (Seq (Group (LazyStar Dot)) fenceTail) Some
      (mkM j (t ++ w ++ backticks) cap0) = Some m /\
    cap1 m = Some t.
Proof.
  intros Hw Ht. rewrite matcher_Seq, matcher_Group, matcher_LazyStar_Dot.
  cbn [pos rest].
  eexists. split.
  - apply (shortestFirst_first _ _ _ _ _ (length t)).
    + done.
    + rewrite length_app. lia.
    + intros i Hi. cbn [pos rest]. rewrite matcher_fenceTail.
      rewrite drop_app_le by lia.
      destruct Ht as [-> | (r & d & -> & Hd)]; [simpl in Hi; lia|].
      rewrite length_app in Hi. simpl in Hi.
      rewrite drop_app_le by lia. now rewrite closesFence_not.
    + cbn [pos rest]. rewrite matcher_fenceTail.
      rewrite drop_app_length, closesFence_blank by done. reflexivity.
  - cbn [cap1]. f_equal.
    replace (j + length t - j) with (length t) by lia.
    now rewrite take_app_length.
Qed.

Lemma matcher_optionalNewline_skip k j y cap :
  trimStart y = y ->
  matcher fenceFlags optionalNewline k (mkM j y cap) = k (mkM j y cap).
Proof.
  intros Hy. unfold optionalNewline.
  rewrite matcher_Opt, matcher_Chr_nonletter by lia.
  destruct y as [|a y]; [done|].
  destruct (N.eqb_spec a 10%N) as [->|]; [|done].
  exfalso. simpl in Hy. pose proof (trimStart_length y) as Hlen.
  rewrite Hy in Hlen. simpl in Hlen. lia.
Qed.

(** The pattern from the white space after the opening fence on. *)
Lemma matcher_after_opening j s :
  exists m,
    matcher fenceFlags
      (Seq whiteSpaces
         (Seq optionalNewline (Seq (Group (LazyStar Dot)) fenceTail)))
      Some (mkM j ([10%N] ++ s ++ [10%N] ++ backticks) None) = Some m /\
    cap1 m = Some (trim s).
Proof.
  unfold whiteSpaces at 1. rewrite matcher_Seq, matcher_Star_Class.
  destruct (trim_split s) as (w0 & w1 & Hw0 & Hw1 & Hs & Hshape).
  set (x := [10%N] ++ s ++ [10%N] ++ backticks).
  assert (Hblank : blank (w1 ++ [10%N])).
  { apply Forall_app. split; [done | now repeat constructor]. }
  assert (Hx : exists w, blank w /\ trimStart x = trim s ++ w ++ backticks).
  { subst x. cbn [app trimStart]. change (isWhiteSpace 10%N) with true.
    cbv iota. remember (trim s) as t eqn:Ht. clear Ht. subst s.
    rewrite <- !app_assoc. rewrite trimStart_blank by done.
    destruct Hshape as [Hnil | [(c & r & Hr & Hc) _]].
    - exists []. split; [constructor|]. rewrite Hnil. simpl.
      change (10%N :: backticks) with ([10%N] ++ backticks).
      rewrite app_assoc. now rewrite trimStart_blank.
    - exists (w1 ++ [10%N]). split; [done|]. rewrite Hr. simpl.
      rewrite Hc. now rewrite <- app_assoc. }
  destruct Hx as (w & Hw & Hx).
  destruct (matcher_group_tail (j + runLength isWhiteSpace x) (trim s)
              w None Hw) as (m & Hm & Hcap).
  { destruct Hshape as [-> | [_ H]]; [now left | now right]. }
  exists m. split; [|done].
  apply longestFirst_first. rewrite runLength_drop.
  rewrite matcher_Seq, matcher_optionalNewline_skip by apply trimStart_idem.
  now rewrite Hx.
Qed.

Lemma matcher_json_hit k i x cap :
  matcher fenceFlags (Lit (str "json")) k (mkM i (str "json" ++ x) cap)
  = k (mkM (i + 4) x cap).
Proof. replace (i + 4) with (S (S (S (S i)))) by lia. reflexivity. Qed.

Lemma matcher_json_miss k i x cap :
  matcher fenceFlags (Lit (str "json")) k (mkM i ([10%N] ++ x) cap) = None.
Proof. reflexivity. Qed.

(** The fence pattern on a fenced text: group 1 is the trimmed
    content. *)
Lemma matchAt_fenced opening s :
  opening = backticks \/ opening = backticks ++ str "json" ->
  exists m,
    matchAt fenceFlags fenceRegex 0 (fenced opening s) = Some m /\
    cap1 m = Some (trim s).
Proof.
  intros Hopening. unfold matchAt, fenceRegex, fenced.
  rewrite matcher_Seq, matcher_Bol. cbn [Nat.eqb].
  destruct Hopening as [-> | ->].
  - rewrite matcher_Seq, matcher_backticks.
    change (startsWith backticks (backticks ++ _)) with true. cbv iota.
    change (drop 3 (backticks ++ ?x)) with x.
    rewrite matcher_Seq, matcher_Opt.
    rewrite matcher_json_miss. cbn [orElse].
    apply matcher_after_opening.
  - rewrite matcher_Seq, matcher_backticks. rewrite <- app_assoc.
    change (startsWith backticks (backticks ++ _)) with true. cbv iota.
    change (drop 3 (backticks ++ ?x)) with x.
    rewrite matcher_Seq, matcher_Opt, matcher_json_hit.
    unfold progress. cbn [pos Nat.ltb Nat.leb Nat.add].
    destruct (matcher_after_opening 7 s) as (m & Hm & Hcap).
    exists m. split; [|done]. unfold char in *. now rewrite Hm.
Qed.

Lemma fenced_shape opening s :
  opening = backticks \/ opening = backticks ++ str "json" ->
  exists mid, fenced opening s = 96%N :: mid ++ [96%N].
Proof.
  unfold fenced. intros [-> | ->].
  - exists ([96%N; 96%N; 10%N] ++ s ++ [10%N; 96%N; 96%N]).
    cbn. f_equal. f_equal. f_equal. f_equal. now rewrite <- app_assoc.
  - exists ([96%N; 96%N] ++ str "json" ++ [10%N] ++ s ++ [10%N; 96%N; 96%N]).
    cbn. do 8 f_equal. now rewrite <- app_assoc.
Qed.

Lemma execFrom_Bol r i x :
  0 < i -> execFrom fenceFlags (Seq Bol r) i x = None.
Proof.
  revert i. induction x as [|c x IH]; intros i Hi;
    cbn [execFrom]; unfold matchAt; rewrite matcher_Seq, matcher_Bol;
    rewrite (proj2 (Nat.eqb_neq i 0)) by lia; [done|].
  apply IH. lia.
Qed.

(** A fence around a text is stripped, unless nothing but white space is
    inside. *)
Lemma stripFence_fenced opening s :
  opening = backticks \/ opening = backticks ++ str "json" ->
  stripFence (fenced opening s)
  = match trim s with [] => fenced opening s | _ => trim s end.
Proof.
  intros Hopening. unfold stripFence.
  destruct (fenced_shape opening s Hopening) as (mid & Hmid).
  assert (Htrim : trim (fenced opening s) = fenced opening s).
  { rewrite Hmid. now apply trim_fixed. }
  rewrite Htrim. unfold matchGroup1.
  destruct (matchAt_fenced opening s Hopening) as (m & Hm & Hcap).
  assert (Hexec : execFrom fenceFlags fenceRegex 0 (fenced opening s) = Some m).
  { destruct (fenced opening s); cbn [execFrom]; now rewrite Hm. }
  rewrite Hexec. cbn [fmap option_fmap option_map]. rewrite Hcap.
  destruct (trim s) as [|c g] eqn:Hs; [done|].
  rewrite <- Hs. apply trim_idem.
Qed.

(** A text that does not start with a fence is only trimmed. *)
Lemma stripFence_unfenced s :
  startsWith backticks (trim s) = false -> stripFence s = trim s.
Proof.
  intros Hs. unfold stripFence, matchGroup1.
  assert (Hexec : execFrom fenceFlags fenceRegex 0 (trim s) = None).
  { assert (H0 : matchAt fenceFlags fenceRegex 0 (trim s) = None).
    { unfold matchAt, fenceRegex.
      rewrite matcher_Seq, matcher_Bol. cbn [Nat.eqb].
      now rewrite matcher_Seq, matcher_backticks, Hs. }
    destruct (trim s) as [|c t]; cbn [execFrom]; rewrite H0; [done|].
    apply execFrom_Bol. lia. }
  now rewrite Hexec.
Qed.

Lemma parse_backtick x : JSONParser.parse (96%N :: x) = None.
Proof.
  unfold JSONParser.parse, JSONParser.parseWith.
  replace (2 * length (96%N :: x) + 2) with (S (2 * length x + 3))
    by (simpl; lia).
  reflexivity.
Qed.

End FenceFacts.

(** C6 fails on the code: the parser strips one fence only, so a response
    that is already fenced parses to the empty quiz, and to [null] once a
    second fence is put around it. *)
Lemma fence_around_fenced_text :
  fst (Gemini.parseGeneratedQuiz Examples.fencedEmptyArray Examples.entropy)
    = Some [] /\
  fst (Gemini.parseGeneratedQuiz
         (Gemini.fenced (str "```json") Examples.fencedEmptyArray)
         Examples.entropy) = None.
Proof. split; vm_compute; reflexivity. Qed.

(** C6 (as the code has it).  For a string [s] that does not itself start,
    after leading white space, with a code fence, [parseGeneratedQuiz]
    gives on [s] wrapped in a markdown code fence -- the opening fence,
    with or without [json], on the first line, [s] in between, the closing
    fence on the last line -- what it gives on [s], drawing the same
    identifiers. *)
Theorem parseGeneratedQuiz_fence (opening s : jsstring) (e : Gemini.Entropy) :
  opening = str "```json" \/ opening = str "```" ->
  startsWith Gemini.backticks (trim s) = false ->
  Gemini.parseGeneratedQuiz (Gemini.fenced opening s) e
  = Gemini.parseGeneratedQuiz s e.
Proof.
  intros Hopening Hs.
  assert (Hopening' : opening = Gemini.backticks
                      \/ opening = Gemini.backticks ++ str "json")
    by (destruct Hopening as [-> | ->]; auto).
  unfold Gemini.parseGeneratedQuiz, Gemini.preprocess.
  rewrite stripFence_fenced, stripFence_unfenced by done.
  destruct (trim s) as [|c t] eqn:Htrim; [|done].
  destruct (fenced_shape opening s Hopening') as (mid & ->).
  unfold Gemini.escapeLatex, RegExp.replaceAll.
  rewrite !replaceFrom_latex by constructor.
  cbn [drop doubleBackslashes]. change (96 =? 92)%N with false. cbn [andb].
  now rewrite parse_backtick.
Qed.

(** Witness of C6 as amended: an empty array between blank lines. *)
Lemma parseGeneratedQuiz_fence_witness :
  Gemini.parseGeneratedQuiz
    (Gemini.fenced (str "```json") (str " [] ")) Examples.entropy
  = Gemini.parseGeneratedQuiz (str " [] ") Examples.entropy.
Proof.
  apply parseGeneratedQuiz_fence; [now left | reflexivity].
Defined.

(** ** JSON.parse: the fuel is enough *)

Section JSONFacts.
Import JSONParser.

Lemma skipWs_length s : length (skipWs s) <= length s.
Proof.
  induction s as [|c s IH]; [done|]. simpl.
  destruct (isJSONWhiteSpace c); simpl; lia.
Qed.

Lemma nextIs_length c s r : nextIs c s = Some r -> length r < length s.
Proof.
  unfold nextIs. pose proof (skipWs_length s) as H.
  destruct (skipWs s) as [|d s']; [discriminate|].
  destruct (d =? c)%N; [|discriminate]. intros [= <-]. simpl in H. lia.
Qed.

Lemma push_Ok {A} (c : A) r v rest :
  push c r = Ok v rest -> exists v', r = Ok v' rest.
Proof. destruct r; simpl; [|discriminate..]. intros [= <- <-]. eauto. Qed.

Lemma push_fuel {A} (c : A) r : push c r = OutOfFuel -> r = OutOfFuel.
Proof. now destruct r. Qed.

Lemma stringBody_total n :
  forall s, length s <= n ->
    stringBody s <> OutOfFuel /\
    forall v r, stringBody s = Ok v r -> length r < length s.
Proof.
  induction n as [|n IH]; intros s Hn.
  { destruct s; [|simpl in Hn; lia]. split; [done | discriminate]. }
  destruct s as [|c s]; [split; [done | discriminate]|].
  simpl in Hn. cbn [stringBody].
  destruct (c =? 34)%N.
  { split; [done|]. intros v r [= <- <-]. simpl. lia. }
  destruct (c =? 92)%N.
  - destruct s as [|e s]; [split; [done | discriminate]|].
    simpl in Hn. destruct (e =? 117)%N.
    + destruct s as [|a [|b [|c' [|d s]]]]; try (split; [done | discriminate]).
      simpl in Hn. destruct (hex4 a b c' d); [|split; [done | discriminate]].
      destruct (IH s ltac:(lia)) as [Hf Hl]. split.
      * intros H. now apply push_fuel in H.
      * intros v r H. apply push_Ok in H as (v' & H).
        apply Hl in H. simpl. lia.
    + destruct (simpleEscape e); [|split; [done | discriminate]].
      destruct (IH s ltac:(lia)) as [Hf Hl]. split.
      * intros H. now apply push_fuel in H.
      * intros v r H. apply push_Ok in H as (v' & H).
        apply Hl in H. simpl. lia.
  - destruct (c <? 32)%N; [split; [done | discriminate]|].
    destruct (IH s ltac:(lia)) as [Hf Hl]. split.
    + intros H. now apply push_fuel in H.
    + intros v r H. apply push_Ok in H as (v' & H).
      apply Hl in H. simpl. lia.
Qed.

Lemma digitRun_length s :
  forall acc v n r, digitRun acc s = (v, n, r) -> length r + n = length s.
Proof.
  induction s as [|c s IH]; intros acc v n r; simpl.
  - intros [= <- <- <-]. done.
  - destruct (isDigit c).
    + destruct (digitRun _ s) as [[v' n'] r'] eqn:E.
      intros [= <- <- <-]. apply IH in E. lia.
    + intros [= <- <- <-]. simpl. lia.
Qed.

Lemma integerPart_total s :
  integerPart s <> OutOfFuel /\
  forall v r, integerPart s = Ok v r -> length r < length s.
Proof.
  unfold integerPart. destruct s as [|c t]; [split; [done | discriminate]|].
  destruct (c =? 48)%N.
  { split; [done|]. intros v r [= <- <-]. simpl. lia. }
  destruct (isDigit c) eqn:Hc; [|split; [done | discriminate]].
  destruct (digitRun 0 (c :: t)) as [[v n] r] eqn:E.
  split; [done|]. intros v' r' [= <- <-].
  pose proof (digitRun_length _ _ _ _ _ E) as Hlen.
  simpl in E. rewrite Hc in E.
  destruct (digitRun _ t) as [[v2 n2] r2]. injection E as <- <- <-.
  simpl in Hlen |- *. lia.
Qed.

Lemma fraction_total i s :
  fraction i s <> OutOfFuel /\
  forall v r, fraction i s = Ok v r -> length r <= length s.
Proof.
  unfold fraction. destruct s as [|c t].
  { split; [done|]. now intros v r [= <- <-]. }
  destruct (c =? 46)%N.
  - destruct (digitRun i t) as [[v [|n]] r] eqn:E;
      [split; [done | discriminate]|].
    split; [done|]. intros v' r' [= <- <-].
    apply digitRun_length in E. simpl. lia.
  - split; [done|]. now intros v r [= <- <-].
Qed.

Lemma exponent_total s :
  exponent s <> OutOfFuel /\
  forall v r, exponent s = Ok v r -> length r <= length s.
Proof.
  unfold exponent. destruct s as [|c t].
  { split; [done|]. now intros v r [= <- <-]. }
  destruct ((c =? 101)%N || (c =? 69)%N).
  - destruct (exponentSign t) as [sign t'] eqn:Hsign.
    assert (Ht' : length t' <= length t).
    { unfold exponentSign in Hsign. destruct t as [|d t2].
      - now injection Hsign as <- <-.
      - destruct (d =? 45)%N; [injection Hsign as <- <-; simpl; lia|].
        destruct (d =? 43)%N; injection Hsign as <- <-; simpl; lia. }
    destruct (digitRun 0 t') as [[v [|n]] r] eqn:E;
      [split; [done | discriminate]|].
    split; [done|]. intros v' r' [= <- <-].
    apply digitRun_length in E. simpl. lia.
  - split; [done|]. now intros v r [= <- <-].
Qed.

Lemma numberLiteral_total s :
  numberLiteral s <> OutOfFuel /\
  forall d r, numberLiteral s = Ok d r -> length r < length s.
Proof.
  unfold numberLiteral.
  set (p := match s with
            | c :: t => if (c =? 45)%N then (true, t) else (false, s)
            | [] => (false, s)
            end).
  assert (Hp : length (snd p) <= length s).
  { subst p. destruct s as [|c t]; [done|].
    destruct (c =? 45)%N; simpl; lia. }
  destruct p as [sign s1]. simpl in Hp.
  destruct (integerPart_total s1) as [Hif Hil].
  destruct (integerPart s1) as [i s2| |]; [|split; [done | discriminate]|done].
  specialize (Hil _ _ eq_refl).
  destruct (fraction_total i s2) as [Hff Hfl].
  destruct (fraction i s2) as [[m e1] s3| |];
    [|split; [done | discriminate]|done].
  specialize (Hfl _ _ eq_refl).
  destruct (exponent_total s3) as [Hef Hel].
  destruct (exponent s3) as [e2 s4| |]; [|split; [done | discriminate]|done].
  specialize (Hel _ _ eq_refl).
  split; [done|]. intros d r [= <- <-]. lia.
Qed.

Lemma keyword_length w :
  forall s r, keyword w s = Some r -> length r + length w = length s.
Proof.
  induction w as [|a w IH]; intros s r; simpl.
  - intros [= <-]. lia.
  - destruct s as [|b s]; [discriminate|].
    destruct (a =? b)%N; [|discriminate].
    intros H. apply IH in H. simpl. lia.
Qed.

Lemma literal_total w v s :
  w <> [] ->
  literal w v s <> OutOfFuel /\
  forall v' r, literal w v s = Ok v' r -> length r < length s.
Proof.
  intros Hw. unfold literal.
  destruct (keyword w s) as [r|] eqn:E; [|split; [done | discriminate]].
  split; [done|]. intros v' r' [= <- <-].
  apply keyword_length in E. destruct w; [done|]. simpl in E. lia.
Qed.

Lemma wrap_total {A} (f : A -> JSON) (x : result A) (s : jsstring) :
  (x <> OutOfFuel /\ forall v r, x = Ok v r -> length r < length s) ->
  wrap f x <> OutOfFuel /\
  forall v r, wrap f x = Ok v r -> length r < length s.
Proof.
  intros [Hf Hl]. destruct x as [v r| |]; simpl; [|split; [done | discriminate]|done].
  split; [done|]. intros v' r' [= <- <-]. eauto.
Qed.

(** Along the descent the fuel never runs out when it starts at twice
    the length of the text (plus two), and every value, element list and
    member list read takes at least one code unit. *)
Lemma descent_total n :
  (forall s,
     (2 * length s + 1 <= n -> value n s <> OutOfFuel) /\
     forall v r, value n s = Ok v r -> length r < length s) /\
  (forall s acc,
     (2 * length s + 2 <= n -> elements n s acc <> OutOfFuel) /\
     forall v r, elements n s acc = Ok v r -> length r < length s) /\
  (forall s acc,
     (2 * length s + 2 <= n -> members n s acc <> OutOfFuel) /\
     forall v r, members n s acc = Ok v r -> length r < length s).
Proof.
  induction n as [|n (IHv & IHe & IHm)].
  { repeat split; simpl; try discriminate; lia. }
  split; [|split].
  - intros s. cbn [value]. pose proof (skipWs_length s) as Hsk.
    destruct (skipWs s) as [|c s1]; [split; [done | discriminate]|].
    simpl in Hsk.
    assert (Hsub : forall (x : result JSON),
              (x <> OutOfFuel /\
               forall v r, x = Ok v r -> length r < length (c :: s1)) ->
              (2 * length s + 1 <= S n -> x <> OutOfFuel) /\
              forall v r, x = Ok v r -> length r < length s).
    { intros x [Hf Hl]. split; [done|].
      intros v r H. apply Hl in H. simpl in H. lia. }
    destruct (c =? 91)%N.
    { destruct (nextIs 93%N s1) as [s2|] eqn:E.
      - apply nextIs_length in E. split; [done|].
        intros v r [= <- <-]. lia.
      - destruct (IHe s1 []) as [Hf Hl]. split.
        + intros Hn. apply Hf. lia.
        + intros v r H. apply Hl in H. lia. }
    destruct (c =? 123)%N.
    { destruct (nextIs 125%N s1) as [s2|] eqn:E.
      - apply nextIs_length in E. split; [done|].
        intros v r [= <- <-]. lia.
      - destruct (IHm s1 []) as [Hf Hl]. split.
        + intros Hn. apply Hf. lia.
        + intros v r H. apply Hl in H. lia. }
    destruct (c =? 34)%N.
    { apply Hsub, wrap_total.
      destruct (stringBody_total (length s1) s1 ltac:(lia)) as [Hf Hl].
      split; [done|]. intros v r H. apply Hl in H. simpl. lia. }
    destruct (c =? 110)%N; [now apply Hsub, literal_total|].
    destruct (c =? 116)%N; [now apply Hsub, literal_total|].
    destruct (c =? 102)%N; [now apply Hsub, literal_total|].
    destruct (isDigit c || (c =? 45)%N); [|split; [done | discriminate]].
    apply Hsub, wrap_total, numberLiteral_total.
  - intros s acc. cbn [elements]. destruct (IHv s) as [Hvf Hvl].
    destruct (value n s) as [v r| |]; [|split; [done | discriminate]|].
    + specialize (Hvl _ _ eq_refl).
      destruct (nextIs 44%N r) as [r'|] eqn:E.
      * apply nextIs_length in E.
        destruct (IHe r' (v :: acc)) as [Hf Hl]. split.
        -- intros Hn. apply Hf. lia.
        -- intros v' r'' H. apply Hl in H. lia.
      * destruct (nextIs 93%N r) as [r'|] eqn:E';
          [|split; [done | discriminate]].
        apply nextIs_length in E'. split; [done|].
        intros v' r'' [= <- <-]. lia.
    + split; [|discriminate]. intros Hn _. apply Hvf; [lia | done].
  - intros s acc. cbn [members].
    destruct (nextIs 34%N s) as [s1|] eqn:E1; [|split; [done | discriminate]].
    apply nextIs_length in E1.
    destruct (stringBody_total (length s1) s1 ltac:(lia)) as [Hsf Hsl].
    destruct (stringBody s1) as [key s2| |];
      [|split; [done | discriminate]|done].
    specialize (Hsl _ _ eq_refl).
    destruct (nextIs 58%N s2) as [s3|] eqn:E3; [|split; [done | discriminate]].
    apply nextIs_length in E3.
    destruct (IHv s3) as [Hvf Hvl].
    destruct (value n s3) as [v r| |]; [|split; [done | discriminate]|].
    + specialize (Hvl _ _ eq_refl).
      destruct (nextIs 44%N r) as [r'|] eqn:E.
      * apply nextIs_length in E.
        destruct (IHm r' ((key, v) :: acc)) as [Hf Hl]. split.
        -- intros Hn. apply Hf. lia.
        -- intros v' r'' H. apply Hl in H. lia.
      * destruct (nextIs 125%N r) as [r'|] eqn:E';
          [|split; [done | discriminate]].
        apply nextIs_length in E'. split; [done|].
        intros v' r'' [= <- <-]. lia.
    + split; [|discriminate]. intros Hn _. apply Hvf; [lia | done].
Qed.

(** [JSON.parse] never gives up for want of fuel: [None] always stands
    for a syntax error. *)
Lemma parse_fuel_enough text :
  parseWith (2 * length text + 2) text <> OutOfFuel.
Proof.
  unfold parseWith.
  destruct (descent_total (2 * length text + 2)) as (Hv & _).
  destruct (Hv text) as [Hf _].
  destruct (value _ text) as [v r| |]; [|done|].
  - now destruct (skipWs r).
  - intros _. apply Hf; [lia | done].
Qed.

End JSONFacts.


(** * Further properties *)

(** ** The store: delete, update, regenerate, add *)

(** X1. Deleting a question changes nothing in a validated quiz; otherwise
    it keeps exactly the questions with another id, in their order. *)
Theorem handleDeleteQuestion_effect (questionId : jsstring) (st : App.State) :
  let st' := App.handleDeleteQuestion questionId st in
  (App.isQuizValidated st = true -> st' = st) /\
  (App.isQuizValidated st = false ->
   (forall q, q ∈ App.editableQuiz st' <->
              q ∈ App.editableQuiz st /\ QuizQuestion.id q <> questionId) /\
   sublist (App.editableQuiz st') (App.editableQuiz st) /\
   App.quizSettings st' = App.quizSettings st /\
   App.error st' = App.error st).
Proof.
  unfold App.handleDeleteQuestion.
  destruct (App.isQuizValidated st); simpl.
  - split; [done | discriminate].
  - split; [discriminate|]. intros _. unfold jsfilter.
    split; [|split; [apply sublist_filter | done]].
    intros q. rewrite list_elem_of_filter, negb_true_iff, questionHasId_false.
    tauto.
Qed.

(** X2. Two updates with the same id in a row come to the second one. *)
Theorem handleUpdateQuestion_twice (u1 u2 : QuizQuestion.t) (st : App.State) :
  QuizQuestion.id u1 = QuizQuestion.id u2 ->
  App.handleUpdateQuestion u2 (App.handleUpdateQuestion u1 st)
  = App.handleUpdateQuestion u2 st.
Proof.
  intros Hid. unfold App.handleUpdateQuestion.
  destruct (App.isQuizValidated st) eqn:Hv; simpl; rewrite Hv; [done|].
  unfold App.setEditableQuiz. simpl. f_equal.
  rewrite <- list_fmap_compose. apply list_fmap_ext. intros i q _. simpl.
  destruct (App.questionHasId (QuizQuestion.id u1) q) eqn:E1.
  - rewrite Hid in E1. rewrite E1.
    assert (App.questionHasId (QuizQuestion.id u2) u1 = true) as ->; [|done].
    now apply questionHasId_true.
  - done.
Qed.

(** X3. Deleting the alternative that a regeneration has just inserted
    gives the quiz list back, when no other question carries the id of the
    alternative. *)
Theorem regenerate_then_delete (originalQuestionId : jsstring)
    (newQuestion : QuizQuestion.t) (st : App.State) :
  App.isQuizValidated st = false ->
  (forall q, q ∈ App.editableQuiz st ->
             QuizQuestion.id q <> QuizQuestion.id newQuestion) ->
  App.editableQuiz
    (App.handleDeleteQuestion (QuizQuestion.id newQuestion)
       (App.regenerateReply originalQuestionId
          (App.Resolved (Some newQuestion)) st))
  = App.editableQuiz st.
Proof.
  intros Hv Hfresh. unfold App.handleDeleteQuestion. simpl. rewrite Hv. simpl.
  assert (Hkeep : forall l : list QuizQuestion.t,
            (forall q, q ∈ l -> QuizQuestion.id q <> QuizQuestion.id newQuestion) ->
            jsfilter (fun q => negb (App.questionHasId
                                       (QuizQuestion.id newQuestion) q)) l = l).
  { intros l Hl. unfold jsfilter. induction l as [|q l IH]; [done|].
    rewrite filter_cons_True.
    - f_equal. apply IH. intros q' Hq'. apply Hl. now right.
    - apply negb_true_iff, questionHasId_false, Hl. now left. }
  unfold App.insertAfter.
  destruct (findIndex _ _) as [i|]; [|now apply Hkeep].
  unfold splice, jsfilter. rewrite !filter_app, filter_cons_False.
  2:{ rewrite negb_true_iff, not_false_iff_true. now apply questionHasId_true. }
  rewrite filter_nil. simpl. rewrite <- filter_app.
  rewrite Nat.add_0_r, take_drop. now apply Hkeep.
Qed.

(** X4. A batch of additional questions is appended: the questions already
    there keep their index, the new ones follow in order, and the question
    count of the settings grows by the size of the batch.  An empty or
    missing batch and a failed request leave the list as it is and set an
    error.  In every case the adding flag is cleared. *)
Theorem addMoreReply_effect
    (reply : App.Reply (option (list QuizQuestion.t))) (st : App.State) :
  let st' := App.addMoreReply reply st in
  App.isAddingMoreQuestions st' = false /\
  (forall q qs, reply = App.Resolved (Some (q :: qs)) ->
     App.editableQuiz st' = App.editableQuiz st ++ q :: qs /\
     (forall i, i < length (App.editableQuiz st) ->
        App.editableQuiz st' !! i = App.editableQuiz st !! i) /\
     numQuestions <$> App.quizSettings st'
       = (fun s => numQuestions s + Z.of_nat (length (q :: qs)))%Z
           <$> App.quizSettings st /\
     App.error st' = App.error st) /\
  ((reply = App.Resolved None \/ reply = App.Resolved (Some []) \/
    exists message, reply = App.Rejected message) ->
   App.editableQuiz st' = App.editableQuiz st /\
   App.quizSettings st' = App.quizSettings st /\
   App.error st' <> None).
Proof.
  cbv zeta. split; [|split].
  - now destruct reply as [[[|q qs]|]|m].
  - intros q qs ->. cbn. split; [done|]. split; [|split; [|done]].
    + intros i Hi. now apply lookup_app_l.
    + now destruct (App.quizSettings st).
  - intros [-> | [-> | [m ->]]]; cbn; done.
Qed.

(** X5. A question committed by the editor never spoils validation: if the
    store validates before the update, it validates after it. *)
Theorem committed_update_keeps_valid
    (question : QuizQuestion.t) (ed ed' : Editor.State)
    (warning : option Editor.Alert) (updated : QuizQuestion.t)
    (st : App.State) :
  Editor.handleSaveChanges question ed
    = Editor.SaveCommitted warning ed' updated ->
  snd (App.handleValidateQuiz st) = None ->
  snd (App.handleValidateQuiz (App.handleUpdateQuestion updated st)) = None.
Proof.
  intros Hsave Hvalid.
  assert (Hu : existsb QuizOption.isCorrect (QuizQuestion.options updated) = true).
  { apply handleSaveChanges_committed in Hsave
      as (Hnz & _ & _ & Hopts & _ & Hcase).
    rewrite Hopts.
    assert (Hnz' : correctCount (Editor.editedOptions ed') <> 0).
    { destruct Hcase as [(_ & Hgt & ->) | (_ & ->)]; [|done].
      destruct (first_correct_split _ Hnz) as (l1 & o & l2 & Hsplit & Hl1 & Ho).
      rewrite Hsplit, keepFirstCorrect_split by done.
      rewrite correctCount_app, correctCount_cons, Ho. lia. }
    destruct (first_correct_split _ Hnz') as (l1 & o & l2 & -> & _ & Ho).
    apply existsb_exists. exists o. split; [|done].
    apply in_or_app. right. now left. }
  unfold App.handleUpdateQuestion.
  destruct (App.isQuizValidated st); [done|].
  revert Hvalid. unfold App.handleValidateQuiz. simpl.
  destruct (App.editableQuiz st) as [|q0 qs] eqn:Hquiz; [discriminate|].
  assert (Hne : App.editableQuiz st <> []) by (rewrite Hquiz; discriminate).
  rewrite <- Hquiz. clear Hquiz q0 qs.
  destruct (forallb _ (App.editableQuiz st)) eqn:Hall; [|discriminate].
  intros _.
  destruct (_ <$> App.editableQuiz st) as [|q0 qs] eqn:Hmap.
  { now apply fmap_nil_inv in Hmap. }
  rewrite <- Hmap. clear Hmap q0 qs.
  assert (forallb (fun q => existsb QuizOption.isCorrect (QuizQuestion.options q))
            ((fun q => if App.questionHasId (QuizQuestion.id updated) q
                       then updated else q) <$> App.editableQuiz st) = true)
    as ->; [|done].
  rewrite forallb_forall in Hall. apply forallb_forall. intros q Hq.
  apply list_elem_of_In, list_elem_of_fmap in Hq as (q' & -> & Hq').
  destruct (App.questionHasId _ q'); [done|].
  apply Hall. now apply list_elem_of_In.
Qed.

(** ** The editor: marking options, editing texts, saving twice *)

Section EditorMoreFacts.
Import Editor.

Lemma hasId_true optionId opt :
  hasId optionId opt = true <-> QuizOption.id opt = optionId.
Proof. unfold hasId, id_eqb. apply bool_decide_eq_true. Qed.

Lemma hasId_false optionId opt :
  hasId optionId opt = false <-> QuizOption.id opt <> optionId.
Proof. unfold hasId, id_eqb. apply bool_decide_eq_false. Qed.

Lemma correctCount_fmap (f : QuizOption.t -> QuizOption.t) opts :
  (forall o, QuizOption.isCorrect (f o) = QuizOption.isCorrect o) ->
  correctCount (f <$> opts) = correctCount opts.
Proof.
  intros Hf. induction opts as [|o opts IH]; [done|].
  now rewrite fmap_cons, !correctCount_cons, Hf, IH.
Qed.

Lemma correctCount_insert opts i target b :
  opts !! i = Some target ->
  correctCount (<[i := setCorrect b target]> opts)
  + (if QuizOption.isCorrect target then 1 else 0)
  = correctCount opts + (if b then 1 else 0).
Proof.
  revert i. induction opts as [|o opts IH]; intros [|i]; simpl; try done.
  - intros [= ->]. rewrite !correctCount_cons. simpl. lia.
  - intros H. rewrite !correctCount_cons. specialize (IH i H). lia.
Qed.

Lemma correctCount_filter (P : QuizOption.t -> bool) opts :
  correctCount (jsfilter P opts) <= correctCount opts.
Proof.
  unfold jsfilter. induction opts as [|o opts IH]; [done|].
  destruct (P o) eqn:E.
  - rewrite filter_cons_True by done. rewrite !correctCount_cons. lia.
  - rewrite filter_cons_False by congruence. rewrite correctCount_cons. lia.
Qed.

Lemma correctCount_keepFirstCorrect opts :
  correctCount opts <> 0 -> correctCount (keepFirstCorrect false opts) = 1.
Proof.
  intros Hnz.
  destruct (first_correct_split _ Hnz) as (l1 & o & l2 & -> & Hl1 & Ho).
  rewrite keepFirstCorrect_split by done.
  rewrite correctCount_app, correctCount_cons, Ho, correctCount_cleared.
  apply correctCount_zero in Hl1. lia.
Qed.

Lemma optionTexts_fmap (f : QuizOption.t -> QuizOption.t) opts :
  (forall o, QuizOption.text (f o) = QuizOption.text o) ->
  optionTexts (f <$> opts) = optionTexts opts.
Proof.
  intros Hf. unfold optionTexts. rewrite <- list_fmap_compose.
  apply list_fmap_ext. intros i o _. apply Hf.
Qed.

Lemma optionTexts_insert opts i target b :
  opts !! i = Some target ->
  optionTexts (<[i := setCorrect b target]> opts) = optionTexts opts.
Proof.
  intros H. unfold optionTexts. rewrite list_fmap_insert. simpl.
  apply list_insert_id. now rewrite list_lookup_fmap, H.
Qed.

Lemma optionTexts_keepFirstCorrect found opts :
  optionTexts (keepFirstCorrect found opts) = optionTexts opts.
Proof.
  revert found. induction opts as [|o opts IH]; intros found; [done|].
  simpl. destruct (QuizOption.isCorrect o), found; simpl;
    unfold optionTexts in *; rewrite ?fmap_cons, IH; done.
Qed.

Lemma someOptionTextEmpty_texts opts opts' :
  optionTexts opts = optionTexts opts' ->
  someOptionTextEmpty opts = someOptionTextEmpty opts'.
Proof.
  revert opts'. induction opts as [|o opts IH]; intros [|o' opts'];
    try discriminate; [done|].
  unfold optionTexts. rewrite !fmap_cons. intros [= Ht Hrest].
  simpl. rewrite Ht. destruct (trimsToEmpty _) as [[]|]; try done.
  now apply IH.
Qed.

(** What a click on a checkbox does to the option list. *)
Lemma handleOptionCorrectChange_found question optionId st i target :
  findIndex (hasId optionId) (editedOptions st) = Some i ->
  editedOptions st !! i = Some target ->
  editedOptions (handleOptionCorrectChange question optionId st) =
  if negb (QuizQuestion.isMultipleChoice question)
     && negb (QuizOption.isCorrect target)
  then <[i := setCorrect true target]> (setCorrect false <$> editedOptions st)
  else <[i := setCorrect (negb (QuizOption.isCorrect target)) target]>
         (editedOptions st).
Proof.
  intros Hfind Ht. unfold handleOptionCorrectChange. rewrite Hfind, Ht.
  destruct (negb _ && negb _) eqn:E.
  - rewrite list_lookup_fmap, Ht. done.
  - now rewrite Ht.
Qed.

End EditorMoreFacts.

(** X6. In a single-answer question, a click on an option that is not
    marked correct leaves exactly one option marked: the first option
    carrying the clicked id.  Identifiers and texts are untouched. *)
Theorem single_answer_click_selects
    (question : QuizQuestion.t) (optionId : jsstring) (st : Editor.State)
    (i : nat) (target : QuizOption.t) :
  QuizQuestion.isMultipleChoice question = false ->
  Editor.editedOptions st !! i = Some target ->
  QuizOption.id target = optionId ->
  (forall j o, j < i -> Editor.editedOptions st !! j = Some o ->
               QuizOption.id o <> optionId) ->
  QuizOption.isCorrect target = false ->
  let st' := Editor.handleOptionCorrectChange question optionId st in
  correctCount (Editor.editedOptions st') = 1 /\
  Editor.editedOptions st' !! i = Some (Editor.setCorrect true target) /\
  optionIds (Editor.editedOptions st') = optionIds (Editor.editedOptions st) /\
  optionTexts (Editor.editedOptions st')
    = optionTexts (Editor.editedOptions st) /\
  Editor.editedQuestionText st' = Editor.editedQuestionText st.
Proof.
  intros Hsingle Ht Hid Hfirst Hc st'.
  assert (Hfind : findIndex (Editor.hasId optionId) (Editor.editedOptions st)
                  = Some i).
  { apply findIndex_Some. exists target. repeat split; auto.
    - now apply hasId_true.
    - intros j o Ho Hj. apply hasId_false. eauto. }
  assert (Hopts := handleOptionCorrectChange_found question _ _ _ _ Hfind Ht).
  rewrite Hsingle, Hc in Hopts. simpl in Hopts. fold st' in Hopts.
  assert (Ht' : (Editor.setCorrect false <$> Editor.editedOptions st) !! i
                = Some (Editor.setCorrect false target))
    by now rewrite list_lookup_fmap, Ht.
  assert (Hsame : Editor.setCorrect true target
                  = Editor.setCorrect true (Editor.setCorrect false target))
    by done.
  rewrite Hopts. split; [|split; [|split; [|split]]].
  - pose proof (correctCount_insert _ i _ true Ht') as H.
    rewrite <- Hsame in H. simpl in H. rewrite correctCount_cleared in H. lia.
  - apply list_lookup_insert_eq. rewrite length_fmap.
    now apply lookup_lt_Some in Ht.
  - rewrite Hsame, (optionIds_insert _ _ _ _ Ht'). now apply optionIds_fmap.
  - rewrite Hsame, (optionTexts_insert _ _ _ _ Ht'). now apply optionTexts_fmap.
  - subst st'. unfold Editor.handleOptionCorrectChange.
    rewrite Hfind, Ht, Hsingle, Hc. simpl. now rewrite list_lookup_fmap, Ht.
Qed.

(** X7. In a multi-answer question a click toggles one option only, and a
    second click on the same option restores the editor state. *)
Theorem multi_answer_click_twice
    (question : QuizQuestion.t) (optionId : jsstring) (st : Editor.State) :
  QuizQuestion.isMultipleChoice question = true ->
  Editor.handleOptionCorrectChange question optionId
    (Editor.handleOptionCorrectChange question optionId st) = st.
Proof.
  intros Hmulti. destruct st as [txt opts].
  unfold Editor.handleOptionCorrectChange at 2. simpl.
  destruct (findIndex (Editor.hasId optionId) opts) as [i|] eqn:Hfind.
  2:{ unfold Editor.handleOptionCorrectChange. simpl. now rewrite Hfind. }
  pose proof Hfind as Hfind'.
  apply findIndex_Some in Hfind' as (target & Ht & Hid & Hfirst).
  rewrite Ht, Hmulti. simpl. rewrite Ht.
  set (target' := Editor.setCorrect (negb (QuizOption.isCorrect target)) target).
  set (opts' := <[i := target']> opts).
  assert (Hi : i < length opts) by now apply lookup_lt_Some in Ht.
  assert (Ht' : opts' !! i = Some target')
    by now apply list_lookup_insert_eq.
  assert (Hfind2 : findIndex (Editor.hasId optionId) opts' = Some i).
  { apply findIndex_Some. exists target'. repeat split; auto.
    intros j o Ho Hj. subst opts'.
    rewrite list_lookup_insert_ne in Ho by lia. eauto. }
  unfold Editor.handleOptionCorrectChange. simpl.
  rewrite Hfind2, Ht', Hmulti. simpl. rewrite Ht'. f_equal.
  subst opts'. rewrite list_insert_insert_eq.
  apply list_insert_id. rewrite Ht. f_equal.
  destruct target as [tid ttext tc]. unfold Editor.setCorrect. simpl.
  now rewrite negb_involutive.
Qed.

(** X8. Editing the text of the question or of an option never changes the
    identifiers of the options, their number, or which ones are marked
    correct. *)
Theorem text_edits_keep_marks
    (optionId newText value : jsstring) (st : Editor.State) :
  let st1 := Editor.handleOptionTextChange optionId newText st in
  let st2 := Editor.handleQuestionTextChange value st in
  optionIds (Editor.editedOptions st1) = optionIds (Editor.editedOptions st) /\
  optionFlags (Editor.editedOptions st1)
    = optionFlags (Editor.editedOptions st) /\
  Editor.editedQuestionText st1 = Editor.editedQuestionText st /\
  (forall o, o ∈ Editor.editedOptions st1 ->
             QuizOption.id o = optionId ->
             QuizOption.text o = JString newText) /\
  Editor.editedOptions st2 = Editor.editedOptions st.
Proof.
  cbv zeta. unfold Editor.handleOptionTextChange. simpl.
  split; [|split; [|split; [done|split; [|done]]]].
  - apply optionIds_fmap. intros o. now destruct (Editor.hasId optionId o).
  - unfold optionFlags. rewrite <- list_fmap_compose.
    apply list_fmap_ext. intros i o _. simpl.
    now destruct (Editor.hasId optionId o).
  - intros o Ho Hid. apply list_elem_of_fmap in Ho as (o' & -> & _).
    destruct (Editor.hasId optionId o') eqn:E; [done|].
    apply hasId_false in E. contradiction.
Qed.

(** X9. Saving again right after a committed save commits the same
    question, without a warning and without changing the editor. *)
Theorem handleSaveChanges_again
    (question : QuizQuestion.t) (st st' : Editor.State)
    (warning : option Editor.Alert) (updated : QuizQuestion.t) :
  Editor.handleSaveChanges question st
    = Editor.SaveCommitted warning st' updated ->
  Editor.handleSaveChanges updated st'
    = Editor.SaveCommitted None st' updated.
Proof.
  intros Hsave. pose proof Hsave as Hshape.
  apply handleSaveChanges_committed in Hshape
    as (Hnz & Hid & Hmc & Hopts & Htxt & Hcase).
  assert (Htexts : optionTexts (Editor.editedOptions st')
                   = optionTexts (Editor.editedOptions st)).
  { destruct Hcase as [(_ & _ & ->) | (_ & ->)]; [|done].
    apply optionTexts_keepFirstCorrect. }
  assert (Hcount : correctCount (Editor.editedOptions st') <> 0 /\
                   (QuizQuestion.isMultipleChoice question = true \/
                    correctCount (Editor.editedOptions st') = 1)).
  { destruct Hcase as [(_ & _ & ->) | ([Hm | H1] & ->)].
    - rewrite correctCount_keepFirstCorrect by done. split; [lia | now right].
    - split; [done | now left].
    - split; [done | now right]. }
  destruct Hcount as [Hnz' Hone].
  assert (Hupd : updated = Editor.withEdits updated
                   (Editor.editedQuestionText st') (Editor.editedOptions st')).
  { revert Hsave. unfold Editor.handleSaveChanges.
    destruct (Editor.trimsToEmpty _) as [[]|]; try discriminate.
    destruct (Editor.someOptionTextEmpty _) as [[]|]; try discriminate.
    destruct (_ =? 0)%nat; [discriminate|].
    destruct (negb _ && _); intros [= <- <- <-]; done. }
  revert Hsave. unfold Editor.handleSaveChanges.
  rewrite Htxt, (someOptionTextEmpty_texts _ _ Htexts).
  destruct (Editor.trimsToEmpty _) as [[]|]; try discriminate.
  destruct (Editor.someOptionTextEmpty _) as [[]|]; try discriminate.
  intros _. fold (correctCount (Editor.editedOptions st')).
  rewrite (proj2 (Nat.eqb_neq _ 0) Hnz'), Hmc.
  assert (negb (QuizQuestion.isMultipleChoice question)
          && (1 <? correctCount (Editor.editedOptions st'))%nat = false) as ->.
  { destruct Hone as [-> | ->]; [done|]. now rewrite andb_false_r. }
  now rewrite <- Htxt, <- Hupd.
Qed.

Section RadioFacts.
Import Editor.
Variable structuredCopy : JSON -> JSON.

Lemma correctCount_copy opts :
  correctCount (Card.copyOptions structuredCopy opts) = correctCount opts.
Proof. now apply correctCount_fmap. Qed.

Lemma correctCount_click question optionId st :
  QuizQuestion.isMultipleChoice question = false ->
  correctCount (editedOptions st) <= 1 ->
  correctCount (editedOptions (handleOptionCorrectChange question optionId st))
  <= 1.
Proof.
  intros Hsingle Hle.
  destruct (findIndex (hasId optionId) (editedOptions st)) as [i|] eqn:Hfind.
  2:{ unfold handleOptionCorrectChange. now rewrite Hfind. }
  pose proof Hfind as Hfind'.
  apply findIndex_Some in Hfind' as (target & Ht & _).
  rewrite (handleOptionCorrectChange_found _ _ _ _ _ Hfind Ht), Hsingle.
  simpl. destruct (QuizOption.isCorrect target) eqn:Hc; simpl.
  - pose proof (correctCount_insert _ i _ false Ht) as H.
    rewrite Hc in H. lia.
  - assert (Ht' : (setCorrect false <$> editedOptions st) !! i
                  = Some (setCorrect false target))
      by now rewrite list_lookup_fmap, Ht.
    pose proof (correctCount_insert _ i _ true Ht') as H.
    simpl in H. rewrite correctCount_cleared in H.
    change (setCorrect true (setCorrect false target))
      with (setCorrect true target) in H. lia.
Qed.

Lemma radioInv_step op c :
  radioInv c -> radioInv (Card.step structuredCopy op c).
Proof.
  intros (Hsingle & Hq & Hed).
  destruct op as [value | optionId newText | optionId | optionId |];
    unfold Card.step.
  - now destruct (Card.isReadOnly c).
  - destruct (Card.isReadOnly c); [done|].
    split; [done|]. split; [done|]. simpl.
    rewrite correctCount_fmap; [done|].
    intros o. now destruct (hasId optionId o).
  - destruct (Card.isReadOnly c); [done|].
    split; [done|]. split; [done|]. simpl. now apply correctCount_click.
  - destruct (Card.isReadOnly c); [done|].
    split; [done|]. split; [done|]. simpl. unfold deleteOption.
    destruct (_ <=? 2)%nat; simpl; [done|].
    etransitivity; [apply correctCount_filter | done].
  - destruct (handleSaveChanges _ _) as [| |warning st' updated] eqn:Hsave;
      [done|done|].
    apply handleSaveChanges_committed in Hsave
      as (Hnz & _ & Hmc & Hopts & _ & Hcase).
    assert (Hst' : correctCount (editedOptions st') <= 1).
    { destruct Hcase as [(_ & _ & ->) | (_ & ->)]; [|done].
      now rewrite correctCount_keepFirstCorrect. }
    destruct (Card.isReadOnly c).
    + done.
    + unfold radioInv, Card.sync. simpl.
      rewrite correctCount_copy, Hopts, Hmc. done.
Qed.

Lemma radioInv_run ops c :
  radioInv c -> radioInv (Card.run structuredCopy ops c).
Proof.
  unfold Card.run. revert c.
  induction ops as [|op ops IH]; intros c Hinv; [done|].
  simpl. apply IH. now apply radioInv_step.
Qed.

End RadioFacts.

(** X10. A single-answer question that starts with at most one option
    marked correct has at most one option marked correct, in the store and
    in the editor, after every sequence of editing operations. *)
Theorem single_answer_stays_single
    (structuredCopy : JSON -> JSON) (q : QuizQuestion.t) (readOnly : bool)
    (ops : list Card.Op) :
  QuizQuestion.isMultipleChoice q = false ->
  correctCount (QuizQuestion.options q) <= 1 ->
  let c := Card.run structuredCopy ops (Card.mount structuredCopy q readOnly) in
  correctCount (QuizQuestion.options (Card.question c)) <= 1 /\
  correctCount (Editor.editedOptions (Card.local c)) <= 1.
Proof.
  intros Hsingle Hle c.
  destruct (radioInv_run structuredCopy ops
              (Card.mount structuredCopy q readOnly)) as (_ & H1 & H2);
    [|done].
  split; [done|]. split; [done|]. simpl. now rewrite correctCount_copy.
Qed.

(** ** The parser: the identifiers it hands out *)

Section IdFacts.
Import Gemini.

Lemma nextIds_app e n m :
  nextIds e (n + m) = nextIds e n ++ nextIds (afterDraws e n) m.
Proof. unfold nextIds, afterDraws. simpl. now rewrite seq_app, fmap_app. Qed.

Lemma afterDraws_afterDraws e n m :
  afterDraws (afterDraws e n) m = afterDraws e (n + m).
Proof. unfold afterDraws. simpl. f_equal. lia. Qed.

Lemma afterDraws_0 e : afterDraws e 0 = e.
Proof. destruct e. unfold afterDraws. simpl. f_equal. lia. Qed.

(** A callback that uses up the identifiers it puts into its result does
    so for the whole list. *)
Lemma mapIndexed_ids {A B} (f : A -> nat -> Eff B) (ids : B -> list jsstring) :
  (forall a k e b e', f a k e = (Some b, e') ->
     ids b = nextIds e (length (ids b)) /\
     e' = afterDraws e (length (ids b))) ->
  forall l i e bs e',
    mapIndexed f i l e = (Some bs, e') ->
    concat (ids <$> bs) = nextIds e (length (concat (ids <$> bs))) /\
    e' = afterDraws e (length (concat (ids <$> bs))).
Proof.
  intros Hf. induction l as [|a l IH]; intros i e bs e'.
  - cbn. intros [= <- <-]. simpl. now rewrite afterDraws_0.
  - cbn [mapIndexed]. unfold bind at 1.
    destruct (f a i e) as [[b|] e1] eqn:Hb; [|discriminate].
    unfold bind at 1.
    destruct (mapIndexed f (S i) l e1) as [[bs'|] e2] eqn:Hm; [|discriminate].
    unfold ret. intros [= <- <-].
    destruct (Hf _ _ _ _ _ Hb) as [Hids ->].
    destruct (IH _ _ _ _ Hm) as [Hrest ->].
    rewrite fmap_cons. simpl. rewrite length_app, nextIds_app.
    rewrite <- Hids, <- Hrest. now rewrite afterDraws_afterDraws.
Qed.

Lemma toOption_ids opt k e o e' :
  toOption opt k e = (Some o, e') ->
  [QuizOption.id o] = nextIds e 1 /\ e' = afterDraws e 1.
Proof.
  unfold toOption, bind, randomUUID. rewrite getProp_field.
  destruct (isNull opt) eqn:Hnull; [discriminate|].
  rewrite getProp_field, Hnull. unfold ret. intros [= <- <-].
  unfold afterDraws. simpl. split; [done|]. f_equal. lia.
Qed.

Lemma concat_singletons (os : list QuizOption.t) :
  concat ((fun o => [QuizOption.id o]) <$> os) = optionIds os.
Proof.
  unfold optionIds. induction os as [|o os IH]; [done|].
  rewrite !fmap_cons. simpl. now f_equal.
Qed.

Lemma toQuestion_ids j k e q e' :
  toQuestion j k e = (Some q, e') ->
  questionIds q = nextIds e (length (questionIds q)) /\
  e' = afterDraws e (length (questionIds q)).
Proof.
  rewrite toQuestion_unfold. cbv zeta.
  destruct (isNull j); [discriminate|].
  change (mkEntropy (S (drawn e)) (uuids e)) with
    (mkEntropy (S (drawn e)) (uuids e)).
  assert (He1 : mkEntropy (S (drawn e)) (uuids e) = afterDraws e 1).
  { unfold afterDraws. f_equal. lia. }
  rewrite He1.
  assert (Hnone : forall q0 e0,
            (Some (QuizQuestion.mk (uuids e (drawn e))
                     (logicalOr (field j (str "questionText"))
                        (defaultQuestionText k)) []
                     (truthy (field j (str "isMultipleChoice")))),
             afterDraws e 1) = (Some q0, e0) ->
            questionIds q0 = nextIds e (length (questionIds q0)) /\
            e0 = afterDraws e (length (questionIds q0))).
  { intros q0 e0 [= <- <-]. done. }
  destruct (field j (str "options")) as [[| | | |opts|]|]; try apply Hnone.
  destruct (mapIndexed toOption 0 opts (afterDraws e 1)) as [[os|] e2] eqn:Hm;
    [|discriminate].
  intros [= <- <-].
  destruct (mapIndexed_ids toOption (fun o => [QuizOption.id o])
              ltac:(intros; eapply toOption_ids; eauto) _ _ _ _ _ Hm)
    as [Hids ->].
  rewrite concat_singletons in *. unfold questionIds. simpl.
  split.
  - change (S (length (optionIds os))) with (1 + length (optionIds os)).
    rewrite nextIds_app, <- Hids. done.
  - now rewrite afterDraws_afterDraws.
Qed.

End IdFacts.

(** The identifiers of a parsed quiz and the source it leaves. *)
Lemma parsed_ids_of jsonString e e' qs :
  Gemini.parseGeneratedQuiz jsonString e = (Some qs, e') ->
  quizIds qs = nextIds e (length (quizIds qs)) /\
  e' = afterDraws e (length (quizIds qs)).
Proof.
  unfold Gemini.parseGeneratedQuiz.
  destruct (JSONParser.parse _) as [[| | | |items|]|]; try discriminate.
  intros Hm.
  destruct (mapIndexed_ids Gemini.toQuestion questionIds toQuestion_ids
              _ _ _ _ _ Hm) as [Hids He'].
  now fold (quizIds qs) in Hids, He'.
Qed.

(** X11. The identifiers of a parsed quiz are the next identifiers of the
    source, in order -- each question takes one and then one per option --
    and the source is left after exactly these draws.  With a source that
    never repeats an identifier, all identifiers of the quiz are pairwise
    distinct, so in particular are the option identifiers of each
    question. *)
Theorem parsed_ids_fresh (jsonString : jsstring) (e e' : Gemini.Entropy)
    (qs : list QuizQuestion.t) :
  Gemini.parseGeneratedQuiz jsonString e = (Some qs, e') ->
  quizIds qs = nextIds e (length (quizIds qs)) /\
  e' = afterDraws e (length (quizIds qs)) /\
  ((forall i j, Gemini.uuids e i = Gemini.uuids e j -> i = j) ->
   NoDup (quizIds qs) /\
   forall q, q ∈ qs -> NoDup (optionIds (QuizQuestion.options q))).
Proof.
  unfold Gemini.parseGeneratedQuiz.
  destruct (JSONParser.parse _) as [[| | | |items|]|]; try discriminate.
  intros Hm.
  destruct (mapIndexed_ids Gemini.toQuestion questionIds toQuestion_ids
              _ _ _ _ _ Hm) as [Hids He'].
  fold (quizIds qs) in Hids, He'.
  split; [done|]. split; [done|]. intros Hinj.
  assert (Hnd : NoDup (quizIds qs)).
  { rewrite Hids. unfold nextIds. apply NoDup_fmap_2.
    - intros i j. apply Hinj.
    - apply NoDup_ListNoDup, List.seq_NoDup. }
  split; [done|]. intros q Hq.
  apply list_elem_of_split in Hq as (l1 & l2 & ->).
  unfold quizIds in Hnd. rewrite fmap_app, fmap_cons, concat_app in Hnd.
  apply NoDup_app in Hnd as (_ & _ & Hnd). cbn [concat] in Hnd.
  apply NoDup_app in Hnd as (Hnd & _ & _).
  unfold questionIds in Hnd. now apply NoDup_cons in Hnd as [_ Hnd].
Qed.

(** ** The LaTeX heuristic on whole responses *)

Section HeuristicFacts.
Import Gemini JSONParser.

Lemma isPlain_spec c :
  isPlain c = true ->
  (c =? 34)%N = false /\ (c =? 92)%N = false /\ (c <? 32)%N = false.
Proof.
  unfold isPlain. rewrite !andb_true_iff, !negb_true_iff, N.leb_le.
  intros [[H1 H2] H3]. repeat split; [done | done |]. apply N.ltb_ge. lia.
Qed.

Lemma letter_plain c : isAsciiLetter c = true -> isPlain c = true.
Proof.
  unfold isAsciiLetter, isPlain.
  rewrite orb_true_iff, !andb_true_iff, !negb_true_iff, !N.leb_le, !N.eqb_neq.
  lia.
Qed.

Lemma stringBody_plain p x :
  plain p -> stringBody (p ++ x) = pushAll p (stringBody x).
Proof.
  induction 1 as [|c p Hc _ IH].
  - simpl. now destruct (stringBody x).
  - apply isPlain_spec in Hc as (H1 & H2 & H3).
    simpl. rewrite H1, H2, H3, IH. now destruct (stringBody x).
Qed.

Lemma stringBody_closing p r :
  plain p -> stringBody (p ++ [34%N] ++ r) = Ok p r.
Proof.
  intros Hp. rewrite stringBody_plain by done. simpl. now rewrite app_nil_r.
Qed.

Lemma stringBody_backslash x :
  stringBody (92%N :: 92%N :: x) = push 92%N (stringBody x).
Proof. reflexivity. Qed.

Lemma stringBody_escape a u x :
  simpleEscape a = Some u ->
  stringBody (92%N :: a :: x) = push u (stringBody x).
Proof.
  intros Ha. cbn [stringBody]. change (92 =? 34)%N with false.
  change (92 =? 92)%N with true. cbv iota.
  destruct (N.eqb_spec a 117) as [->|]; [discriminate|]. now rewrite Ha.
Qed.

Lemma stringBody_bad_escape a x :
  simpleEscape a = None -> a <> 117%N ->
  stringBody (92%N :: a :: x) = SyntaxError.
Proof.
  intros Ha Hu. cbn [stringBody]. change (92 =? 34)%N with false.
  change (92 =? 92)%N with true. cbv iota.
  destruct (N.eqb_spec a 117) as [->|]; [done|]. now rewrite Ha.
Qed.

Lemma plain_no_backslash p x :
  plain p -> doubleBackslashes (p ++ x) = p ++ doubleBackslashes x.
Proof.
  induction 1 as [|c p Hc _ IH]; [done|].
  apply isPlain_spec in Hc as (_ & H2 & _).
  simpl. rewrite H2. simpl. now rewrite IH.
Qed.

Lemma plain_app p q : plain p -> plain q -> plain (p ++ q).
Proof. apply Forall_app_2. Qed.

Lemma responseClosing_fixed : doubleBackslashes responseClosing = responseClosing.
Proof. reflexivity. Qed.

(** The descent through the opening of such a response, step by step. *)
Lemma value_open_array n x :
  value (S n) (91%N :: 123%N :: x) = elements n (123%N :: x) [].
Proof. reflexivity. Qed.

Lemma value_open_object n x :
  value (S n) (123%N :: 34%N :: x) = members n (34%N :: x) [].
Proof. reflexivity. Qed.

Lemma value_string n x :
  value (S n) (34%N :: x) = wrap JString (stringBody x).
Proof. reflexivity. Qed.

Lemma elements_step n s acc :
  elements (S n) s acc =
  match value n s with
  | Ok v r =>
      match nextIs 44%N r with
      | Some r' => elements n r' (v :: acc)
      | None =>
          match nextIs 93%N r with
          | Some r' => Ok (JArray (rev (v :: acc))) r'
          | None => SyntaxError
          end
      end
  | SyntaxError => SyntaxError
  | OutOfFuel => OutOfFuel
  end.
Proof. reflexivity. Qed.

Lemma members_step n x key r acc :
  stringBody x = Ok key (58%N :: r) ->
  members (S n) (34%N :: x) acc =
  match value n r with
  | Ok v r1 =>
      match nextIs 44%N r1 with
      | Some r' => members n r' ((key, v) :: acc)
      | None =>
          match nextIs 125%N r1 with
          | Some r' => Ok (JObject (rev ((key, v) :: acc))) r'
          | None => SyntaxError
          end
      end
  | SyntaxError => SyntaxError
  | OutOfFuel => OutOfFuel
  end.
Proof. intros Hkey. cbn [members nextIs skipWs isJSONWhiteSpace]. cbn -[value stringBody]. now rewrite Hkey. Qed.

Lemma responseOpening_key body :
  responseOpening ++ body
  = 91%N :: 123%N :: 34%N :: str "questionText" ++ [34%N] ++ 58%N :: 34%N :: body.
Proof. reflexivity. Qed.

Lemma key_plain : plain (str "questionText").
Proof. repeat constructor. Qed.

(** [JSON.parse] on a response with one question text: it stands or falls
    with the string literal. *)
Lemma parse_response_ok body v :
  stringBody body = Ok v (str "}]") ->
  parse (responseOpening ++ body)
  = Some (JArray [JObject [(str "questionText", JString v)]]).
Proof.
  intros Hbody. unfold parse, parseWith.
  rewrite length_app. change (length responseOpening) with 18.
  replace (2 * (18 + length body) + 2)
    with (S (S (S (S (S (2 * length body + 33)))))) by lia.
  rewrite responseOpening_key, value_open_array, elements_step.
  rewrite value_open_object.
  rewrite (members_step _ _ _ _ _ (stringBody_closing _ _ key_plain)).
  rewrite value_string, Hbody. reflexivity.
Qed.

Lemma parse_response_bad body :
  stringBody body = SyntaxError ->
  parse (responseOpening ++ body) = None.
Proof.
  intros Hbody. unfold parse, parseWith.
  rewrite length_app. change (length responseOpening) with 18.
  replace (2 * (18 + length body) + 2)
    with (S (S (S (S (S (2 * length body + 33)))))) by lia.
  rewrite responseOpening_key, value_open_array, elements_step.
  rewrite value_open_object.
  rewrite (members_step _ _ _ _ _ (stringBody_closing _ _ key_plain)).
  rewrite value_string, Hbody. reflexivity.
Qed.

(** Such a response has no fence, so only the heuristic touches it. *)
Lemma preprocess_response body :
  preprocess (questionTextResponse body)
  = responseOpening ++ doubleBackslashes (body ++ responseClosing).
Proof.
  unfold preprocess.
  assert (Htrim : trim (questionTextResponse body) = questionTextResponse body).
  { unfold questionTextResponse.
    change (responseOpening ++ body ++ responseClosing)
      with (91%N :: (List.tl responseOpening ++ body ++ responseClosing)).
    replace (List.tl responseOpening ++ body ++ responseClosing)
      with ((List.tl responseOpening ++ body ++ [34%N; 125%N]) ++ [93%N])
      by (rewrite <- !app_assoc; reflexivity).
    now apply trim_fixed. }
  rewrite stripFence_unfenced by (rewrite Htrim; reflexivity).
  rewrite Htrim. unfold escapeLatex, RegExp.replaceAll.
  rewrite replaceFrom_latex by constructor. reflexivity.
Qed.

(** The question built from an object that has a question text only. *)
Lemma toQuestion_text_only v e :
  v <> [] ->
  fst (mapIndexed toQuestion 0 [JObject [(str "questionText", JString v)]] e)
  = Some [textOnlyQuestion e v].
Proof.
  intros Hv. cbn [mapIndexed]. unfold bind at 1.
  rewrite toQuestion_unfold. cbv zeta. cbn [isNull].
  assert (field (JObject [(str "questionText", JString v)]) (str "options")
          = None) as -> by reflexivity.
  assert (field (JObject [(str "questionText", JString v)])
            (str "isMultipleChoice") = None) as -> by reflexivity.
  assert (field (JObject [(str "questionText", JString v)])
            (str "questionText") = Some (JString v)) as -> by reflexivity.
  unfold bind, ret. cbn [fst]. unfold textOnlyQuestion, logicalOr, truthy.
  rewrite bool_decide_eq_false_2 by done. reflexivity.
Qed.

Lemma parseGeneratedQuiz_response body v e :
  v <> [] ->
  stringBody (doubleBackslashes (body ++ responseClosing)) = Ok v (str "}]") ->
  fst (parseGeneratedQuiz (questionTextResponse body) e)
  = Some [textOnlyQuestion e v].
Proof.
  intros Hv Hbody. unfold parseGeneratedQuiz.
  rewrite preprocess_response, (parse_response_ok _ _ Hbody).
  now apply toQuestion_text_only.
Qed.

Lemma double_at_command a b x :
  isAsciiLetter a = true -> isAsciiLetter b = true ->
  doubleBackslashes (92%N :: a :: b :: x)
  = 92%N :: 92%N :: a :: b :: doubleBackslashes x.
Proof.
  intros Ha Hb. cbn [doubleBackslashes startsWithTwoLetters].
  rewrite Ha, Hb, (letter_not_backslash a Ha), (letter_not_backslash b Hb).
  reflexivity.
Qed.

Lemma double_at_escaped_command a b x :
  isAsciiLetter a = true -> isAsciiLetter b = true ->
  doubleBackslashes (92%N :: 92%N :: a :: b :: x)
  = 92%N :: 92%N :: 92%N :: a :: b :: doubleBackslashes x.
Proof.
  intros Ha Hb.
  change (doubleBackslashes (92%N :: 92%N :: a :: b :: x))
    with (92%N :: doubleBackslashes (92%N :: a :: b :: x)).
  now rewrite double_at_command.
Qed.

Lemma tail_unchanged q :
  plain q ->
  doubleBackslashes (q ++ responseClosing) = q ++ responseClosing.
Proof. intros Hq. now rewrite plain_no_backslash, responseClosing_fixed. Qed.

Lemma command_plain a b q :
  isAsciiLetter a = true -> isAsciiLetter b = true -> plain q ->
  plain (a :: b :: q).
Proof. intros Ha Hb Hq. repeat constructor; auto using letter_plain. Qed.

End HeuristicFacts.

(** X12. The heuristic does what it is there for: a response whose question
    text holds a LaTeX command written with a single backslash is parsed,
    and the question text comes out with the command as written. *)
Theorem heuristic_repairs_single_backslash
    (p q : jsstring) (a b : char) (e : Gemini.Entropy) :
  plain p -> plain q ->
  Gemini.isAsciiLetter a = true -> Gemini.isAsciiLetter b = true ->
  fst (Gemini.parseGeneratedQuiz
         (questionTextResponse (p ++ [92%N; a; b] ++ q)) e)
  = Some [textOnlyQuestion e (p ++ [92%N; a; b] ++ q)].
Proof.
  intros Hp Hq Ha Hb. apply parseGeneratedQuiz_response.
  { now destruct p. }
  rewrite <- !app_assoc, plain_no_backslash by done.
  cbn [app]. rewrite double_at_command, tail_unchanged by done.
  rewrite stringBody_plain by done.
  rewrite stringBody_backslash.
  change (a :: b :: q ++ responseClosing)
    with ((a :: b :: q) ++ [34%N] ++ str "}]").
  rewrite stringBody_closing by now apply command_plain.
  reflexivity.
Qed.

(** X13. The heuristic breaks a response that escapes its LaTeX commands
    the way the prompt asks for: with the backslash doubled and a command
    whose first letter is not a JSON escape letter (alpha, sqrt, ...), the
    response is valid JSON with the command in the question text, and the
    parser returns [null] for it. *)
Theorem heuristic_breaks_escaped_command
    (p q : jsstring) (a b : char) (e : Gemini.Entropy) :
  plain p -> plain q ->
  Gemini.isAsciiLetter a = true -> Gemini.isAsciiLetter b = true ->
  JSONParser.simpleEscape a = None -> a <> 117%N ->
  JSONParser.parse (questionTextResponse (p ++ [92%N; 92%N; a; b] ++ q))
  = Some (JArray [JObject [(str "questionText",
                            JString (p ++ [92%N; a; b] ++ q))]]) /\
  fst (Gemini.parseGeneratedQuiz
         (questionTextResponse (p ++ [92%N; 92%N; a; b] ++ q)) e) = None.
Proof.
  intros Hp Hq Ha Hb Hesc Hu. split.
  - unfold questionTextResponse. apply parse_response_ok.
    rewrite <- !app_assoc, stringBody_plain by done.
    cbn [app]. rewrite stringBody_backslash.
    change (a :: b :: q ++ responseClosing)
      with ((a :: b :: q) ++ [34%N] ++ str "}]").
    rewrite stringBody_closing by now apply command_plain.
    reflexivity.
  - unfold Gemini.parseGeneratedQuiz. rewrite preprocess_response.
    rewrite parse_response_bad; [done|].
    rewrite <- !app_assoc, plain_no_backslash by done.
    cbn [app]. rewrite double_at_escaped_command by done.
    rewrite stringBody_plain by done.
    rewrite stringBody_backslash, stringBody_bad_escape by done.
    now destruct p.
Qed.

(** X14. With the backslash doubled and a command whose first letter is a
    JSON escape letter (times, frac, nu, rho, beta), the parser succeeds
    and the command is spoilt: the question text holds a backslash, the
    control code of the escape, and the rest of the command. *)
Theorem heuristic_spoils_escaped_command
    (p q : jsstring) (a b u : char) (e : Gemini.Entropy) :
  plain p -> plain q ->
  Gemini.isAsciiLetter a = true -> Gemini.isAsciiLetter b = true ->
  JSONParser.simpleEscape a = Some u ->
  JSONParser.parse (questionTextResponse (p ++ [92%N; 92%N; a; b] ++ q))
  = Some (JArray [JObject [(str "questionText",
                            JString (p ++ [92%N; a; b] ++ q))]]) /\
  fst (Gemini.parseGeneratedQuiz
         (questionTextResponse (p ++ [92%N; 92%N; a; b] ++ q)) e)
  = Some [textOnlyQuestion e (p ++ [92%N; u; b] ++ q)].
Proof.
  intros Hp Hq Ha Hb Hesc. split.
  - unfold questionTextResponse. apply parse_response_ok.
    rewrite <- !app_assoc, stringBody_plain by done.
    cbn [app]. rewrite stringBody_backslash.
    change (a :: b :: q ++ responseClosing)
      with ((a :: b :: q) ++ [34%N] ++ str "}]").
    rewrite stringBody_closing by now apply command_plain.
    reflexivity.
  - apply parseGeneratedQuiz_response.
    { now destruct p. }
    rewrite <- !app_assoc, plain_no_backslash by done.
    cbn [app]. rewrite double_at_escaped_command, tail_unchanged by done.
    rewrite stringBody_plain by done.
    rewrite stringBody_backslash, (stringBody_escape a u) by done.
    change (b :: q ++ responseClosing) with ((b :: q) ++ [34%N] ++ str "}]").
    rewrite stringBody_closing.
    + reflexivity.
    + constructor; [now apply letter_plain | done].
Qed.

(** ** The paged display *)

Section DisplayFacts.
Import QuizDisplay.

Lemma ceilDiv_bounds n p :
  (0 < p)%Z -> (n <= ceilDiv n p * p < n + p)%Z.
Proof.
  intros Hp. unfold ceilDiv.
  pose proof (Z.div_mod (- n) p ltac:(lia)) as Hdiv.
  pose proof (Z.mod_pos_bound (- n) p Hp) as Hmod.
  nia.
Qed.

Lemma totalPages_positive quiz st :
  quiz <> [] -> (0 < questionsPerPage st)%Z -> (1 <= totalPages quiz st)%Z.
Proof.
  intros Hquiz Hp. unfold totalPages.
  pose proof (ceilDiv_bounds (Z.of_nat (length quiz)) _ Hp) as Hb.
  set (c := ceilDiv _ _) in *.
  assert (Hlen : (1 <= Z.of_nat (length quiz))%Z).
  { destruct quiz; [done|]. simpl length. lia. }
  destruct (Z.le_gt_cases 1 c) as [|Hc]; [done|].
  assert (c * questionsPerPage st <= 0)%Z by nia. lia.
Qed.

(** At a page from 1 on, the slice is a full page size taken from the
    start of the page. *)
Lemma slice_page {A} (l : list A) (k p : Z) :
  (0 < p)%Z -> (1 <= k)%Z ->
  slice l (k * p - p) (k * p)
  = take (Z.to_nat p) (drop (Z.to_nat (k * p - p)) l).
Proof.
  intros Hp Hk. unfold slice.
  assert (Hstart : (0 <= k * p - p)%Z) by nia.
  rewrite (proj2 (Z.ltb_ge (k * p - p) 0)) by lia.
  rewrite (proj2 (Z.ltb_ge (k * p) 0)) by lia.
  destruct (Z.le_gt_cases (Z.of_nat (length l)) (k * p - p)) as [Hout|Hin].
  - rewrite (Z.min_r (k * p - p)) by lia.
    rewrite !drop_ge by lia. now rewrite !take_nil.
  - rewrite (Z.min_l (k * p - p)) by lia.
    destruct (Z.le_gt_cases (k * p) (Z.of_nat (length l))) as [Hfull|Hlast].
    + rewrite Z.min_l by lia. f_equal. lia.
    + rewrite Z.min_r by lia.
      rewrite !take_ge; [done | rewrite length_drop; lia
                        | rewrite length_drop; lia].
Qed.

Lemma currentQuestions_page quiz st :
  (0 < questionsPerPage st)%Z -> (1 <= currentPage st)%Z ->
  currentQuestions quiz st
  = take (Z.to_nat (questionsPerPage st))
      (drop (Z.to_nat ((currentPage st - 1) * questionsPerPage st)) quiz).
Proof.
  intros Hp Hk. unfold currentQuestions, indexOfFirstQuestion,
    indexOfLastQuestion.
  rewrite slice_page by done. do 3 f_equal. lia.
Qed.

Lemma pages_take quiz p m :
  (0 < p)%Z ->
  concat ((fun n => currentQuestions quiz (mkState (Z.of_nat n) p))
            <$> seq 1 m)
  = take (m * Z.to_nat p) quiz.
Proof.
  intros Hp. induction m as [|m IH]; [done|].
  rewrite seq_S, fmap_app, concat_app, IH. cbn [fmap list_fmap concat].
  rewrite app_nil_r, currentQuestions_page by (cbn; lia).
  cbn [currentPage questionsPerPage].
  replace (Z.to_nat ((Z.of_nat (1 + m) - 1) * p)) with (m * Z.to_nat p) by nia.
  rewrite take_take_drop. f_equal. lia.
Qed.

Lemma page_length quiz st :
  (0 < questionsPerPage st)%Z -> (1 <= currentPage st)%Z ->
  Z.of_nat (length (currentQuestions quiz st))
  = Z.max 0 (Z.min (questionsPerPage st)
               (Z.of_nat (length quiz)
                - (currentPage st - 1) * questionsPerPage st)).
Proof.
  intros Hp Hk. rewrite currentQuestions_page by done.
  rewrite length_take, length_drop. nia.
Qed.

Lemma pageInv_step quiz st ev :
  quiz <> [] ->
  match ev with PerPage value => (0 < value)%Z | _ => True end ->
  pageInv quiz st -> pageInv quiz (step quiz st ev).
Proof.
  intros Hquiz Hev [Hp Hk]. destruct ev as [| |value]; cbn [step].
  - unfold handleNextPage. destruct (Z.ltb_spec (currentPage st)
      (totalPages quiz st)); [|done].
    split; [done|]. cbn. unfold totalPages in *. cbn. lia.
  - unfold handlePrevPage. destruct (Z.ltb_spec 1 (currentPage st)); [|done].
    split; [done|]. cbn. unfold totalPages in *. cbn. lia.
  - unfold pageSizeEffect, handleQuestionsPerPageChange.
    cbn [questionsPerPage].
    destruct (Z.eqb_spec (questionsPerPage st) value) as [<-|Hne].
    + split; [done|]. cbn. unfold totalPages in *. cbn. lia.
    + split; [done|]. cbn [currentPage].
      split; [lia|]. now apply totalPages_positive.
Qed.

Lemma pageInv_run quiz evs st :
  quiz <> [] -> positiveSizes evs ->
  pageInv quiz st -> pageInv quiz (run quiz evs st).
Proof.
  intros Hquiz Hevs. revert st.
  induction Hevs as [|ev evs Hev _ IH]; intros st Hst; [done|].
  cbn [run fold_left]. apply IH. now apply pageInv_step.
Qed.

End DisplayFacts.

(** X15. The pages of a quiz, one after the other, are the quiz: every
    question is on exactly one page, in the order of the quiz, whatever the
    (positive) page size. *)
Theorem pages_partition_quiz (quiz : list QuizQuestion.t) (perPage : Z) :
  (0 < perPage)%Z ->
  concat (QuizDisplay.pages quiz perPage) = quiz.
Proof.
  intros Hp. unfold QuizDisplay.pages. rewrite pages_take by done.
  apply take_ge.
  pose proof (ceilDiv_bounds (Z.of_nat (length quiz)) perPage Hp) as Hb.
  unfold QuizDisplay.totalPages. cbn [QuizDisplay.questionsPerPage]. nia.
Qed.

(** X16. A page between 1 and the number of pages shows at least one
    question and at most a page size of them, and every page before the
    last one is full. *)
Theorem page_is_filled (quiz : list QuizQuestion.t) (st : QuizDisplay.State) :
  (0 < QuizDisplay.questionsPerPage st)%Z ->
  (1 <= QuizDisplay.currentPage st <= QuizDisplay.totalPages quiz st)%Z ->
  (1 <= Z.of_nat (length (QuizDisplay.currentQuestions quiz st))
     <= QuizDisplay.questionsPerPage st)%Z /\
  ((QuizDisplay.currentPage st < QuizDisplay.totalPages quiz st)%Z ->
   Z.of_nat (length (QuizDisplay.currentQuestions quiz st))
   = QuizDisplay.questionsPerPage st).
Proof.
  intros Hp Hk. rewrite page_length by lia.
  pose proof (ceilDiv_bounds (Z.of_nat (length quiz)) _ Hp) as Hb.
  unfold QuizDisplay.totalPages in Hk |- *. split; [nia|]. intros Hlt. nia.
Qed.

(** X17. Under a quiz that is not empty, however the user moves between
    the pages and changes the page size, the page shown stays between 1
    and the number of pages, and it shows at least one question. *)
Theorem navigation_stays_in_range
    (quiz : list QuizQuestion.t) (evs : list QuizDisplay.Event)
    (initialPerPage : Z) :
  quiz <> [] -> (0 < initialPerPage)%Z -> QuizDisplay.positiveSizes evs ->
  let st := QuizDisplay.run quiz evs (QuizDisplay.mkState 1 initialPerPage) in
  (1 <= QuizDisplay.currentPage st <= QuizDisplay.totalPages quiz st)%Z /\
  QuizDisplay.currentQuestions quiz st <> [].
Proof.
  intros Hquiz Hp Hevs st.
  assert (Hinv : pageInv quiz st).
  { apply pageInv_run; [done..|]. split; [done|]. cbn [QuizDisplay.currentPage].
    split; [lia|]. now apply totalPages_positive. }
  destruct Hinv as [Hp' Hk]. split; [done|].
  destruct (page_is_filled quiz st Hp' Hk) as [Hlen _].
  intros Hnil. rewrite Hnil in Hlen. simpl in Hlen. lia.
Qed.

(** X18. The number shown beside a question of the page is the position
    of that question in the whole quiz, counted from one. *)
Theorem questionNumber_is_position
    (quiz : list QuizQuestion.t) (st : QuizDisplay.State) (index : nat)
    (q : QuizQuestion.t) :
  (0 < QuizDisplay.questionsPerPage st)%Z ->
  (1 <= QuizDisplay.currentPage st)%Z ->
  QuizDisplay.currentQuestions quiz st !! index = Some q ->
  (1 <= QuizDisplay.questionNumber st index <= Z.of_nat (length quiz))%Z /\
  quiz !! Z.to_nat (QuizDisplay.questionNumber st index - 1) = Some q.
Proof.
  intros Hp Hk. rewrite currentQuestions_page by done.
  rewrite lookup_take_Some, lookup_drop. intros [Hq Hindex].
  unfold QuizDisplay.questionNumber, QuizDisplay.indexOfFirstQuestion,
    QuizDisplay.indexOfLastQuestion.
  pose proof (lookup_lt_Some _ _ _ Hq) as Hlt.
  assert (Hpos : Z.to_nat (QuizDisplay.currentPage st
                           * QuizDisplay.questionsPerPage st
                           - QuizDisplay.questionsPerPage st
                           + Z.of_nat index + 1 - 1)
                 = Z.to_nat ((QuizDisplay.currentPage st - 1)
                             * QuizDisplay.questionsPerPage st) + index)
    by nia.
  rewrite Hpos. split; [nia | done].
Qed.

(** ** The file selection *)

Section FileFacts.
Import QuizForm.

Lemma alertOnce_validFiles a l : validFiles (alertOnce a l) = validFiles l.
Proof. unfold alertOnce. now destruct (alertShown l). Qed.

Lemma withinLimit_spec file :
  (MAX_FILE_SIZE_MB * 1024 * 1024 <? size file)%Z = negb (withinLimit file).
Proof.
  unfold withinLimit, MAX_FILE_SIZE_MB.
  destruct (Z.ltb_spec (5 * 1024 * 1024) (size file)),
    (Z.leb_spec (size file) (5 * 1024 * 1024)); simpl; lia || done.
Qed.

(** The files the loop accepts: those within the size limit, as many as
    there is room for. *)
Lemma visit_validFiles selectedFiles newFiles l :
  validFiles (fold_left (visit selectedFiles) newFiles l)
  = validFiles l
    ++ take (MAX_FILES - length selectedFiles - length (validFiles l))
         (jsfilter withinLimit newFiles).
Proof.
  revert l. induction newFiles as [|file newFiles IH]; intros l.
  { cbn. now rewrite take_nil, app_nil_r. }
  cbn [fold_left]. rewrite IH. unfold visit.
  unfold jsfilter. rewrite filter_cons.
  destruct (Nat.leb_spec MAX_FILES
              (length selectedFiles + length (validFiles l))) as [Hfull|Hroom].
  - rewrite alertOnce_validFiles.
    replace (MAX_FILES - length selectedFiles - length (validFiles l)) with 0
      by lia.
    now rewrite !take_0.
  - rewrite withinLimit_spec. destruct (withinLimit file) eqn:Hsize; cbn [negb].
    + rewrite decide_True by done. cbn [validFiles].
      rewrite length_app. cbn [length].
      replace (MAX_FILES - length selectedFiles - length (validFiles l))
        with (S (MAX_FILES - length selectedFiles
                 - (length (validFiles l) + 1))) by lia.
      cbn [take]. now rewrite <- app_assoc.
    + rewrite decide_False by done. now rewrite alertOnce_validFiles.
Qed.

Lemma alertInv_visit selectedFiles l file :
  alertInv l -> alertInv (visit selectedFiles l file).
Proof.
  intros Hl. unfold visit, alertOnce.
  destruct Hl as [[Hs Ha]|[Hs Ha]]; rewrite Hs;
    repeat (destruct (_ <=? _)%nat || destruct (_ <? _)%Z);
    unfold alertInv; cbn; rewrite ?Ha; auto.
Qed.

Lemma alertInv_fold selectedFiles newFiles l :
  alertInv l -> alertInv (fold_left (visit selectedFiles) newFiles l).
Proof.
  revert l. induction newFiles as [|file newFiles IH]; intros l Hl; [done|].
  cbn [fold_left]. apply IH. now apply alertInv_visit.
Qed.

(** An alert, once raised, stays. *)
Lemma alerts_stay selectedFiles newFiles l :
  alertShown l = true ->
  alerts (fold_left (visit selectedFiles) newFiles l) = alerts l.
Proof.
  revert l. induction newFiles as [|file newFiles IH]; intros l Hl; [done|].
  cbn [fold_left].
  assert (Hv : visit selectedFiles l file = l
               \/ (alertShown (visit selectedFiles l file) = true /\
                   alerts (visit selectedFiles l file) = alerts l)).
  { unfold visit, alertOnce. rewrite Hl.
    repeat (destruct (_ <=? _)%nat || destruct (_ <? _)%Z); auto. }
  destruct Hv as [->|[Hs Ha]]; [now apply IH|].
  rewrite IH by done. done.
Qed.

(** No alert is raised exactly when every file chosen is accepted. *)
Lemma no_alert_all_accepted selectedFiles newFiles l :
  alertShown l = false -> alerts l = [] ->
  alerts (fold_left (visit selectedFiles) newFiles l) = [] <->
  validFiles (fold_left (visit selectedFiles) newFiles l)
  = validFiles l ++ newFiles.
Proof.
  revert l. induction newFiles as [|file newFiles IH]; intros l Hs Ha.
  { cbn. now rewrite app_nil_r. }
  cbn [fold_left].
  assert (Hlen : forall l',
    validFiles l' = validFiles l ->
    validFiles (fold_left (visit selectedFiles) newFiles l')
    <> validFiles l ++ file :: newFiles).
  { intros l' Hl' Heq. apply (f_equal length) in Heq.
    rewrite visit_validFiles, Hl', !length_app, length_take in Heq.
    cbn [length] in Heq.
    pose proof (length_filter (fun x => withinLimit x = true) newFiles).
    unfold jsfilter in Heq. lia. }
  assert (Hrej : forall a,
    alerts (fold_left (visit selectedFiles) newFiles (alertOnce a l)) = [] <->
    validFiles (fold_left (visit selectedFiles) newFiles (alertOnce a l))
    = validFiles l ++ file :: newFiles).
  { intros a. split.
    - rewrite alerts_stay by (unfold alertOnce; now rewrite Hs).
      unfold alertOnce. rewrite Hs, Ha. discriminate.
    - intros Heq. exfalso. revert Heq. apply Hlen, alertOnce_validFiles. }
  unfold visit.
  destruct (_ <=? _)%nat; [apply Hrej|].
  destruct (_ <? _)%Z; [apply Hrej|].
  rewrite IH by done. cbn [validFiles]. now rewrite <- app_assoc.
Qed.

Lemma handleRemoveFile_app fileName l1 l2 :
  handleRemoveFile fileName (l1 ++ l2)
  = handleRemoveFile fileName l1 ++ handleRemoveFile fileName l2.
Proof. unfold handleRemoveFile, jsfilter. apply filter_app. Qed.

Lemma handleRemoveFile_others fileName l :
  Forall (fun file => name file <> fileName) l ->
  handleRemoveFile fileName l = l.
Proof.
  intros Hl. unfold handleRemoveFile, jsfilter, id_eqb.
  induction Hl as [|file l Hfile _ IH]; [done|].
  rewrite filter_cons, decide_True, IH; [done|].
  now rewrite bool_decide_eq_false_2.
Qed.

Lemma handleRemoveFile_named fileName l :
  Forall (fun file => name file = fileName) l ->
  handleRemoveFile fileName l = [].
Proof.
  intros Hl. unfold handleRemoveFile, jsfilter, id_eqb.
  induction Hl as [|file l Hfile _ IH]; [done|].
  rewrite filter_cons, decide_False, IH; [done|].
  now rewrite bool_decide_eq_true_2.
Qed.

Lemma handleFileChange_selected files selectedFiles :
  length selectedFiles <= MAX_FILES ->
  fst (handleFileChange files selectedFiles)
  = selectedFiles
    ++ take (MAX_FILES - length selectedFiles)
         (jsfilter withinLimit (default [] files)).
Proof.
  intros Hlen. destruct files as [newFiles|]; cbn [handleFileChange fst default].
  - rewrite visit_validFiles. cbn [validFiles app length].
    rewrite Nat.sub_0_r. apply take_ge.
    rewrite length_app, length_take. lia.
  - cbn. now rewrite take_nil, app_nil_r.
Qed.

Lemma selectionInv_step selectedFiles ev :
  selectionInv selectedFiles -> selectionInv (step selectedFiles ev).
Proof.
  intros [Hlen Hsize]. destruct ev as [files|fileName]; cbn [step].
  - rewrite handleFileChange_selected by done. split.
    + rewrite length_app, length_take. lia.
    + apply Forall_app. split; [done|].
      apply Forall_take. unfold jsfilter.
      apply Forall_forall. intros file Hin.
      now apply list_elem_of_filter in Hin as [Hfile _].
  - unfold handleRemoveFile, jsfilter. split.
    + pose proof (length_filter
        (fun file => negb (id_eqb (name file) fileName) = true) selectedFiles).
      lia.
    + apply Forall_forall. intros file Hin.
      apply list_elem_of_filter in Hin as [_ Hin].
      revert file Hin. now apply Forall_forall.
Qed.

End FileFacts.

(** X19. The files a choice adds to a selection are the chosen files
    within the size limit, in the order chosen, as many as there is still
    room for; the files selected before stay in front.  A file over the
    limit does not stop the ones after it. *)
Theorem handleFileChange_accepts
    (newFiles selectedFiles : list QuizForm.File) :
  length selectedFiles <= QuizForm.MAX_FILES ->
  fst (QuizForm.handleFileChange (Some newFiles) selectedFiles)
  = selectedFiles
    ++ take (QuizForm.MAX_FILES - length selectedFiles)
         (jsfilter QuizForm.withinLimit newFiles).
Proof. intros Hlen. now rewrite handleFileChange_selected. Qed.

(** X20. A choice of files raises at most one alert, and it raises none
    exactly when every file chosen joins the selection. *)
Theorem handleFileChange_alerts
    (newFiles selectedFiles : list QuizForm.File) :
  length selectedFiles <= QuizForm.MAX_FILES ->
  length (snd (QuizForm.handleFileChange (Some newFiles) selectedFiles)) <= 1 /\
  (snd (QuizForm.handleFileChange (Some newFiles) selectedFiles) = [] <->
   fst (QuizForm.handleFileChange (Some newFiles) selectedFiles)
   = selectedFiles ++ newFiles).
Proof.
  intros Hlen. cbn [QuizForm.handleFileChange fst snd]. split.
  - destruct (alertInv_fold selectedFiles newFiles (QuizForm.mkLoop [] false []))
      as [[_ ->]|[_ ->]]; [left; done | cbn; lia | lia].
  - rewrite no_alert_all_accepted by done. cbn [QuizForm.validFiles app].
    rewrite take_ge.
    + split; [now intros -> | now intros ?%app_inv_head].
    + rewrite visit_validFiles, !length_app, length_take.
      cbn [QuizForm.validFiles length]. lia.
Qed.

(** X21. Starting from the empty selection, however files are chosen and
    removed, the selection never holds more than five files, and never a
    file above five mebibytes. *)
Theorem selection_stays_within_limits (evs : list QuizForm.Event) :
  length (QuizForm.run evs []) <= 5 /\
  Forall (fun file => (QuizForm.size file <= 5 * 1024 * 1024)%Z)
    (QuizForm.run evs []).
Proof.
  assert (Hinv : forall selectedFiles,
            selectionInv selectedFiles ->
            selectionInv (QuizForm.run evs selectedFiles)).
  { induction evs as [|ev evs IH]; intros selectedFiles Hsel; [done|].
    cbn [QuizForm.run fold_left]. apply IH. now apply selectionInv_step. }
  destruct (Hinv []) as [Hlen Hsize].
  { split; [cbn; unfold QuizForm.MAX_FILES; lia | constructor]. }
  split; [done|].
  eapply Forall_impl; [exact Hsize|].
  intros file Hfile. unfold QuizForm.withinLimit in Hfile.
  now apply Z.leb_le in Hfile.
Qed.

(** X22. Files are removed by name but added without a look at the names:
    when the files chosen all carry one name that no selected file has,
    removing that name afterwards gives the selection back, however many
    of them were accepted. *)
Theorem remove_undoes_choice
    (fileName : jsstring) (newFiles selectedFiles : list QuizForm.File) :
  length selectedFiles <= QuizForm.MAX_FILES ->
  Forall (fun file => QuizForm.name file = fileName) newFiles ->
  Forall (fun file => QuizForm.name file <> fileName) selectedFiles ->
  QuizForm.handleRemoveFile fileName
    (fst (QuizForm.handleFileChange (Some newFiles) selectedFiles))
  = selectedFiles.
Proof.
  intros Hlen Hnew Hsel. rewrite handleFileChange_selected by done.
  rewrite handleRemoveFile_app, handleRemoveFile_others by done.
  rewrite handleRemoveFile_named; [now rewrite app_nil_r|].
  apply Forall_take. cbn [default]. unfold jsfilter.
  apply Forall_forall. intros file Hin.
  apply list_elem_of_filter in Hin as [_ Hin].
  revert file Hin. now apply Forall_forall.
Qed.

(** ** Generating a quiz *)

(** X23. When a generation has run to its end, whatever the state before
    and whatever the service answered, the store is unlocked and idle
    under the new settings, the quiz is what the service returned (empty
    if it returned nothing or failed), and an error is shown exactly when
    the quiz is empty. *)
Theorem handleGenerateQuiz_outcome
    (settings : QuizSettings)
    (reply : App.Reply (option (list QuizQuestion.t))) (st : App.State) :
  let st' := Generate.handleGenerateQuiz settings reply st in
  App.isLoading st' = false /\
  App.isAddingMoreQuestions st' = false /\
  App.regeneratingQuestionId st' = None /\
  App.isQuizValidated st' = false /\
  App.quizSettings st' = Some settings /\
  App.editableQuiz st'
  = match reply with
    | App.Resolved (Some generatedQuestions) => generatedQuestions
    | _ => []
    end /\
  (App.error st' = None <-> App.editableQuiz st' <> []).
Proof.
  destruct reply as [[[|q qs]|]|message]; cbn; repeat split; intros; try done.
Qed.

(** ** The name of the downloaded file *)

Section DownloadFacts.
Import RegExp Download.

(** Where and how [\s+] matches: at a white-space code unit, up to the end
    of the run. *)
Lemma matchAt_whiteSpaceRuns i s :
  matchAt noFlags whiteSpaceRuns i s =
  match s with
  | c :: s' =>
      if isWhiteSpace c
      then Some (mkM (S i + runLength isWhiteSpace s')
                   (drop (runLength isWhiteSpace s') s') None)
      else None
  | [] => None
  end.
Proof.
  unfold matchAt, whiteSpaceRuns. rewrite matcher_Seq.
  destruct s as [|c s']; [done|].
  cbn [matcher]. unfold step1 at 1. cbn [rest pos cap1].
  destruct (isWhiteSpace c); [|done].
  rewrite greedyLoop_class by done.
  now rewrite longestFirst_total by done.
Qed.

Lemma underscored_head c s :
  isWhiteSpace c = false ->
  underscored true (c :: s) = underscored false (c :: s).
Proof. intros Hc. cbn. now rewrite Hc. Qed.

Lemma replaceFrom_whiteSpaceRuns s :
  forall skip i,
    (skip = runLength isWhiteSpace s ->
     replaceFrom noFlags whiteSpaceRuns underscore skip i s
     = underscored true s) /\
    replaceFrom noFlags whiteSpaceRuns underscore 0 i s
    = underscored false s.
Proof.
  induction s as [|c s IH]; intros skip i.
  { split; [intros ->|]; cbn [replaceFrom runLength];
      now rewrite matchAt_whiteSpaceRuns. }
  assert (Hzero : replaceFrom noFlags whiteSpaceRuns underscore 0 i (c :: s)
                  = underscored false (c :: s)).
  { cbn [replaceFrom]. rewrite matchAt_whiteSpaceRuns. cbn [underscored].
    destruct (isWhiteSpace c) eqn:Hc.
    - cbn [pos]. rewrite (proj2 (Nat.eqb_neq _ i)) by lia.
      unfold substitute, underscore. cbn [fmap list_fmap concat app].
      f_equal.
      replace (S i + runLength isWhiteSpace s - i - 1)
        with (runLength isWhiteSpace s) by lia.
      now apply IH.
    - f_equal. apply (IH 0 (S i)). }
  split; [|exact Hzero].
  cbn [runLength]. destruct (isWhiteSpace c) eqn:Hc; intros ->.
  - cbn [replaceFrom underscored]. rewrite Hc. now apply IH.
  - rewrite Hzero. symmetry. now apply underscored_head.
Qed.

Lemma replaceAll_whiteSpaceRuns s :
  replaceAll noFlags whiteSpaceRuns underscore s = underscored false s.
Proof. apply (replaceFrom_whiteSpaceRuns s 0 0). Qed.

Lemma underscored_spaceless inRun s : spaceless (underscored inRun s).
Proof.
  revert inRun. induction s as [|c s IH]; intros inRun; [constructor|].
  cbn [underscored]. destruct (isWhiteSpace c) eqn:Hc.
  - destruct inRun; [apply IH | constructor; [done | apply IH]].
  - constructor; [done | apply IH].
Qed.

Lemma underscored_fixed inRun s : spaceless s -> underscored inRun s = s.
Proof.
  intros Hs. revert inRun. induction Hs as [|c s Hc _ IH]; intros inRun; [done|].
  cbn [underscored]. rewrite Hc. now rewrite IH.
Qed.

Lemma underscored_nil s : underscored false s = [] -> s = [].
Proof.
  destruct s as [|c s]; [done|]. cbn [underscored].
  now destruct (isWhiteSpace c).
Qed.

Lemma fileName_spaceless quizSettings :
  fileName quizSettings <> [] /\ spaceless (fileName quizSettings).
Proof.
  assert (Hdefault : str "QCM_genere" <> [] /\ spaceless (str "QCM_genere")).
  { split; [done|]. repeat constructor. }
  unfold fileName. destruct quizSettings as [settings|]; [|done].
  rewrite replaceAll_whiteSpaceRuns.
  pose proof (underscored_spaceless false (quizName settings)) as Hs.
  destruct (underscored false (quizName settings)); [done|]. now split.
Qed.

End DownloadFacts.

(** X24. A download happens for a validated quiz only.  The file is named
    after the quiz, each run of white space replaced by one underscore,
    and after [QCM_genere] when the quiz has no name; in every case the
    stem of the name is not empty and holds no white space. *)
Theorem handleDownloadTxt_name (st : App.State) :
  (App.isQuizValidated st = false -> Download.handleDownloadTxt st = None) /\
  (App.isQuizValidated st = true ->
   exists stem,
     Download.handleDownloadTxt st = Some (stem ++ str ".txt") /\
     stem <> [] /\ Download.spaceless stem /\
     stem = match App.quizSettings st with
            | Some settings =>
                match quizName settings with
                | [] => str "QCM_genere"
                | _ => Download.underscored false (quizName settings)
                end
            | None => str "QCM_genere"
            end).
Proof.
  unfold Download.handleDownloadTxt. split; intros ->; [done|].
  cbn [negb]. exists (Download.fileName (App.quizSettings st)).
  split; [done|].
  destruct (fileName_spaceless (App.quizSettings st)) as [Hne Hs].
  split; [done|]. split; [done|].
  unfold Download.fileName. destruct (App.quizSettings st) as [settings|]; [|done].
  rewrite replaceAll_whiteSpaceRuns.
  destruct (quizName settings) as [|c s] eqn:Hname; [done|].
  destruct (Download.underscored false (c :: s)) eqn:Hu; [|done].
  now apply underscored_nil in Hu.
Qed.

(** ** What is sent to the model *)

Section ContentFacts.
Import Content.

Lemma fold_addImage files parts hasImageFiles :
  fold_left addImage files (parts, hasImageFiles)
  = (parts ++ sentImages files,
     hasImageFiles || match sentImages files with [] => false | _ => true end).
Proof.
  revert parts hasImageFiles.
  induction files as [|file files IH]; intros parts hasImageFiles.
  { cbn. now rewrite app_nil_r, orb_false_r. }
  cbn [fold_left]. unfold addImage at 2, sentImages, jsfilter.
  rewrite filter_cons.
  destruct (isImage (originalType file) && nonEmpty (content file)).
  - rewrite decide_True by done. cbn [fst]. rewrite IH, fmap_cons.
    rewrite <- app_assoc. cbn [app]. unfold sentImages, jsfilter.
    f_equal. now rewrite orb_true_r.
  - rewrite decide_False by done. now rewrite IH.
Qed.

Lemma nonEmpty_data file :
  isImage (originalType file) && nonEmpty (content file) = true ->
  originalType file = image /\ content file <> [].
Proof.
  intros [Hi Hc]%andb_prop. split.
  - now destruct (originalType file).
  - now destruct (content file).
Qed.

End ContentFacts.

(** X25. The contents sent to the model are the prompt on its own unless
    an image that has data is attached; then they are the prompt as the
    first part, followed by one part for each such image, in the order of
    the files, with the MIME type and the data of the file.  Text and PDF
    files, and an image without data, add no part. *)
Theorem buildContentParts_shape
    (basePrompt : jsstring) (files : list Content.ProcessedFile) :
  Content.buildContentParts basePrompt (Some files)
  = match Content.sentImages files with
    | [] => Content.Prompt basePrompt
    | images => Content.Parts (Content.Text basePrompt :: images)
    end /\
  length (Content.sentImages files) <= length files /\
  (Forall (fun file => Content.originalType file <> Content.image
                       \/ Content.content file = []) files ->
   Content.buildContentParts basePrompt (Some files)
   = Content.Prompt basePrompt).
Proof.
  assert (Hshape : Content.buildContentParts basePrompt (Some files)
    = match Content.sentImages files with
      | [] => Content.Prompt basePrompt
      | images => Content.Parts (Content.Text basePrompt :: images)
      end).
  { unfold Content.buildContentParts. rewrite fold_addImage. cbn [fst snd orb].
    now destruct (Content.sentImages files). }
  split; [exact Hshape|]. split.
  - unfold Content.sentImages, jsfilter. rewrite length_fmap.
    apply length_filter.
  - intros Hfiles. rewrite Hshape. clear Hshape.
    assert (Content.sentImages files = []) as ->; [|done].
    unfold Content.sentImages, jsfilter.
    induction Hfiles as [|file files Hfile _ IH]; [done|].
    rewrite filter_cons, decide_False; [exact IH|].
    intros [Hi Hc]%nonEmpty_data. now destruct Hfile.
Qed.

(** ** Identifiers across two responses *)

(** X26. A quiz generated from one response and extended with the
    questions of a later one, the identifiers drawn from the same source
    one response after the other, has pairwise distinct identifiers when
    the source never repeats one: no new question or option shares an
    identifier with an earlier one. *)
Theorem extended_quiz_ids_distinct
    (first later : jsstring) (e e1 e2 : Gemini.Entropy)
    (quiz newQuestions : list QuizQuestion.t) (st : App.State) :
  Gemini.generateQuiz first e = (Some quiz, e1) ->
  Gemini.generateMoreQuestions later e1 = (Some newQuestions, e2) ->
  (forall i j, Gemini.uuids e i = Gemini.uuids e j -> i = j) ->
  App.editableQuiz st = quiz ->
  NoDup (quizIds (App.editableQuiz
                    (App.addMoreReply (App.Resolved (Some newQuestions)) st))).
Proof.
  unfold Gemini.generateQuiz, Gemini.generateMoreQuestions.
  intros H1 H2 Hinj Hst.
  destruct (parsed_ids_of _ _ _ _ H1) as [Hids1 He1].
  destruct (parsed_ids_of _ _ _ _ H2) as [Hids2 He2].
  assert (Hboth : quizIds (quiz ++ newQuestions)
                  = nextIds e (length (quizIds quiz)
                               + length (quizIds newQuestions))).
  { unfold quizIds at 1. rewrite fmap_app, concat_app.
    fold (quizIds quiz) (quizIds newQuestions).
    rewrite nextIds_app, <- Hids1, <- He1. now rewrite <- Hids2. }
  assert (Hnd : forall n, NoDup (nextIds e n)).
  { intros n. unfold nextIds. apply NoDup_fmap_2.
    - intros i j. apply Hinj.
    - apply NoDup_ListNoDup, List.seq_NoDup. }
  destruct newQuestions as [|q qs].
  - change (App.editableQuiz (App.addMoreReply (App.Resolved (Some [])) st))
      with (App.editableQuiz st).
    rewrite Hst, Hids1. apply Hnd.
  - change (App.editableQuiz
              (App.addMoreReply (App.Resolved (Some (q :: qs))) st))
      with (App.editableQuiz st ++ q :: qs).
    rewrite Hst, Hboth. apply Hnd.
Qed.

(** ** Instances of the properties above *)

(** Witness of X1: deleting the first question of the example store. *)
Lemma handleDeleteQuestion_effect_witness :
  sublist
    (App.editableQuiz (App.handleDeleteQuestion (str "q1") Examples.store))
    (App.editableQuiz Examples.store).
Proof.
  exact (proj1 (proj2 (proj2 (handleDeleteQuestion_effect (str "q1")
                                Examples.store) eq_refl))).
Defined.

(** Witness of X2: two versions of the first question. *)
Lemma handleUpdateQuestion_twice_witness :
  App.handleUpdateQuestion MoreExamples.renamed
    (App.handleUpdateQuestion Examples.single Examples.store)
  = App.handleUpdateQuestion MoreExamples.renamed Examples.store.
Proof.
  exact (handleUpdateQuestion_twice Examples.single MoreExamples.renamed
           Examples.store eq_refl).
Defined.

(** Witness of X3: an alternative to the first question, then deleted. *)
Lemma regenerate_then_delete_witness :
  App.editableQuiz
    (App.handleDeleteQuestion (QuizQuestion.id Examples.triple)
       (App.regenerateReply (str "q1") (App.Resolved (Some Examples.triple))
          Examples.store))
  = App.editableQuiz Examples.store.
Proof.
  refine (regenerate_then_delete (str "q1") Examples.triple Examples.store
            eq_refl _).
  intros q Hq Hid.
  apply elem_of_cons in Hq as [->|Hq]; [vm_compute in Hid; discriminate|].
  apply elem_of_cons in Hq as [->|Hq]; [vm_compute in Hid; discriminate|].
  now apply elem_of_nil in Hq.
Defined.

(** Witness of X4: a batch of one question. *)
Lemma addMoreReply_effect_witness :
  App.editableQuiz
    (App.addMoreReply (App.Resolved (Some [Examples.triple])) Examples.store)
  = App.editableQuiz Examples.store ++ [Examples.triple].
Proof.
  exact (proj1 (proj1 (proj2 (addMoreReply_effect
                                (App.Resolved (Some [Examples.triple]))
                                Examples.store))
                  Examples.triple [] eq_refl)).
Defined.

(** Witness of X5: the example store takes a committed question. *)
Lemma committed_update_keeps_valid_witness :
  snd (App.handleValidateQuiz
         (App.handleUpdateQuestion Examples.multi Examples.store)) = None.
Proof.
  exact (committed_update_keeps_valid Examples.multi Examples.multiEdited
           Examples.multiEdited None Examples.multi Examples.store
           eq_refl eq_refl).
Defined.

(** Witness of X6: a click on the second option. *)
Lemma single_answer_click_selects_witness :
  correctCount
    (Editor.editedOptions
       (Editor.handleOptionCorrectChange Examples.single (str "b")
          MoreExamples.unmarked)) = 1.
Proof.
  refine (proj1 (single_answer_click_selects Examples.single (str "b")
                   MoreExamples.unmarked 1 (Examples.rome false)
                   eq_refl eq_refl eq_refl _ eq_refl)).
  intros j o Hj Ho Hid.
  destruct j as [|j]; [|lia].
  cbn in Ho. injection Ho as <-. vm_compute in Hid. discriminate.
Defined.

(** Witness of X7: two clicks on the first option. *)
Lemma multi_answer_click_twice_witness :
  Editor.handleOptionCorrectChange Examples.multi (str "a")
    (Editor.handleOptionCorrectChange Examples.multi (str "a")
       Examples.multiEdited)
  = Examples.multiEdited.
Proof.
  exact (multi_answer_click_twice Examples.multi (str "a")
           Examples.multiEdited eq_refl).
Defined.

(** Witness of X8: a new text for the second option. *)
Lemma text_edits_keep_marks_witness :
  optionFlags
    (Editor.editedOptions
       (Editor.handleOptionTextChange (str "b") (str "Roma")
          Examples.multiEdited))
  = optionFlags (Editor.editedOptions Examples.multiEdited).
Proof.
  exact (proj1 (proj2 (text_edits_keep_marks (str "b") (str "Roma")
                         (str "Capital of Italy?") Examples.multiEdited))).
Defined.

(** Witness of X9: the save that dropped a mark, and the next one. *)
Lemma handleSaveChanges_again_witness :
  Editor.handleSaveChanges MoreExamples.singleCommitted
    MoreExamples.singleSaved
  = Editor.SaveCommitted None MoreExamples.singleSaved
      MoreExamples.singleCommitted.
Proof.
  exact (handleSaveChanges_again Examples.single Examples.singleEdited
           MoreExamples.singleSaved (Some Editor.AlertSingleChoice)
           MoreExamples.singleCommitted eq_refl).
Defined.

(** Witness of X10: a second mark, then a save. *)
Lemma single_answer_stays_single_witness :
  correctCount
    (QuizQuestion.options
       (Card.question
          (Card.run (fun v => v)
             [Card.OptionCorrectChange (str "b"); Card.SaveChanges]
             (Card.mount (fun v => v) Examples.single false)))) <= 1.
Proof.
  refine (proj1 (single_answer_stays_single (fun v => v) Examples.single
                   false [Card.OptionCorrectChange (str "b"); Card.SaveChanges]
                   eq_refl _)).
  vm_compute. lia.
Defined.

(** Witness of X11: the identifiers of the example response. *)
Lemma parsed_ids_fresh_witness :
  quizIds Examples.twoOptionsQuiz
  = nextIds Examples.entropy (length (quizIds Examples.twoOptionsQuiz)).
Proof.
  refine (proj1 (parsed_ids_fresh Examples.twoOptionsText Examples.entropy
                   (snd (Gemini.parseGeneratedQuiz Examples.twoOptionsText
                           Examples.entropy))
                   Examples.twoOptionsQuiz _)).
  vm_compute. reflexivity.
Defined.

(** Witness of X12: the text [Que vaut \alpha ?]. *)
Lemma heuristic_repairs_single_backslash_witness :
  fst (Gemini.parseGeneratedQuiz
         (questionTextResponse
            (str "Que vaut " ++ [92%N; 97%N; 108%N] ++ str "pha ?"))
         Examples.entropy)
  = Some [textOnlyQuestion Examples.entropy
            (str "Que vaut " ++ [92%N; 97%N; 108%N] ++ str "pha ?")].
Proof.
  refine (heuristic_repairs_single_backslash (str "Que vaut ") (str "pha ?")
            97%N 108%N Examples.entropy _ _ eq_refl eq_refl);
    repeat constructor.
Defined.

(** Witness of X13: the same text with the backslash doubled. *)
Lemma heuristic_breaks_escaped_command_witness :
  fst (Gemini.parseGeneratedQuiz
         (questionTextResponse
            (str "Que vaut " ++ [92%N; 92%N; 97%N; 108%N] ++ str "pha ?"))
         Examples.entropy) = None.
Proof.
  refine (proj2 (heuristic_breaks_escaped_command (str "Que vaut ")
                   (str "pha ?") 97%N 108%N Examples.entropy _ _
                   eq_refl eq_refl eq_refl _));
    [repeat constructor | repeat constructor | discriminate].
Defined.

(** Witness of X14: [2 \\times 3] comes out as a backslash, a tabulation
    and [imes 3]. *)
Lemma heuristic_spoils_escaped_command_witness :
  fst (Gemini.parseGeneratedQuiz
         (questionTextResponse
            (str "2 " ++ [92%N; 92%N; 116%N; 105%N] ++ str "mes 3"))
         Examples.entropy)
  = Some [textOnlyQuestion Examples.entropy
            (str "2 " ++ [92%N; 9%N; 105%N] ++ str "mes 3")].
Proof.
  refine (proj2 (heuristic_spoils_escaped_command (str "2 ") (str "mes 3")
                   116%N 105%N 9%N Examples.entropy _ _
                   eq_refl eq_refl eq_refl));
    repeat constructor.
Defined.

(** Witness of X15: three questions, two per page. *)
Lemma pages_partition_quiz_witness :
  concat (QuizDisplay.pages MoreExamples.quizOfThree 2)
  = MoreExamples.quizOfThree.
Proof. exact (pages_partition_quiz MoreExamples.quizOfThree 2 eq_refl). Defined.

(** Witness of X16: the second of the two pages holds one question. *)
Lemma page_is_filled_witness :
  (1 <= Z.of_nat (length (QuizDisplay.currentQuestions
                            MoreExamples.quizOfThree MoreExamples.secondPage))
     <= 2)%Z.
Proof.
  refine (proj1 (page_is_filled MoreExamples.quizOfThree
                   MoreExamples.secondPage eq_refl _)).
  vm_compute. split; discriminate.
Defined.

(** Witness of X17: to the second page, five per page, and back. *)
Lemma navigation_stays_in_range_witness :
  QuizDisplay.currentQuestions MoreExamples.quizOfThree
    (QuizDisplay.run MoreExamples.quizOfThree
       [QuizDisplay.NextPage; QuizDisplay.PerPage 5; QuizDisplay.PrevPage]
       (QuizDisplay.mkState 1 2))
  <> [].
Proof.
  refine (proj2 (navigation_stays_in_range MoreExamples.quizOfThree
                   [QuizDisplay.NextPage; QuizDisplay.PerPage 5;
                    QuizDisplay.PrevPage] 2 _ eq_refl _)).
  - discriminate.
  - repeat constructor.
Defined.

(** Witness of X18: the question on the second page is number 3. *)
Lemma questionNumber_is_position_witness :
  MoreExamples.quizOfThree
    !! Z.to_nat (QuizDisplay.questionNumber MoreExamples.secondPage 0 - 1)
  = Some Examples.triple.
Proof.
  exact (proj2 (questionNumber_is_position MoreExamples.quizOfThree
                  MoreExamples.secondPage 0 Examples.triple
                  eq_refl ltac:(discriminate) eq_refl)).
Defined.

(** Witness of X19: a file over the limit between two that are not. *)
Lemma handleFileChange_accepts_witness :
  fst (QuizForm.handleFileChange
         (Some [MoreExamples.notes; MoreExamples.scan; MoreExamples.slides])
         [])
  = [] ++ take (QuizForm.MAX_FILES - length (@nil QuizForm.File))
            (jsfilter QuizForm.withinLimit
               [MoreExamples.notes; MoreExamples.scan; MoreExamples.slides]).
Proof.
  refine (handleFileChange_accepts
            [MoreExamples.notes; MoreExamples.scan; MoreExamples.slides] [] _).
  unfold QuizForm.MAX_FILES. cbn. lia.
Defined.

(** Witness of X20: the same choice raises one alert at most. *)
Lemma handleFileChange_alerts_witness :
  length (snd (QuizForm.handleFileChange
                 (Some [MoreExamples.notes; MoreExamples.scan])
                 [MoreExamples.slides])) <= 1.
Proof.
  refine (proj1 (handleFileChange_alerts
                   [MoreExamples.notes; MoreExamples.scan]
                   [MoreExamples.slides] _)).
  unfold QuizForm.MAX_FILES. cbn. lia.
Defined.

(** Witness of X22: the same file chosen twice, then removed. *)
Lemma remove_undoes_choice_witness :
  QuizForm.handleRemoveFile (str "notes.txt")
    (fst (QuizForm.handleFileChange
            (Some [MoreExamples.notes; MoreExamples.notes])
            [MoreExamples.slides]))
  = [MoreExamples.slides].
Proof.
  refine (remove_undoes_choice (str "notes.txt")
            [MoreExamples.notes; MoreExamples.notes] [MoreExamples.slides]
            _ _ _).
  - unfold QuizForm.MAX_FILES. cbn. lia.
  - repeat constructor.
  - constructor; [|constructor]. intros H. vm_compute in H. discriminate.
Defined.

(** Witness of X24: the file of the validated example store. *)
Lemma handleDownloadTxt_name_witness :
  exists stem,
    Download.handleDownloadTxt MoreExamples.validated
    = Some (stem ++ str ".txt") /\
    stem <> [] /\ Download.spaceless stem /\
    stem = Download.underscored false (str "Les  fractions").
Proof.
  exact (proj2 (handleDownloadTxt_name MoreExamples.validated) eq_refl).
Defined.

(** Witness of X25: a text file adds no part. *)
Lemma buildContentParts_shape_witness :
  Content.buildContentParts (str "prompt") (Some [MoreExamples.lesson])
  = Content.Prompt (str "prompt").
Proof.
  refine (proj2 (proj2 (buildContentParts_shape (str "prompt")
                          [MoreExamples.lesson])) _).
  constructor; [left; discriminate | constructor].
Defined.

(** Witness of X26: the example response, read twice. *)
Lemma extended_quiz_ids_distinct_witness :
  NoDup (quizIds
           (App.editableQuiz
              (App.addMoreReply
                 (App.Resolved (Some MoreExamples.laterQuestions))
                 MoreExamples.generated))).
Proof.
  refine (extended_quiz_ids_distinct Examples.twoOptionsText
            Examples.twoOptionsText MoreExamples.unary
            (snd MoreExamples.firstParse) (snd MoreExamples.laterParse)
            MoreExamples.firstQuiz MoreExamples.laterQuestions
            MoreExamples.generated _ _ _ eq_refl).
  - vm_compute. reflexivity.
  - vm_compute. reflexivity.
  - intros i j Hij. apply (f_equal length) in Hij.
    cbn [Gemini.uuids MoreExamples.unary] in Hij.
    rewrite !length_replicate in Hij. lia.
Defined.
